(** * Haystack preview pipelines: document-store attachment and (un)marshalling

    A shallow embedding of [haystack/preview/pipeline.py]: the [Pipeline]
    wrapper over Canals' pipelines ([add_document_store], [add_component], ...)
    and the [marshal_pipelines] / [unmarshal_pipelines] pair.

    Python objects live in a heap indexed by object identity; methods are
    computations in a state-and-exception monad in which a raised exception
    keeps the mutations performed before it. *)

From Stdlib Require Import ZArith.
From stdpp Require Import base option strings list gmap pretty.

Local Open Scope string_scope.

(** ** Insertion-ordered dictionaries

    A Python [dict] is an association list without repeated keys, in insertion
    order; [d[k] = v] replaces the value of an existing key in place and
    appends a new key at the end. *)

Section dict.
Context {K V : Type} `{!EqDecision K}.

Fixpoint dict_get (d : list (K * V)) (k : K) : option V :=
  match d with
  | [] => None
  | (k', v) :: d' => if decide (k = k') then Some v else dict_get d' k
  end.

(** [k in d] *)
Definition dict_in (k : K) (d : list (K * V)) : bool :=
  match dict_get d k with Some _ => true | None => false end.

(** [d[k] = v] *)
Fixpoint dict_set (d : list (K * V)) (k : K) (v : V) : list (K * V) :=
  match d with
  | [] => [(k, v)]
  | (k', v') :: d' =>
      if decide (k = k') then (k, v) :: d' else (k', v') :: dict_set d' k v
  end.

(** [del d[k]] on a dictionary that has the key *)
Fixpoint dict_del (d : list (K * V)) (k : K) : list (K * V) :=
  match d with
  | [] => []
  | (k', v') :: d' =>
      if decide (k = k') then dict_del d' k else (k', v') :: dict_del d' k
  end.

Definition dict_keys (d : list (K * V)) : list K := d.*1.
Definition dict_values (d : list (K * V)) : list V := d.*2.
End dict.

(** ** Objects *)

(** Object identity, Python's [id()]. *)
Definition loc := positive.

(** Values found in a serialized document store. *)
Inductive value :=
| VInt (z : Z)
| VStr (s : string)
| VParams (ps : list (string * string)).

Global Instance value_eq_dec : EqDecision value.
Proof. solve_decision. Defined.

(** A serialized store, the [dict] returned by [to_dict]. *)
Definition StoreData := list (string * value).

(** A document store instance. [haystack_document_store] is the marker
    attribute [__haystack_document_store__] set by the [@document_store]
    decorator; [store_type] is the class name; [store_truth] is the truth
    value of the instance in a boolean context, [bool(store)]: [False] for an
    instance whose class defines [__bool__] or [__len__] and answers [False]
    or [0], [True] for every other instance. *)
Record DocumentStore := {
  haystack_document_store : bool;
  store_type : string;
  store_hash : Z;
  init_parameters : list (string * string);
  store_truth : bool;
}.

(** Modelled from the spec: the [to_dict] method installed by the
    [@document_store] decorator ([haystack/preview/document_stores/decorator.py],
    not part of the sources at hand): it serializes the resource to its content
    hash, its type tag and its state, as a new dictionary. *)
Definition to_dict (s : DocumentStore) : StoreData :=
  [("hash", VInt (store_hash s));
   ("type", VStr (store_type s));
   ("init_parameters", VParams (init_parameters s))].

(** Modelled from the spec: a component instance. [store_aware] says whether
    the instance inherits from [DocumentStoreAwareMixin]
    ([haystack/preview/document_stores/mixins.py], not part of the sources at
    hand), which can hold at most one store reference behind a getter and a
    setter and records the name it is bound to; [canals_component] says
    whether Canals accepts the instance as a component. *)
Record Component := {
  store_aware : bool;
  canals_component : bool;
  document_store : option loc;
  _document_store_name : option string;
}.

(** A [Pipeline] object. [_document_stores_connections] is a reference to a
    dictionary object (component name to store name); [_document_stores] maps
    store names to store instances; [graph] is the node table of the
    underlying Canals pipeline (component name to instance). *)
Record Pipeline := {
  _document_stores_connections : loc;
  _document_stores : list (string * loc);
  graph : list (string * loc);
}.

Global Instance Component_eq_dec : EqDecision Component.
Proof. solve_decision. Defined.
Global Instance Pipeline_eq_dec : EqDecision Pipeline.
Proof. solve_decision. Defined.
Global Instance DocumentStore_eq_dec : EqDecision DocumentStore.
Proof. solve_decision. Defined.

(** The heap: one table per kind of object. *)
Record World := {
  stores : gmap loc DocumentStore;
  comps : gmap loc Component;
  dicts : gmap loc (list (string * string));
  pipes : gmap loc Pipeline;
}.

Definition empty_world : World :=
  {| stores := ∅; comps := ∅; dicts := ∅; pipes := ∅ |}.

(** ** Exceptions and the monad *)

Inductive exn :=
| ValueError (msg : string)
| KeyError (key : string)
| NotADocumentStoreError (msg : string)
| NoSuchDocumentStoreError (msg : string)
| PipelineValidationError (msg : string)
| TypeError (msg : string)
| DanglingReference (l : loc)   (* not a Python exception: a reference to no object of the heap *)
| OutOfFuel.                    (* not a Python exception: a loop that used up its bound *)

Inductive result (A : Type) :=
| Ok (a : A)
| Raise (e : exn).
Arguments Ok {A} a.
Arguments Raise {A} e.

Definition is_ok {A} (r : result A) : bool :=
  match r with Ok _ => true | Raise _ => false end.

(** A computation returns or raises, and in both cases leaves a heap. *)
Definition M (A : Type) : Type := World → result A * World.

Definition ret {A} (a : A) : M A := λ w, (Ok a, w).
Definition raise {A} (e : exn) : M A := λ w, (Raise e, w).
Definition bind {A B} (m : M A) (k : A → M B) : M B :=
  λ w, match m w with
       | (Ok a, w') => k a w'
       | (Raise e, w') => (Raise e, w')
       end.

Declare Scope py_scope.
Delimit Scope py_scope with py.
Notation "x <- m ;; k" := (bind m (λ x, k))
  (at level 100, m at next level, right associativity) : py_scope.
Notation "m ;;; k" := (bind m (λ _, k))
  (at level 100, right associativity) : py_scope.
Local Open Scope py_scope.

(** [d[k]], raising [KeyError] *)
Definition getitem {V} (d : list (string * V)) (k : string) : M V :=
  match dict_get d k with
  | Some v => ret v
  | None => raise (KeyError k)
  end.

(** [if c: raise e] *)
Definition raise_if (c : bool) (e : exn) : M unit :=
  if c then raise e else ret ().

(** *** Heap accesses *)

Definition read_store (l : loc) : M DocumentStore :=
  λ w, match stores w !! l with
       | Some s => (Ok s, w)
       | None => (Raise (DanglingReference l), w)
       end.

Definition alloc_store (s : DocumentStore) : M loc :=
  λ w, let l := fresh (dom (stores w)) in
       (Ok l, {| stores := <[l := s]> (stores w); comps := comps w;
                 dicts := dicts w; pipes := pipes w |}).

Definition read_comp (l : loc) : M Component :=
  λ w, match comps w !! l with
       | Some c => (Ok c, w)
       | None => (Raise (DanglingReference l), w)
       end.

Definition write_comp (l : loc) (c : Component) : M unit :=
  λ w, (Ok (), {| stores := stores w; comps := <[l := c]> (comps w);
                  dicts := dicts w; pipes := pipes w |}).

Definition alloc_comp (c : Component) : M loc :=
  λ w, let l := fresh (dom (comps w)) in
       (Ok l, {| stores := stores w; comps := <[l := c]> (comps w);
                 dicts := dicts w; pipes := pipes w |}).

Definition read_dict (l : loc) : M (list (string * string)) :=
  λ w, match dicts w !! l with
       | Some d => (Ok d, w)
       | None => (Raise (DanglingReference l), w)
       end.

Definition write_dict (l : loc) (d : list (string * string)) : M unit :=
  λ w, (Ok (), {| stores := stores w; comps := comps w;
                  dicts := <[l := d]> (dicts w); pipes := pipes w |}).

Definition alloc_dict (d : list (string * string)) : M loc :=
  λ w, let l := fresh (dom (dicts w)) in
       (Ok l, {| stores := stores w; comps := comps w;
                 dicts := <[l := d]> (dicts w); pipes := pipes w |}).

Definition read_pipe (l : loc) : M Pipeline :=
  λ w, match pipes w !! l with
       | Some p => (Ok p, w)
       | None => (Raise (DanglingReference l), w)
       end.

Definition write_pipe (l : loc) (p : Pipeline) : M unit :=
  λ w, (Ok (), {| stores := stores w; comps := comps w;
                  dicts := dicts w; pipes := <[l := p]> (pipes w) |}).

Definition alloc_pipe (p : Pipeline) : M loc :=
  λ w, let l := fresh (dom (pipes w)) in
       (Ok l, {| stores := stores w; comps := comps w;
                 dicts := dicts w; pipes := <[l := p]> (pipes w) |}).

(** [for x in xs: body x] *)
Fixpoint for_each {A} (xs : list A) (body : A → M unit) : M unit :=
  match xs with
  | [] => ret ()
  | x :: xs' => body x ;;; for_each xs' body
  end.

(** Python truthiness of an optional string: [None] and [""] are false. *)
Definition truthy (s : option string) : bool :=
  match s with
  | Some s => negb (bool_decide (s = ""))
  | None => false
  end.

(** The truth value of [instance.document_store] in a boolean context:
    [None] is false, and a store is as true as [bool()] of it. *)
Definition truth_of_store (o : option loc) : M bool :=
  match o with
  | None => ret false
  | Some l => s <- read_store l ;; ret (store_truth s)
  end.

(** [str(x)] of an optional string, as an f-string prints it. *)
Definition str_of (s : option string) : string :=
  match s with Some s => s | None => "None" end.

(** ** class Pipeline(CanalsPipeline) *)

(** [Pipeline.__init__] *)
Definition Pipeline_init : M loc :=
  d <- alloc_dict [] ;;
  alloc_pipe {| _document_stores_connections := d;
                _document_stores := [];
                graph := [] |}.

Definition add_document_store (self : loc) (name : string) (store : loc) : M unit :=
  s <- read_store store ;;
  raise_if (negb (haystack_document_store s))
    (NotADocumentStoreError
       ("'" +:+ store_type s +:+ "' is not decorated with @document_store, "
        +:+ "so it can't be added to the pipeline with Pipeline.add_document_store().")) ;;;
  p <- read_pipe self ;;
  write_pipe self
    {| _document_stores_connections := _document_stores_connections p;
       _document_stores := dict_set (_document_stores p) name store;
       graph := graph p |}.

Definition list_document_stores (self : loc) : M (list string) :=
  p <- read_pipe self ;;
  ret (dict_keys (_document_stores p)).

Definition get_document_store (self : loc) (name : string) : M loc :=
  p <- read_pipe self ;;
  match dict_get (_document_stores p) name with
  | Some s => ret s
  | None =>
      raise (NoSuchDocumentStoreError
               ("No DocumentStore named '" +:+ name +:+ "' was added to this pipeline."))
  end.

(** Modelled from the spec: [CanalsPipeline.add_component], the delegated
    registration in the underlying graph (Canals is an external collaborator).
    As the docstring of [Pipeline.add_component] lists its failures: a
    [ValueError] when a component with the same name already exists and a
    [PipelineValidationError] when the instance is not a component. *)
Definition canals_add_component (self : loc) (name : string) (instance : loc) : M unit :=
  p <- read_pipe self ;;
  raise_if (dict_in name (graph p))
    (ValueError ("A component named '" +:+ name
                 +:+ "' already exists in this pipeline: choose another name.")) ;;;
  c <- read_comp instance ;;
  raise_if (negb (canals_component c))
    (PipelineValidationError ("'" +:+ name +:+ "' doesn't seem to be a component.")) ;;;
  write_pipe self
    {| _document_stores_connections := _document_stores_connections p;
       _document_stores := _document_stores p;
       graph := dict_set (graph p) name instance |}.

Definition already_connected_msg (name conn : string) : string :=
  "Component '" +:+ name +:+ "' is already connected to Document Store '" +:+ conn +:+ "'.".
Definition needs_store_msg (name : string) : string :=
  "Component '" +:+ name +:+ "' needs a DocumentStore.".
Definition not_found_msg (ds : string) : string :=
  "DocumentStore named '" +:+ ds +:+ "' not found. Add it with 'pipeline.add_document_store('"
  +:+ ds +:+ "', <the DocumentStore instance>)'.".
Definition unsupported_msg (name : string) : string :=
  "Component '" +:+ name +:+ "' doesn't support DocumentStores.".

(** The store-aware branch of [add_component] (lines 90 to 108). The tests
    of lines 90, 96 and 105 take [instance.document_store] in a boolean
    context; [and] evaluates its right operand only when the left one is
    true. The message of the first [ValueError] is an f-string that reads
    [self._document_stores_connections[name]] before the exception is built.
    [document_store not in self._document_stores] holds for [None], which is
    never a key. *)
Definition bind_document_store (self : loc) (name : string) (instance : loc)
    (doc_store : option string) : M unit :=
  c <- read_comp instance ;;
  (if truthy doc_store then
     held <- truth_of_store (document_store c) ;;
     if held : bool then
       p <- read_pipe self ;;
       conns <- read_dict (_document_stores_connections p) ;;
       conn <- getitem conns name ;;
       raise (ValueError (already_connected_msg name conn))
     else ret ()
   else ret ()) ;;;
  (if negb (truthy doc_store) then
     held <- truth_of_store (document_store c) ;;
     raise_if (negb held) (ValueError (needs_store_msg name))
   else ret ()) ;;;
  p <- read_pipe self ;;
  match doc_store with
  | None => raise (NoSuchDocumentStoreError (not_found_msg (str_of doc_store)))
  | Some ds =>
      match dict_get (_document_stores p) ds with
      | None => raise (NoSuchDocumentStoreError (not_found_msg (str_of doc_store)))
      | Some store =>
          held <- truth_of_store (document_store c) ;;
          if negb held then
            conns <- read_dict (_document_stores_connections p) ;;
            write_dict (_document_stores_connections p) (dict_set conns name ds) ;;;
            c1 <- read_comp instance ;;
            write_comp instance
              {| store_aware := store_aware c1;
                 canals_component := canals_component c1;
                 document_store := Some store;
                 _document_store_name := _document_store_name c1 |} ;;;
            c2 <- read_comp instance ;;
            write_comp instance
              {| store_aware := store_aware c2;
                 canals_component := canals_component c2;
                 document_store := document_store c2;
                 _document_store_name := Some ds |}
          else ret ()
      end
  end.

(** [Pipeline.add_component]. The parameter [document_store] is written
    [doc_store] here, [document_store] being the attribute of the components. *)
Definition add_component (self : loc) (name : string) (instance : loc)
    (doc_store : option string) : M unit :=
  c <- read_comp instance ;;
  (if store_aware c then bind_document_store self name instance doc_store
   else raise_if (truthy doc_store) (ValueError (unsupported_msg name))) ;;;
  canals_add_component self name instance.

(** ** The portable document *)

(** What Canals records about a component; [cd_store_aware] stands for the
    component's class. *)
Record ComponentData := {
  cd_store_aware : bool;
}.

(** A pipeline's section of the document: the graph section written by
    Canals (here the names of the pipeline's nodes) and, once the stores have
    been marshalled, the key ["store_connections"], a reference to a
    dictionary object. *)
Record PipelineData := {
  pd_components : list string;
  store_connections : option loc;
}.

(** The document: [data["pipelines"]], [data["components"]] and, once the
    stores have been marshalled, [data["stores"]]. *)
Record Document := {
  doc_pipelines : list (string * PipelineData);
  doc_components : list (string * ComponentData);
  doc_stores : option (list (string * StoreData));
}.

(** [for x in xs: acc = body x acc], for loops that update local variables *)
Fixpoint fold_m {A S} (xs : list A) (body : A → S → M S) (acc : S) : M S :=
  match xs with
  | [] => ret acc
  | x :: xs' => acc' <- body x acc ;; fold_m xs' body acc'
  end.

(** Modelled from the spec: [canals.pipeline.save_load.marshal_pipelines], the
    external graph serializer. It produces one graph section per pipeline and
    a table of the components by name. *)
Definition marshal_canals_component (item : string * loc)
    (acc : list (string * ComponentData)) : M (list (string * ComponentData)) :=
  c <- read_comp item.2 ;;
  ret (dict_set acc item.1 {| cd_store_aware := store_aware c |}).

Definition marshal_canals_pipeline (item : string * loc) (acc : Document) : M Document :=
  p <- read_pipe item.2 ;;
  cs <- fold_m (graph p) marshal_canals_component (doc_components acc) ;;
  ret {| doc_pipelines :=
           dict_set (doc_pipelines acc) item.1
             {| pd_components := dict_keys (graph p); store_connections := None |};
         doc_components := cs;
         doc_stores := doc_stores acc |}.

Definition marshal_canals_pipelines (pipelines : list (string * loc)) : M Document :=
  fold_m pipelines marshal_canals_pipeline
    {| doc_pipelines := []; doc_components := []; doc_stores := None |}.

(** ** marshal_pipelines *)

(** [any(marshalled_store["hash"] == s["hash"] for s in values)]: the
    generator evaluates both subscripts for each [s] in turn and stops at the
    first equal pair. *)
Fixpoint any_same_hash (marshalled_store : StoreData) (values : list StoreData) : M bool :=
  match values with
  | [] => ret false
  | s :: values' =>
      a <- getitem marshalled_store "hash" ;;
      b <- getitem s "hash" ;;
      if bool_decide (a = b) then ret true
      else any_same_hash marshalled_store values'
  end.

(** The loop [while unique_store_name in marshalled_stores], entered with
    [unique_store_name] and the counter [i]; [fuel] bounds the iterations. *)
Fixpoint unique_name_loop (fuel : nat) (store_name unique_store_name : string) (i : nat)
    (marshalled_stores : list (string * StoreData)) : M string :=
  if dict_in unique_store_name marshalled_stores then
    match fuel with
    | O => raise OutOfFuel
    | S fuel' =>
        unique_name_loop fuel' store_name (store_name +:+ "_" +:+ pretty i) (S i)
          marshalled_stores
    end
  else ret unique_store_name.

(** The body of the loop is run at most once per key of [marshalled_stores]
    (see [unique_name_returns]). *)
Definition unique_name (store_name : string)
    (marshalled_stores : list (string * StoreData)) : M string :=
  unique_name_loop (length marshalled_stores) store_name store_name 0 marshalled_stores.

(** The loop over [store_connections.items()] that renames the connections.
    It assigns to existing keys only, so every key is visited once, with the
    value it had when the loop started. *)
Definition rename_connections (store_connections : loc)
    (store_name unique_store_name : string) : M unit :=
  items <- read_dict store_connections ;;
  for_each items (λ item,
    if bool_decide (item.2 = store_name) then
      d <- read_dict store_connections ;;
      write_dict store_connections (dict_set d item.1 unique_store_name)
    else ret ()).

(** The body of [for store_name, store in pipeline._document_stores.items()] *)
Definition marshal_store (store_connections : loc) (item : string * loc)
    (marshalled_stores : list (string * StoreData)) : M (list (string * StoreData)) :=
  let store_name := item.1 in
  s <- read_store item.2 ;;
  let marshalled_store := to_dict s in
  dup <- any_same_hash marshalled_store (dict_values marshalled_stores) ;;
  if dup : bool then ret marshalled_stores
  else
    _ <- getitem marshalled_store "hash" ;;
    let marshalled_store := dict_del marshalled_store "hash" in
    unique_store_name <- unique_name store_name marshalled_stores ;;
    (if bool_decide (unique_store_name ≠ store_name)
     then rename_connections store_connections store_name unique_store_name
     else ret ()) ;;;
    ret (dict_set marshalled_stores unique_store_name marshalled_store).

(** The body of [for pipeline_name, pipeline in pipelines.items()]; the local
    variables it updates are the table of sections
    [marshalled_pipelines["pipelines"]] and [marshalled_stores]. *)
Definition marshal_pipeline (pipelines : list (string * loc)) (item : string * loc)
    (acc : list (string * PipelineData) * list (string * StoreData))
  : M (list (string * PipelineData) * list (string * StoreData)) :=
  let pipeline_name := item.1 in
  pl <- getitem pipelines pipeline_name ;;
  p0 <- read_pipe pl ;;
  conns <- read_dict (_document_stores_connections p0) ;;
  store_connections <- alloc_dict conns ;;
  p <- read_pipe item.2 ;;
  marshalled_stores <- fold_m (_document_stores p) (marshal_store store_connections) acc.2 ;;
  section <- getitem acc.1 pipeline_name ;;
  ret (dict_set acc.1 pipeline_name
         {| pd_components := pd_components section;
            store_connections := Some store_connections |},
       marshalled_stores).

Definition marshal_pipelines (pipelines : list (string * loc)) : M Document :=
  marshalled_pipelines <- marshal_canals_pipelines pipelines ;;
  r <- fold_m pipelines (marshal_pipeline pipelines)
         (doc_pipelines marshalled_pipelines, []) ;;
  ret {| doc_pipelines := r.1;
         doc_components := doc_components marshalled_pipelines;
         doc_stores := Some r.2 |}.

(** ** unmarshal_pipelines *)

Section unmarshal.
(** [document_store.registry]: the process-wide table from a type tag to the
    class whose [from_dict] rebuilds a store from its serialized form. *)
Variable registry : list (string * (StoreData → result DocumentStore)).

Definition lift {A} (r : result A) : M A := λ w, (r, w).

(** The body of [for store_name, store in data["stores"].items()] *)
Definition unmarshal_store (item : string * StoreData)
    (stores_ : list (string * loc)) : M (list (string * loc)) :=
  ty <- getitem item.2 "type" ;;
  cls <- match ty with
         | VStr t => getitem registry t
         | VInt z => raise (KeyError (pretty z))
         | VParams _ => raise (TypeError "unhashable type: 'dict'")
         end ;;
  s <- lift (cls item.2) ;;
  l <- alloc_store s ;;
  ret (dict_set stores_ item.1 l).

(** Modelled from the spec: [_unmarshal_components] of Canals, which rebuilds
    one component instance per entry of [data["components"]]; a new
    store-aware instance holds no store. *)
Definition unmarshal_canals_component (item : string * ComponentData)
    (components : list (string * loc)) : M (list (string * loc)) :=
  l <- alloc_comp {| store_aware := cd_store_aware item.2;
                     canals_component := true;
                     document_store := None;
                     _document_store_name := None |} ;;
  ret (dict_set components item.1 l).

Definition _unmarshal_canals_components (data : Document) : M (list (string * loc)) :=
  fold_m (doc_components data) unmarshal_canals_component [].

(** Modelled from the spec: [_unmarshal_pipelines] of Canals, which
    assembles the pipelines from the graph sections and the components. *)
Definition unmarshal_canals_pipeline (components : list (string * loc))
    (item : string * PipelineData) (pipelines : list (string * loc))
  : M (list (string * loc)) :=
  pl <- Pipeline_init ;;
  for_each (pd_components item.2) (λ name,
    c <- getitem components name ;;
    canals_add_component pl name c) ;;;
  ret (dict_set pipelines item.1 pl).

Definition _unmarshal_canals_pipelines (data : Document)
    (components : list (string * loc)) : M (list (string * loc)) :=
  fold_m (doc_pipelines data) (unmarshal_canals_pipeline components) [].

(** [components[component_name].document_store = stores[store_name]]: the
    right-hand side is evaluated first. *)
Definition reconnect (stores_ components : list (string * loc))
    (item : string * string) : M unit :=
  store <- getitem stores_ item.2 ;;
  comp <- getitem components item.1 ;;
  c <- read_comp comp ;;
  write_comp comp
    {| store_aware := store_aware c;
       canals_component := canals_component c;
       document_store := Some store;
       _document_store_name := _document_store_name c |}.

(** The body of [for pipeline in data["pipelines"].values()] *)
Definition reconnect_stores (stores_ components : list (string * loc))
    (pipeline : PipelineData) : M unit :=
  sc <- match store_connections pipeline with
        | Some l => ret l
        | None => raise (KeyError "store_connections")
        end ;;
  items <- read_dict sc ;;
  for_each items (reconnect stores_ components).

(** The loop [for store_name, store in data["stores"].items()] *)
Definition unmarshal_stores (table : list (string * StoreData)) : M (list (string * loc)) :=
  fold_m table unmarshal_store [].

Definition unmarshal_pipelines (data : Document) : M (list (string * loc)) :=
  table <- match doc_stores data with
           | Some t => ret t
           | None => raise (KeyError "stores")
           end ;;
  stores_ <- unmarshal_stores table ;;
  components <- _unmarshal_canals_components data ;;
  for_each (dict_values (doc_pipelines data)) (reconnect_stores stores_ components) ;;;
  _unmarshal_canals_pipelines data components.

(** [load_pipelines]: [reader] stands for opening the file and reading the
    dictionary from it. *)
Definition load_pipelines (reader : M Document) : M (list (string * loc)) :=
  data <- reader ;;
  unmarshal_pipelines data.
End unmarshal.

(** [save_pipelines]: [writer] stands for opening the file and writing the
    dictionary to it. *)
Definition save_pipelines (pipelines : list (string * loc)) (writer : Document → M unit)
  : M unit :=
  data <- marshal_pipelines pipelines ;;
  writer data.

(** ** Auxiliary definitions for the statements *)

(** The component holds a store that is true in a boolean context. *)
Definition holds_store (w : World) (c : Component) : Prop :=
  ∃ l s, document_store c = Some l ∧ stores w !! l = Some s ∧ store_truth s = true.

(** The heap after lines 106 to 108 of [add_component]. *)
Definition bound_world (w : World) (p : Pipeline) (name : string) (instance : loc)
    (c : Component) (ds : string) (store : loc) (conns : list (string * string)) : World :=
  {| stores := stores w;
     comps := <[instance := {| store_aware := store_aware c;
                               canals_component := canals_component c;
                               document_store := Some store;
                               _document_store_name := Some ds |}]> (comps w);
     dicts := <[_document_stores_connections p := dict_set conns name ds]> (dicts w);
     pipes := pipes w |}.

(** The heap after a successful delegated registration. *)
Definition registered_world (w : World) (self : loc) (p : Pipeline) (name : string)
    (instance : loc) : World :=
  {| stores := stores w; comps := comps w; dicts := dicts w;
     pipes := <[self := {| _document_stores_connections := _document_stores_connections p;
                           _document_stores := _document_stores p;
                           graph := dict_set (graph p) name instance |}]> (pipes w) |}.


(** *** Scripts of calls on one pipeline *)

Inductive op :=
| AddDocumentStore (name : string) (store : loc)
| AddComponent (name : string) (instance : loc) (doc_store : option string).

Definition run_op (self : loc) (o : op) : M unit :=
  match o with
  | AddDocumentStore name store => add_document_store self name store
  | AddComponent name instance doc_store => add_component self name instance doc_store
  end.

(** The heap after a script of calls; a call that raises is caught and the
    script goes on with the heap the call left. *)
Fixpoint run_ops (self : loc) (os : list op) (w : World) : World :=
  match os with
  | [] => w
  | o :: os' => run_ops self os' (run_op self o w).2
  end.

(** The symmetric binding of a pipeline: for each bound component, that is
    each store-aware component at a node of the graph that holds a store,
    the connections table maps the name of the node to a store name, the
    store table maps that name to the very instance the component holds, and
    the component remembers that name. *)
Definition symmetric_binding (w : World) (self : loc) : Prop :=
  ∃ p conns,
    pipes w !! self = Some p ∧
    dicts w !! _document_stores_connections p = Some conns ∧
    ∀ name instance c store,
      dict_get (graph p) name = Some instance →
      comps w !! instance = Some c →
      store_aware c = true →
      document_store c = Some store →
      ∃ rn, dict_get conns name = Some rn ∧
            dict_get (_document_stores p) rn = Some store ∧
            _document_store_name c = Some rn.

(** Every store-aware component of the graph holds a store. *)
Definition graph_bound (w : World) (self : loc) : Prop :=
  ∀ p name instance c,
    pipes w !! self = Some p →
    dict_get (graph p) name = Some instance →
    comps w !! instance = Some c →
    store_aware c = true →
    is_Some (document_store c).

Global Instance World_eq_dec : EqDecision World.
Proof. solve_decision. Defined.

(** Some bound component of the graph is connected to the store name [rn]. *)
Definition connected_to (w : World) (p : Pipeline) (conns : list (string * string))
    (rn : string) : bool :=
  existsb (λ node : string * loc,
             match comps w !! node.2 with
             | Some c =>
                 store_aware c && bool_decide (is_Some (document_store c)) &&
                 bool_decide (dict_get conns node.1 = Some rn)
             | None => false
             end) (graph p).

(** [add_document_store(name, store)] would replace, by another instance,
    the instance registered under a name that a bound component of the graph
    is connected to. *)
Definition replaces_bound_store (w : World) (self : loc) (name : string) (store : loc)
  : bool :=
  match pipes w !! self with
  | Some p =>
      match dict_get (_document_stores p) name, dicts w !! _document_stores_connections p with
      | Some old, Some conns =>
          negb (bool_decide (old = store)) && connected_to w p conns name
      | _, _ => false
      end
  | None => false
  end.

(** The instance is not a store-aware component that holds a store. *)
Definition holds_no_store (w : World) (instance : loc) : bool :=
  match comps w !! instance with
  | Some c => negb (store_aware c) || bool_decide (document_store c = None)
  | None => true
  end.

(** A call that cannot break the binding: an [add_document_store] call that
    returns does not replace, by another instance, the instance registered
    under a name that a bound component is connected to; an [add_component]
    call leaves the heap as it found it, or returns and was given an instance
    that held no store. *)
Definition keeps_binding (self : loc) (o : op) (w : World) : bool :=
  match o with
  | AddDocumentStore name store =>
      negb (is_ok (add_document_store self name store w).1) ||
      negb (replaces_bound_store w self name store)
  | AddComponent name instance doc_store =>
      let r := add_component self name instance doc_store w in
      bool_decide (r.2 = w) || is_ok r.1 && holds_no_store w instance
  end.

(** Every call of the script keeps the binding, in the heap it is run in. *)
Fixpoint admissible (self : loc) (os : list op) (w : World) : bool :=
  match os with
  | [] => true
  | o :: os' => keeps_binding self o w && admissible self os' (run_op self o w).2
  end.

(** *** Predicates on computations and heaps *)

(** [wp m Q R w]: run from [w], [m] returns a value and a heap that satisfy
    [Q], or raises an exception and leaves a heap that satisfy [R]. *)
Definition wp {A} (m : M A) (Q : A → World → Prop) (R : exn → World → Prop)
    (w : World) : Prop :=
  match m w with
  | (Ok a, w') => Q a w'
  | (Raise e, w') => R e w'
  end.

(** A computation that only reads the heap. *)
Definition reads {A} (m : M A) : Prop := ∀ w, (m w).2 = w.

(** [frame w w']: the stores, the components and the pipelines of [w'] are
    those of [w], and every dictionary object of [w] is in [w'] with the
    same content. *)
Definition frame (w w' : World) : Prop :=
  stores w' = stores w ∧ comps w' = comps w ∧ pipes w' = pipes w ∧
  dicts w ⊆ dicts w'.

(** The entries of [marshalled_stores] have lost their ["hash"] key. *)
Definition hashless (marshalled_stores : list (string * StoreData)) : Prop :=
  ∀ d, d ∈ dict_values marshalled_stores → dict_get d "hash" = None.

(** The world with one more dictionary object. *)
Definition with_dict (w : World) (l : loc) (d : list (string * string)) : World :=
  {| stores := stores w; comps := comps w;
     dicts := <[l := d]> (dicts w); pipes := pipes w |}.

(** The invariant of the loop over the pipelines, after the items [done]. *)
Definition marshalled (w : World) (pipelines done : list (string * loc))
    (acc : list (string * PipelineData) * list (string * StoreData)) (w1 : World) : Prop :=
  frame w w1 ∧ hashless acc.2 ∧ (length acc.2 ≤ 1)%nat ∧
  (∀ n, is_Some (dict_get acc.1 n) → n ∈ pipelines.*1) ∧
  (∀ n, n ∈ done.*1 → is_Some (dict_get acc.1 n)) ∧
  (∀ item p, item ∈ done → pipes w !! item.2 = Some p →
     (length (_document_stores p) ≤ 1)%nat) ∧
  (∀ n pd, dict_get acc.1 n = Some pd → n ∈ done.*1 →
     ∃ sc, store_connections pd = Some sc ∧
           dicts w !! sc = None ∧
           is_Some (dicts w1 !! sc) ∧
           ∀ pl p conns,
             dict_get pipelines n = Some pl →
             pipes w !! pl = Some p →
             dicts w !! _document_stores_connections p = Some conns →
             dicts w1 !! sc = Some conns).

(** The world with one more store, and with one more component. *)
Definition with_store (w : World) (l : loc) (s : DocumentStore) : World :=
  {| stores := <[l := s]> (stores w); comps := comps w;
     dicts := dicts w; pipes := pipes w |}.

Definition with_comp (w : World) (l : loc) (c : Component) : World :=
  {| stores := stores w; comps := <[l := c]> (comps w);
     dicts := dicts w; pipes := pipes w |}.

(** The invariant of the loop that rebuilds the stores, after the entries
    [done] of the table. *)
Definition stores_rebuilt (w : World) (done : list (string * StoreData))
    (stores_ : list (string * loc)) (w1 : World) : Prop :=
  comps w1 = comps w ∧ dicts w1 = dicts w ∧ pipes w1 = pipes w ∧
  stores w ⊆ stores w1 ∧
  (∀ n, is_Some (dict_get stores_ n) ↔ is_Some (dict_get done n)) ∧
  (∀ n1 n2 l, dict_get stores_ n1 = Some l → dict_get stores_ n2 = Some l → n1 = n2) ∧
  (∀ n l, dict_get stores_ n = Some l → stores w !! l = None ∧ is_Some (stores w1 !! l)) ∧
  (length stores_ ≤ length done)%nat.

(** The invariant of the loop that rebuilds the components. *)
Definition components_rebuilt (w : World) (done : list (string * ComponentData))
    (components : list (string * loc)) (w1 : World) : Prop :=
  stores w1 = stores w ∧ dicts w1 = dicts w ∧ pipes w1 = pipes w ∧
  (∀ n, is_Some (dict_get components n) ↔ is_Some (dict_get done n)) ∧
  (∀ n l, dict_get components n = Some l → is_Some (comps w1 !! l)).

Section reconnect_definitions.
Variables (stores_ components : list (string * loc)).

(** [reconnected w w']: from [w] to [w'] only store pointers of components
    have changed, and each changed pointer is one of the rebuilt stores. *)
Definition reconnected (w w' : World) : Prop :=
  stores w' = stores w ∧ dicts w' = dicts w ∧ pipes w' = pipes w ∧
  ∀ l c, comps w !! l = Some c →
    ∃ c', comps w' !! l = Some c' ∧
          (c' = c ∨ ∃ n store, dict_get stores_ n = Some store ∧
                               document_store c' = Some store).

(** Every rebuilt component is in the heap. *)
Definition allocated (w : World) : Prop :=
  ∀ n l, dict_get components n = Some l → is_Some (comps w !! l).

(** Both names of a connection are known. *)
Definition resolved (item : string * string) : Prop :=
  is_Some (dict_get stores_ item.2) ∧ is_Some (dict_get components item.1).

(** The component of a connection holds the store of the connection. *)
Definition bound_to (w : World) (item : string * string) : Prop :=
  ∃ instance store c,
    dict_get components item.1 = Some instance ∧
    dict_get stores_ item.2 = Some store ∧
    comps w !! instance = Some c ∧
    document_store c = Some store.

(** The [KeyError] of a connection with an unknown store or component. *)
Definition dangling_error (e : exn) (item : string * string) : Prop :=
  e = KeyError item.2 ∧ dict_get stores_ item.2 = None ∨
  e = KeyError item.1 ∧ dict_get components item.1 = None.

(** All the names of the table of stores stand for one instance. *)
Definition single_valued : Prop :=
  ∀ n1 n2 l1 l2,
    dict_get stores_ n1 = Some l1 → dict_get stores_ n2 = Some l2 → l1 = l2.

(** The connections of a section are all resolved. *)
Definition section_resolved (w : World) (pd : PipelineData) : Prop :=
  ∃ sc conns, store_connections pd = Some sc ∧ dicts w !! sc = Some conns ∧
              ∀ item, item ∈ conns → resolved item.

(** The components of the connections of a section hold their stores. *)
Definition section_bound (w w' : World) (pd : PipelineData) : Prop :=
  ∀ sc conns item,
    store_connections pd = Some sc → dicts w !! sc = Some conns → item ∈ conns →
    bound_to w' item.

(** The exception raised for a section. *)
Definition section_error (w : World) (e : exn) (pd : PipelineData) : Prop :=
  match store_connections pd with
  | None => e = KeyError "store_connections"
  | Some sc =>
      match dicts w !! sc with
      | None => e = DanglingReference sc
      | Some conns => ∃ item, item ∈ conns ∧ dangling_error e item
      end
  end.
End reconnect_definitions.

(** [assembled w w']: the stores and the components of [w'] are those of
    [w], and every dictionary object of [w] is in [w'] with the same content. *)
Definition assembled (w w' : World) : Prop :=
  stores w' = stores w ∧ comps w' = comps w ∧ dicts w ⊆ dicts w'.

(** *** Fixtures *)

Definition memory_store (h : Z) : DocumentStore :=
  {| haystack_document_store := true;
     store_type := "MemoryDocumentStore";
     store_hash := h;
     init_parameters := [];
     store_truth := true |}.

(** A store-aware component that holds no store yet. *)
Definition retriever : Component :=
  {| store_aware := true; canals_component := true;
     document_store := None; _document_store_name := None |}.

(** A component that is not store-aware. *)
Definition converter : Component :=
  {| store_aware := false; canals_component := true;
     document_store := None; _document_store_name := None |}.

(** One store (1), one retriever (1) and two pipelines (1 and 2) that both
    register the store as ["store"]; the retriever is added to the first
    pipeline and bound there. *)
Definition shared_component_world : World :=
  ((s <- alloc_store (memory_store 1) ;;
   c <- alloc_comp retriever ;;
   p1 <- Pipeline_init ;;
   p2 <- Pipeline_init ;;
   add_document_store p1 "store" s ;;;
   add_document_store p2 "store" s ;;;
   add_component p1 "retriever" c (Some "store")) empty_world).2.

(** One pipeline (1) with the store (1) registered as ["store"], and a
    converter (1) that is not in the graph yet. *)
Definition converter_world : World :=
  ((s <- alloc_store (memory_store 1) ;;
   c <- alloc_comp converter ;;
   p <- Pipeline_init ;;
   add_document_store p "store" s) empty_world).2.

(** One pipeline (1) with the stores 1 and 2 registered as ["store"] and
    ["other"], the retriever 1 added as ["retriever"] and bound to ["store"],
    and a second retriever (2) that holds no store. *)
Definition two_retrievers_world : World :=
  ((s1 <- alloc_store (memory_store 1) ;;
   s2 <- alloc_store (memory_store 2) ;;
   c1 <- alloc_comp retriever ;;
   c2 <- alloc_comp retriever ;;
   p <- Pipeline_init ;;
   add_document_store p "store" s1 ;;;
   add_document_store p "other" s2 ;;;
   add_component p "retriever" c1 (Some "store")) empty_world).2.

(** Two stores (1 and 2), two retrievers (1 and 3) and a converter (2), and
    no pipeline yet. *)
Definition no_pipeline_world : World :=
  ((s1 <- alloc_store (memory_store 1) ;;
   s2 <- alloc_store (memory_store 2) ;;
   c1 <- alloc_comp retriever ;;
   c2 <- alloc_comp converter ;;
   alloc_comp retriever) empty_world).2.

(** A new pipeline (1), two stores (1 and 2), two retrievers (1 and 3) and a
    converter (2). *)
Definition new_pipeline_world : World :=
  ((s1 <- alloc_store (memory_store 1) ;;
   s2 <- alloc_store (memory_store 2) ;;
   c1 <- alloc_comp retriever ;;
   c2 <- alloc_comp converter ;;
   c3 <- alloc_comp retriever ;;
   Pipeline_init) empty_world).2.

(** The store ["store"] is registered, a retriever is bound to it, and the
    name is registered again with another instance; the three calls return. *)
Definition overwrite_script : list op :=
  [AddDocumentStore "store" 1%positive;
   AddComponent "retriever" 1%positive (Some "store");
   AddDocumentStore "store" 2%positive].

(** The second [add_component] binds the retriever 3 to ["other"] and then
    fails in the delegated registration, the name being taken. *)
Definition failed_registration_script : list op :=
  [AddDocumentStore "store" 1%positive;
   AddDocumentStore "other" 2%positive;
   AddComponent "retriever" 1%positive (Some "store");
   AddComponent "retriever" 3%positive (Some "other")].

(** Calls that return, calls that raise before any mutation, a store
    registered twice under one name, and the instance under a name that no
    component is connected to replaced by another one. *)
Definition sound_script : list op :=
  [AddDocumentStore "store" 1%positive;
   AddComponent "retriever" 1%positive (Some "store");
   AddDocumentStore "other" 1%positive;
   AddDocumentStore "other" 2%positive;
   AddComponent "converter" 2%positive (Some "store");
   AddComponent "retriever" 3%positive None;
   AddDocumentStore "store" 1%positive;
   AddComponent "reader" 3%positive (Some "other");
   AddComponent "converter" 2%positive None].

(** On the second pipeline of [shared_component_world]: the empty string is
    registered as a store name, and the retriever that the first pipeline
    has bound is added with that name. *)
Definition reuse_script : list op :=
  [AddDocumentStore "" 1%positive;
   AddComponent "retriever" 1%positive (Some "")].

(** A store that is false in a boolean context, as an instance of a class
    with [__len__] that holds no document. *)
Definition empty_store : DocumentStore :=
  {| haystack_document_store := true;
     store_type := "ListDocumentStore";
     store_hash := 0;
     init_parameters := [];
     store_truth := false |}.

(** A store that is false in a boolean context (1), an ordinary store (2),
    a retriever (1) and a new pipeline (1). *)
Definition empty_store_world : World :=
  ((s1 <- alloc_store empty_store ;;
    s2 <- alloc_store (memory_store 2) ;;
    c <- alloc_comp retriever ;;
    Pipeline_init) empty_world).2.

(** The retriever is bound to the store that is false and added as ["x"],
    then added again as ["y"] with another store: both calls return, and the
    second binds the retriever anew. *)
Definition rebinding_script : list op :=
  [AddDocumentStore "a" 1%positive;
   AddDocumentStore "b" 2%positive;
   AddComponent "x" 1%positive (Some "a");
   AddComponent "y" 1%positive (Some "b")].

(** The names the collision loop tries, in order: the local name, then the
    name suffixed with [_0], [_1], ... *)
Definition candidate (store_name : string) (k : nat) : string :=
  match k with
  | O => store_name
  | S n => store_name +:+ "_" +:+ pretty n
  end.

(** Two pipelines (1 and 2) that each register a store of their own as
    ["r"]; the two stores (1 and 2) have the same content hash. The first
    pipeline has a retriever ["A"] bound to ["r"] and a converter ["B"], the
    second a retriever ["C"] bound to ["r"]. *)
Definition equal_hashes_world : World :=
  ((s1 <- alloc_store (memory_store 7) ;;
    s2 <- alloc_store (memory_store 7) ;;
    a <- alloc_comp retriever ;;
    b <- alloc_comp converter ;;
    c <- alloc_comp retriever ;;
    p1 <- Pipeline_init ;;
    p2 <- Pipeline_init ;;
    add_document_store p1 "r" s1 ;;;
    add_document_store p2 "r" s2 ;;;
    add_component p1 "A" a (Some "r") ;;;
    add_component p1 "B" b None ;;;
    add_component p2 "C" c (Some "r")) empty_world).2.

(** Two pipelines (1 and 2) that each register a store as ["store"]; the two
    stores have different content hashes. *)
Definition name_collision_world : World :=
  ((s1 <- alloc_store (memory_store 1) ;;
    s2 <- alloc_store (memory_store 2) ;;
    a <- alloc_comp retriever ;;
    c <- alloc_comp retriever ;;
    p1 <- Pipeline_init ;;
    p2 <- Pipeline_init ;;
    add_document_store p1 "store" s1 ;;;
    add_document_store p2 "store" s2 ;;;
    add_component p1 "A" a (Some "store") ;;;
    add_component p2 "C" c (Some "store")) empty_world).2.

Definition two_pipelines : list (string * loc) :=
  [("p1", 1%positive); ("p2", 2%positive)].

(** One pipeline (1) with one store (1) registered as ["store"] and two
    retrievers ["A"] and ["B"] bound to it. *)
Definition shared_store_world : World :=
  ((s <- alloc_store (memory_store 1) ;;
    a <- alloc_comp retriever ;;
    b <- alloc_comp retriever ;;
    p <- Pipeline_init ;;
    add_document_store p "store" s ;;;
    add_component p "A" a (Some "store") ;;;
    add_component p "B" b (Some "store")) empty_world).2.

Definition one_pipeline : list (string * loc) := [("p", 1%positive)].

(** A registry with one store class; its [from_dict] rebuilds a store from
    the serialized parameters. *)
Definition memory_registry : list (string * (StoreData → result DocumentStore)) :=
  [("MemoryDocumentStore",
    λ d, Ok {| haystack_document_store := true;
               store_type := "MemoryDocumentStore";
               store_hash := 1;
               init_parameters :=
                 match dict_get d "init_parameters" with
                 | Some (VParams ps) => ps
                 | _ => []
                 end;
               store_truth := true |})].

(** A document whose only connection names the store ["missing"], which is
    not in the table of stores; the connections table is the dictionary
    object 1. *)
Definition dangling_world : World :=
  ((alloc_dict [("A", "missing")]) empty_world).2.

Definition dangling_section : PipelineData :=
  {| pd_components := ["A"]; store_connections := Some 1%positive |}.

Definition dangling_document : Document :=
  {| doc_pipelines := [("p", dangling_section)];
     doc_components := [("A", {| cd_store_aware := true |})];
     doc_stores :=
       Some [("store", [("type", VStr "MemoryDocumentStore");
                        ("init_parameters", VParams [])])] |}.

(** The run of [marshal_pipelines] on the pipeline of [shared_store_world],
    and the run of [unmarshal_pipelines] on the document it returns. *)
Definition round_trip_marshalled : result Document * World :=
  Eval vm_compute in marshal_pipelines one_pipeline shared_store_world.

Definition round_trip_document : Document :=
  Eval vm_compute in
    match round_trip_marshalled.1 with
    | Ok data => data
    | Raise _ => {| doc_pipelines := []; doc_components := []; doc_stores := None |}
    end.

Definition round_trip_unmarshalled : result (list (string * loc)) * World :=
  Eval vm_compute in
    unmarshal_pipelines memory_registry round_trip_document round_trip_marshalled.2.

Definition round_trip_pipelines : list (string * loc) :=
  Eval vm_compute in
    match round_trip_unmarshalled.1 with
    | Ok pipelines => pipelines
    | Raise _ => []
    end.

(** *** Further predicates and fixtures *)

(** An object that the [@document_store] decorator has not marked. *)
Definition plain_object : DocumentStore :=
  {| haystack_document_store := false;
     store_type := "dict";
     store_hash := 0;
     init_parameters := [];
     store_truth := true |}.

(** One pipeline (1), a decorated store (1) and an undecorated object (2). *)
Definition plain_object_world : World :=
  ((s <- alloc_store (memory_store 1) ;;
    o <- alloc_store plain_object ;;
    Pipeline_init) empty_world).2.

(** [same_store_tables w w']: from [w] to [w'] no store object has changed,
    the pipelines are the same objects, and each has the store table and the
    connections dictionary object it had. *)
Definition same_store_tables (w w' : World) : Prop :=
  stores w' = stores w ∧
  ∀ l, _document_stores <$> pipes w' !! l = _document_stores <$> pipes w !! l ∧
       _document_stores_connections <$> pipes w' !! l
       = _document_stores_connections <$> pipes w !! l.

(** [same_components w w' self]: from [w] to [w'] no store, no component and
    no dictionary object has changed, the pipelines other than [self] are as
    they were, and [self] has the graph and the connections dictionary object
    it had. *)
Definition same_components (w w' : World) (self : loc) : Prop :=
  stores w' = stores w ∧ comps w' = comps w ∧ dicts w' = dicts w ∧
  (∀ l, l ≠ self → pipes w' !! l = pipes w !! l) ∧
  graph <$> pipes w' !! self = graph <$> pipes w !! self ∧
  _document_stores_connections <$> pipes w' !! self
  = _document_stores_connections <$> pipes w !! self.

(** Every connection that the pipeline [self] records names a store of its
    store table. *)
Definition connections_registered (w : World) (self : loc) : Prop :=
  ∃ p conns,
    pipes w !! self = Some p ∧
    dicts w !! _document_stores_connections p = Some conns ∧
    ∀ name rn, dict_get conns name = Some rn →
      is_Some (dict_get (_document_stores p) rn).

(** A script with calls that return, calls that raise before any mutation, a
    name registered twice and a call that fails in the delegated
    registration. *)
Definition mixed_script : list op :=
  [AddDocumentStore "store" 1%positive;
   AddDocumentStore "other" 2%positive;
   AddComponent "retriever" 1%positive (Some "store");
   AddComponent "retriever" 3%positive (Some "other");
   AddDocumentStore "store" 2%positive;
   AddComponent "converter" 2%positive None;
   AddComponent "converter" 2%positive (Some "missing")].

(** The number of entries of the store tables of the pipelines, counted
    over the items of [pipelines]. *)
Definition store_count (w : World) (pipelines : list (string * loc)) : nat :=
  sum_list_with
    (λ item : string * loc,
       match pipes w !! item.2 with
       | Some p => length (_document_stores p)
       | None => 0%nat
       end) pipelines.

(** The connections table in which every connection to [store_name] names
    [unique_store_name] instead; keys and order are kept. *)
Definition renamed (store_name unique_store_name : string)
    (conns : list (string * string)) : list (string * string) :=
  (λ item : string * string,
     (item.1, if bool_decide (item.2 = store_name) then unique_store_name else item.2))
  <$> conns.

(** A world for the renaming loop: one connections table (1) in which two of
    three components are connected to ["store"]. *)
Definition rename_world : World :=
  ((alloc_dict [("A", "store"); ("B", "other"); ("C", "store")]) empty_world).2.

(** A document whose store has a type tag that no class is registered
    under. *)
Definition unknown_type_document : Document :=
  {| doc_pipelines := [("p", {| pd_components := ["A"]; store_connections := None |})];
     doc_components := [("A", {| cd_store_aware := true |})];
     doc_stores :=
       Some [("store", [("type", VStr "FAISSDocumentStore");
                        ("init_parameters", VParams [])])] |}.

(** A table of two serialized stores of the registered class. *)
Definition two_stores_table : list (string * StoreData) :=
  [("first", [("type", VStr "MemoryDocumentStore");
              ("init_parameters", VParams [("index", "a")])]);
   ("second", [("type", VStr "MemoryDocumentStore");
               ("init_parameters", VParams [("index", "b")])])].

Definition two_stores_rebuilt : result (list (string * loc)) * World :=
  Eval vm_compute in unmarshal_stores memory_registry two_stores_table empty_world.

(** [extends w w']: every object of [w] is in [w'] with the content it had;
    [w'] may have more objects. *)
Definition extends (w w' : World) : Prop :=
  stores w ⊆ stores w' ∧ comps w ⊆ comps w' ∧ dicts w ⊆ dicts w' ∧ pipes w ⊆ pipes w'.

(** *** Documents that unmarshal_pipelines can load *)

(** The class registered under the type tag of a serialized store rebuilds a
    store from it. *)
Definition loadable (registry : list (string * (StoreData → result DocumentStore)))
    (sd : StoreData) : bool :=
  match dict_get sd "type" with
  | Some (VStr t) =>
      match dict_get registry t with
      | Some cls => is_ok (cls sd)
      | None => false
      end
  | _ => false
  end.

(** The connections table of a section, when the section has one. *)
Definition connections_of (w : World) (pd : PipelineData)
  : option (list (string * string)) :=
  match store_connections pd with
  | Some sc => dicts w !! sc
  | None => None
  end.

(** The connections of all the sections of a document, in the order in which
    [unmarshal_pipelines] goes through them. *)
Definition all_connections (w : World) (data : Document) : list (string * string) :=
  flat_map (λ pd, default [] (connections_of w pd)) (dict_values (doc_pipelines data)).

(** A document that can be loaded. The tables are dictionaries (no name
    occurs twice); every store of the table can be rebuilt; every section has
    a connections table and lists components of the components table; every
    connection names a store of the table and a component of the components
    table; and a component is connected to one store name throughout the
    document. *)
Definition well_formed_document
    (registry : list (string * (StoreData → result DocumentStore)))
    (data : Document) (table : list (string * StoreData)) (w : World) : Prop :=
  NoDup (dict_keys table) ∧
  Forall (λ item : string * StoreData, loadable registry item.2 = true) table ∧
  NoDup (dict_keys (doc_pipelines data)) ∧
  Forall (λ pd, is_Some (connections_of w pd) ∧ NoDup (pd_components pd) ∧
                Forall (λ name, dict_in name (doc_components data) = true)
                  (pd_components pd))
    (dict_values (doc_pipelines data)) ∧
  Forall (λ item : string * string,
            dict_in item.2 table = true ∧
            dict_in item.1 (doc_components data) = true ∧
            dict_get (all_connections w data) item.1 = Some item.2)
    (all_connections w data).

(** The heap after the reconnection loop has gone through the connections
    [done], started in [w0]: only the rebuilt components have changed, and
    the component of each connection holds the store of the connection. *)
Definition reconnected_to (stores_ components : list (string * loc)) (w0 : World)
    (done : list (string * string)) (w : World) : Prop :=
  stores w = stores w0 ∧ dicts w = dicts w0 ∧ pipes w = pipes w0 ∧
  (∀ l, (∀ n, dict_get components n ≠ Some l) → comps w !! l = comps w0 !! l) ∧
  (∀ n l, dict_get components n = Some l →
     ∃ c, comps w !! l = Some c ∧ canals_component c = true) ∧
  ∀ item, item ∈ done → bound_to stores_ components w item.

(** The graph that Canals assembles from the names of a section. *)
Definition rebuilt_graph (components : list (string * loc)) (names : list string)
  : list (string * loc) :=
  omap (λ name, (λ l, (name, l)) <$> dict_get components name) names.

(** An instance that inherits from the mixin and is not a Canals component. *)
Definition mixin_only : Component :=
  {| store_aware := true; canals_component := false;
     document_store := None; _document_store_name := None |}.

(** One pipeline (1) with one store (1) registered as ["store"] and a
    retriever ["A"] bound to it; the instance 2 was passed to [add_component]
    as ["X"] with the store name, was bound, and was refused by Canals. *)
Definition stale_connection_world : World :=
  ((s <- alloc_store (memory_store 1) ;;
    a <- alloc_comp retriever ;;
    x <- alloc_comp mixin_only ;;
    p <- Pipeline_init ;;
    add_document_store p "store" s ;;;
    add_component p "A" a (Some "store") ;;;
    λ w, (Ok (), (add_component p "X" x (Some "store") w).2)) empty_world).2.

(** The run of [marshal_pipelines] on that pipeline. *)
Definition stale_marshalled : result Document * World :=
  Eval vm_compute in marshal_pipelines one_pipeline stale_connection_world.

Definition stale_document : Document :=
  Eval vm_compute in
    match stale_marshalled.1 with
    | Ok data => data
    | Raise _ => {| doc_pipelines := []; doc_components := []; doc_stores := None |}
    end.
(** * Properties *)

Local Open Scope nat_scope.

(** ** Dictionaries *)

Section dict_facts.
Context {K V : Type} `{!EqDecision K}.
Implicit Types (d : list (K * V)) (k : K) (v : V).

Lemma dict_get_set_eq d k v : dict_get (dict_set d k v) k = Some v.
Proof.
  induction d as [|[k' v'] d IH]; simpl.
  - by rewrite decide_True.
  - destruct (decide (k = k')) as [->|Hne]; simpl.
    + by rewrite decide_True.
    + by rewrite decide_False.
Qed.

Lemma dict_get_set_ne d k k' v : k ≠ k' → dict_get (dict_set d k v) k' = dict_get d k'.
Proof.
  intros Hne. induction d as [|[k0 v0] d IH]; simpl.
  - by rewrite decide_False.
  - destruct (decide (k = k0)) as [->|Hk]; simpl.
    + by rewrite !decide_False.
    + destruct (decide (k' = k0)); done.
Qed.

Lemma dict_get_set d k k' v :
  dict_get (dict_set d k v) k' = if decide (k = k') then Some v else dict_get d k'.
Proof.
  destruct (decide (k = k')) as [->|Hne].
  - apply dict_get_set_eq.
  - by apply dict_get_set_ne.
Qed.

Lemma dict_in_true k d : dict_in k d = true ↔ is_Some (dict_get d k).
Proof.
  unfold dict_in. destruct (dict_get d k); split; intros H; try done; eauto.
Qed.

Lemma dict_in_false k d : dict_in k d = false ↔ dict_get d k = None.
Proof. unfold dict_in. by destruct (dict_get d k). Qed.

Lemma dict_get_del_eq d k : dict_get (dict_del d k) k = None.
Proof.
  induction d as [|[k' v'] d IH]; simpl; [done|].
  destruct (decide (k = k')); simpl; [done|]. by rewrite decide_False.
Qed.

Lemma dict_get_Some_elem d k v : dict_get d k = Some v → (k, v) ∈ d.
Proof.
  induction d as [|[k' v'] d IH]; simpl; [done|].
  destruct (decide (k = k')) as [->|].
  - intros [= ->]. left.
  - intros. right. auto.
Qed.

Lemma dict_get_None_keys d k : dict_get d k = None ↔ k ∉ dict_keys d.
Proof.
  unfold dict_keys. induction d as [|[k' v'] d IH]; simpl.
  - split; [intros _; apply not_elem_of_nil | done].
  - rewrite not_elem_of_cons. destruct (decide (k = k')) as [->|Hne].
    + split; [done | by intros [? _]].
    + rewrite IH. split; [done | by intros [_ ?]].
Qed.

Lemma dict_get_elem d k v : NoDup (dict_keys d) → (k, v) ∈ d → dict_get d k = Some v.
Proof.
  unfold dict_keys. induction d as [|[k' v'] d IH]; simpl.
  - intros _ H. by apply elem_of_nil in H.
  - intros [Hk Hd]%NoDup_cons [Heq|Hin]%elem_of_cons.
    + injection Heq as -> ->. by rewrite decide_True.
    + rewrite decide_False; [auto|].
      intros ->. apply Hk. apply list_elem_of_fmap. by exists (k', v).
Qed.

Lemma dict_get_keys d k : is_Some (dict_get d k) → k ∈ d.*1.
Proof.
  intros [v Hv]. apply dict_get_Some_elem in Hv.
  apply list_elem_of_fmap. by exists (k, v).
Qed.
End dict_facts.

(** ** add_component *)

Section add_component.
Variables (w : World) (self instance : loc) (name : string).
Variables (p : Pipeline) (c : Component).
Hypothesis Hself : pipes w !! self = Some p.
Hypothesis Hinstance : comps w !! instance = Some c.

Lemma canals_add_component_run w0 c0 :
  pipes w0 !! self = Some p →
  comps w0 !! instance = Some c0 →
  canals_add_component self name instance w0
  = if dict_in name (graph p) then
      (Raise (ValueError ("A component named '" +:+ name
                          +:+ "' already exists in this pipeline: choose another name.")),
       w0)
    else if canals_component c0 then (Ok (), registered_world w0 self p name instance)
    else (Raise (PipelineValidationError
                   ("'" +:+ name +:+ "' doesn't seem to be a component.")), w0).
Proof.
  intros Hp Hc. unfold canals_add_component, bind, read_pipe, read_comp, raise_if.
  rewrite Hp. destruct (dict_in name (graph p)); simpl; [done|].
  rewrite Hc. by destruct (canals_component c0).
Qed.

Lemma truth_of_store_None w0 : truth_of_store None w0 = (Ok false, w0).
Proof. done. Qed.

Lemma truth_of_store_holds w0 c0 :
  holds_store w0 c0 → truth_of_store (document_store c0) w0 = (Ok true, w0).
Proof.
  intros (l & s & -> & Hs & Htrue). unfold truth_of_store, bind, read_store.
  by rewrite Hs, <- Htrue.
Qed.

Lemma truth_of_store_run o w0 :
  (∃ held, truth_of_store o w0 = (Ok held, w0)) ∨
  (∃ e, truth_of_store o w0 = (Raise e, w0)).
Proof.
  destruct o as [l|]; [|by left; eexists]. unfold truth_of_store, bind, read_store.
  destruct (stores w0 !! l); [left|right]; by eexists.
Qed.

Lemma bind_document_store_run doc_store conns held :
  dicts w !! _document_stores_connections p = Some conns →
  truth_of_store (document_store c) w = (Ok held, w) →
  bind_document_store self name instance doc_store w
  = if truthy doc_store && held then
      (match dict_get conns name with
       | Some conn => Raise (ValueError (already_connected_msg name conn))
       | None => Raise (KeyError name)
       end, w)
    else if negb (truthy doc_store) && negb held then
      (Raise (ValueError (needs_store_msg name)), w)
    else
      match doc_store with
      | None => (Raise (NoSuchDocumentStoreError (not_found_msg "None")), w)
      | Some ds =>
          match dict_get (_document_stores p) ds with
          | None => (Raise (NoSuchDocumentStoreError (not_found_msg ds)), w)
          | Some store =>
              if held then (Ok (), w)
              else (Ok (), bound_world w p name instance c ds store conns)
          end
      end.
Proof using Hself Hinstance.
  intros Hconns Hheld.
  unfold bind_document_store, bind at 1, read_comp. rewrite Hinstance.
  unfold bind at 1.
  destruct (truthy doc_store) eqn:E1; simpl.
  - unfold bind at 1. rewrite Hheld. destruct held; simpl.
    { unfold bind, read_pipe, read_dict, getitem. rewrite Hself, Hconns.
      by destruct (dict_get conns name). }
    unfold ret at 1. unfold bind at 1. unfold ret at 1.
    unfold bind at 1, read_pipe. rewrite Hself.
    destruct doc_store as [ds|]; [|done]. simpl.
    destruct (dict_get (_document_stores p) ds) as [store|]; [|done].
    unfold bind at 1. rewrite Hheld. simpl.
    unfold bind, read_dict, write_dict, read_comp, write_comp. rewrite Hconns. simpl.
    rewrite Hinstance. simpl. rewrite lookup_insert_eq. simpl.
    unfold bound_world. by rewrite insert_insert_eq.
  - unfold ret at 1. unfold bind at 1, bind at 1. rewrite Hheld.
    destruct held; simpl; [|done].
    unfold bind at 1, read_pipe. rewrite Hself.
    destruct doc_store as [ds|]; [|done]. simpl.
    destruct (dict_get (_document_stores p) ds) as [store|]; [|done].
    unfold bind at 1. by rewrite Hheld.
Qed.

Lemma bind_document_store_dangling doc_store e :
  truth_of_store (document_store c) w = (Raise e, w) →
  bind_document_store self name instance doc_store w = (Raise e, w).
Proof using Hinstance.
  intros Hheld.
  unfold bind_document_store, bind at 1, read_comp. rewrite Hinstance.
  unfold bind at 1.
  destruct (truthy doc_store); simpl.
  - unfold bind at 1. by rewrite Hheld.
  - unfold ret at 1. unfold bind at 1, bind at 1. by rewrite Hheld.
Qed.

Lemma add_component_unfold doc_store :
  add_component self name instance doc_store w
  = if store_aware c then
      match bind_document_store self name instance doc_store w with
      | (Ok _, w') => canals_add_component self name instance w'
      | (Raise e, w') => (Raise e, w')
      end
    else if truthy doc_store then (Raise (ValueError (unsupported_msg name)), w)
    else canals_add_component self name instance w.
Proof using Hinstance.
  unfold add_component, bind at 1, read_comp. rewrite Hinstance.
  destruct (store_aware c); [done|].
  unfold bind, raise_if. by destruct (truthy doc_store).
Qed.

(** C4. A store-aware component that already holds a document store (a
    store that is true in a boolean context, as every ordinary store is),
    added with no [document_store] name, is not registered: the membership
    test [document_store not in self._document_stores] is run with [None],
    which is not a key, and the call raises [NoSuchDocumentStoreError]; no
    object is changed. *)
Theorem add_component_reuse_raises :
  store_aware c = true →
  holds_store w c →
  add_component self name instance None w
  = (Raise (NoSuchDocumentStoreError (not_found_msg "None")), w).
Proof using Hself Hinstance.
  intros Haware Hheld%truth_of_store_holds. rewrite add_component_unfold, Haware.
  unfold bind_document_store, bind, read_comp, read_pipe.
  rewrite Hinstance. simpl. rewrite Hheld. simpl. by rewrite Hself.
Qed.

(** C6. A store-aware component that already holds a document store (a
    store that is true in a boolean context, as every ordinary store is),
    added with a non-empty [document_store] name: the [ValueError] is raised only
    when the connections table of this pipeline has an entry for the
    component name. When the binding was recorded through another pipeline
    the table has no such entry, and building the message raises [KeyError]
    instead. No object is changed in either case. *)
Theorem add_component_double_binding (ds : string) (conns : list (string * string)) :
  store_aware c = true →
  holds_store w c →
  ds ≠ "" →
  dicts w !! _document_stores_connections p = Some conns →
  add_component self name instance (Some ds) w
  = (match dict_get conns name with
     | Some conn => Raise (ValueError (already_connected_msg name conn))
     | None => Raise (KeyError name)
     end, w).
Proof using Hself Hinstance.
  intros Haware Hheld%truth_of_store_holds Hds Hconns.
  rewrite add_component_unfold, Haware, (bind_document_store_run _ conns true) by done.
  simpl. rewrite (bool_decide_false (ds = "")) by done. simpl.
  by destruct (dict_get conns name).
Qed.

(** X19. A component that is not store-aware, added with a non-empty
    [document_store] name: the call raises the [ValueError] "doesn't support
    DocumentStores" and changes no object, so the store table and the
    connections table of the pipeline are as before. *)
Theorem add_component_unsupported (ds : string) :
  store_aware c = false →
  ds ≠ "" →
  add_component self name instance (Some ds) w
  = (Raise (ValueError (unsupported_msg name)), w).
Proof using Hinstance.
  intros Haware Hds. rewrite add_component_unfold, Haware. simpl.
  by rewrite (bool_decide_false (ds = "")) by done.
Qed.

(** C10. When the delegated registration fails after the store has been
    bound (the name is already a node of the graph, or the instance is not
    a component), the call raises and the binding stays: the connections
    table maps the component name to the store name, and the component
    holds the store and remembers its name. *)
Theorem add_component_no_rollback (ds : string) (store : loc)
    (conns : list (string * string)) :
  store_aware c = true →
  document_store c = None →
  ds ≠ "" →
  dict_get (_document_stores p) ds = Some store →
  dicts w !! _document_stores_connections p = Some conns →
  dict_in name (graph p) = true ∨ canals_component c = false →
  ∃ e w',
    add_component self name instance (Some ds) w = (Raise e, w') ∧
    dicts w' !! _document_stores_connections p = Some (dict_set conns name ds) ∧
    dict_get (dict_set conns name ds) name = Some ds ∧
    comps w' !! instance
    = Some {| store_aware := true;
              canals_component := canals_component c;
              document_store := Some store;
              _document_store_name := Some ds |}.
Proof using Hself Hinstance.
  intros Haware Hnone Hds Hstore Hconns Hfail.
  rewrite add_component_unfold, Haware, (bind_document_store_run _ conns false)
    by (by rewrite ?Hnone).
  simpl. rewrite (bool_decide_false (ds = "")) by done.
  rewrite Hstore. simpl.
  erewrite canals_add_component_run;
    [|exact Hself|unfold bound_world; simpl; apply lookup_insert_eq].
  assert (∀ e, ∃ e' w',
    (Raise e : result unit, bound_world w p name instance c ds store conns) = (Raise e', w') ∧
    dicts w' !! _document_stores_connections p = Some (dict_set conns name ds) ∧
    dict_get (dict_set conns name ds) name = Some ds ∧
    comps w' !! instance
    = Some {| store_aware := true; canals_component := canals_component c;
              document_store := Some store; _document_store_name := Some ds |})
    as Hdone.
  { intros e. eexists _, _. split; [done|]. unfold bound_world. simpl.
    rewrite !lookup_insert_eq, dict_get_set_eq, Haware. done. }
  destruct (dict_in name (graph p)); [apply Hdone|].
  destruct Hfail as [|Hcomp]; [done|]. simpl.
  rewrite Hcomp in Hdone |- *. apply Hdone.
Qed.
End add_component.

Lemma add_component_reuse_raises_witness :
  pipes shared_component_world !! 2%positive
  = Some {| _document_stores_connections := 2%positive;
            _document_stores := [("store", 1%positive)];
            graph := [] |} ∧
  comps shared_component_world !! 1%positive
  = Some {| store_aware := true; canals_component := true;
            document_store := Some 1%positive;
            _document_store_name := Some "store" |} ∧
  add_component 2%positive "retriever" 1%positive None shared_component_world
  = (Raise (NoSuchDocumentStoreError (not_found_msg "None")), shared_component_world).
Proof.
  split; [vm_compute; reflexivity|]. split; [vm_compute; reflexivity|].
  refine (add_component_reuse_raises shared_component_world 2%positive 1%positive "retriever"
            {| _document_stores_connections := 2%positive;
               _document_stores := [("store", 1%positive)];
               graph := [] |}
            {| store_aware := true; canals_component := true;
               document_store := Some 1%positive;
               _document_store_name := Some "store" |} _ _ _ _).
  - vm_compute; reflexivity.
  - vm_compute; reflexivity.
  - reflexivity.
  - exists 1%positive, (memory_store 1). split; [reflexivity|].
    split; [vm_compute; reflexivity|reflexivity].
Defined.

Lemma add_component_double_binding_witness :
  dicts shared_component_world !! 2%positive = Some [] ∧
  add_component 2%positive "retriever" 1%positive (Some "store") shared_component_world
  = (Raise (KeyError "retriever"), shared_component_world).
Proof.
  split; [vm_compute; reflexivity|].
  refine (add_component_double_binding shared_component_world 2%positive 1%positive "retriever"
            {| _document_stores_connections := 2%positive;
               _document_stores := [("store", 1%positive)];
               graph := [] |}
            {| store_aware := true; canals_component := true;
               document_store := Some 1%positive;
               _document_store_name := Some "store" |} _ _
            "store" [] _ _ _ _).
  - vm_compute; reflexivity.
  - vm_compute; reflexivity.
  - reflexivity.
  - exists 1%positive, (memory_store 1). split; [reflexivity|].
    split; [vm_compute; reflexivity|reflexivity].
  - discriminate.
  - vm_compute; reflexivity.
Defined.

(** C7. A component that is not store-aware, added with the store name
    [""]: the guard [elif document_store:] of line 110 takes the name for
    absent, the call returns, and the component is registered in the graph.
    The docstring promises a [ValueError] for a component that did not
    expect a store and received one, and the store-aware branch (line 99)
    and [add_document_store] take [""] for a name like any other. *)
Lemma add_component_empty_name_accepted :
  comps converter_world !! 1%positive = Some converter ∧
  store_aware converter = false ∧
  (add_component 1%positive "converter" 1%positive (Some "") converter_world).1 = Ok () ∧
  (graph <$> pipes (add_component 1%positive "converter" 1%positive (Some "") converter_world).2
               !! 1%positive)
  = Some [("converter", 1%positive)].
Proof. vm_compute. done. Qed.

Lemma add_component_unsupported_witness :
  add_component 1%positive "converter" 1%positive (Some "store") converter_world
  = (Raise (ValueError (unsupported_msg "converter")), converter_world).
Proof.
  refine (add_component_unsupported converter_world 1%positive 1%positive "converter" converter
            _ "store" _ _).
  - vm_compute; reflexivity.
  - reflexivity.
  - discriminate.
Defined.

Lemma add_component_no_rollback_witness :
  dict_in "retriever"
    (graph {| _document_stores_connections := 1%positive;
              _document_stores := [("store", 1%positive); ("other", 2%positive)];
              graph := [("retriever", 1%positive)] |}) = true ∧
  ∃ e w',
    add_component 1%positive "retriever" 2%positive (Some "other") two_retrievers_world
    = (Raise e, w') ∧
    dicts w' !! 1%positive = Some (dict_set [("retriever", "store")] "retriever" "other") ∧
    dict_get (dict_set [("retriever", "store")] "retriever" "other") "retriever" = Some "other" ∧
    comps w' !! 2%positive
    = Some {| store_aware := true; canals_component := true;
              document_store := Some 2%positive;
              _document_store_name := Some "other" |}.
Proof.
  split; [reflexivity|].
  refine (add_component_no_rollback two_retrievers_world 1%positive 2%positive "retriever"
            {| _document_stores_connections := 1%positive;
               _document_stores := [("store", 1%positive); ("other", 2%positive)];
               graph := [("retriever", 1%positive)] |}
            retriever _ _ "other" 2%positive [("retriever", "store")] _ _ _ _ _ _).
  - vm_compute; reflexivity.
  - vm_compute; reflexivity.
  - reflexivity.
  - reflexivity.
  - discriminate.
  - reflexivity.
  - vm_compute; reflexivity.
  - left. reflexivity.
Defined.
(** ** The symmetric binding of a pipeline *)

Lemma dict_set_same {V} (d : list (string * V)) k v :
  dict_get d k = Some v → dict_set d k v = d.
Proof.
  induction d as [|[k0 v0] d IH]; simpl; [done|].
  destruct (decide (k = k0)) as [->|]; [by intros [= ->]|].
  intros Hk. by rewrite IH.
Qed.

Lemma add_document_store_raises w self name store :
  is_ok (add_document_store self name store w).1 = false →
  (add_document_store self name store w).2 = w.
Proof.
  unfold add_document_store, bind, read_store, raise_if, read_pipe.
  destruct (stores w !! store) as [s|]; [|done].
  destruct (haystack_document_store s); simpl; [|done].
  by destruct (pipes w !! self).
Qed.

Lemma connected_to_true w p conns rn name instance c :
  dict_get (graph p) name = Some instance →
  comps w !! instance = Some c →
  store_aware c = true →
  is_Some (document_store c) →
  dict_get conns name = Some rn →
  connected_to w p conns rn = true.
Proof.
  intros Hnode Hc Haware Hheld Hconn. unfold connected_to.
  apply existsb_exists. exists (name, instance). split.
  - apply list_elem_of_In. by apply dict_get_Some_elem.
  - simpl. rewrite Hc, Haware. simpl.
    by rewrite !bool_decide_true.
Qed.

Section symmetric_binding.
Variable self : loc.

Lemma Pipeline_init_binding w0 w :
  Pipeline_init w0 = (Ok self, w) → symmetric_binding w self ∧ graph_bound w self.
Proof.
  unfold Pipeline_init, bind, alloc_dict, alloc_pipe. simpl. intros [= <- <-]. split.
  - eexists _, []. simpl. rewrite !lookup_insert_eq.
    split; [done|]. simpl. rewrite lookup_insert_eq. split; [done|].
    by intros ???? [=].
  - intros p name instance c. simpl. rewrite lookup_insert_eq. by intros [= <-] [=].
Qed.

Lemma add_document_store_keeps w name store :
  symmetric_binding w self ∧ graph_bound w self →
  keeps_binding self (AddDocumentStore name store) w = true →
  symmetric_binding (add_document_store self name store w).2 self ∧
  graph_bound (add_document_store self name store w).2 self.
Proof.
  intros [(p & conns & Hp & Hconns & Hbound) Hfull] Hkeep. simpl in Hkeep.
  destruct (is_ok (add_document_store self name store w).1) eqn:Hok; cycle 1.
  { rewrite add_document_store_raises by done. split; [by exists p, conns|done]. }
  simpl in Hkeep. apply negb_true_iff in Hkeep.
  unfold replaces_bound_store in Hkeep. rewrite Hp, Hconns in Hkeep.
  revert Hok. unfold add_document_store, bind, read_store, raise_if, read_pipe, write_pipe.
  destruct (stores w !! store) as [s|]; simpl; [|done].
  destruct (haystack_document_store s); simpl; [|done].
  rewrite Hp. simpl. intros _. split.
  - eexists _, conns. simpl. rewrite lookup_insert_eq. split_and!; [done..|].
    simpl. intros cname instance c held Hnode Hc Haware Hheld.
    destruct (Hbound cname instance c held Hnode Hc Haware Hheld)
      as (rn & Hconn & Hstore & Hname).
    exists rn. split_and!; [done| |done].
    rewrite dict_get_set. destruct (decide (name = rn)) as [->|]; [|done].
    rewrite Hstore in Hkeep.
    rewrite (connected_to_true w p conns rn cname instance c) in Hkeep by eauto.
    rewrite andb_true_r in Hkeep. apply negb_false_iff, bool_decide_eq_true in Hkeep.
    by rewrite Hkeep.
  - intros p' cname instance c. simpl. rewrite lookup_insert_eq. intros [= <-]. simpl.
    by apply Hfull.
Qed.

Lemma registered_keeps w p conns name instance :
  pipes w !! self = Some p →
  dicts w !! _document_stores_connections p = Some conns →
  dict_in name (graph p) = false →
  (∀ c store,
     comps w !! instance = Some c → store_aware c = true →
     (document_store c = Some store →
      ∃ rn, dict_get conns name = Some rn ∧
            dict_get (_document_stores p) rn = Some store ∧
            _document_store_name c = Some rn) ∧
     is_Some (document_store c)) →
  (∀ cname instance0 c store,
     dict_get (graph p) cname = Some instance0 →
     comps w !! instance0 = Some c → store_aware c = true →
     (document_store c = Some store →
      ∃ rn, dict_get conns cname = Some rn ∧
            dict_get (_document_stores p) rn = Some store ∧
            _document_store_name c = Some rn) ∧
     is_Some (document_store c)) →
  symmetric_binding (registered_world w self p name instance) self ∧
  graph_bound (registered_world w self p name instance) self.
Proof.
  intros Hp Hconns Hnew Hinstance Hnodes.
  assert (∀ cname instance0 c store,
    dict_get (dict_set (graph p) name instance) cname = Some instance0 →
    comps w !! instance0 = Some c → store_aware c = true →
    (document_store c = Some store →
     ∃ rn, dict_get conns cname = Some rn ∧
           dict_get (_document_stores p) rn = Some store ∧
           _document_store_name c = Some rn) ∧
    is_Some (document_store c)) as Hall.
  { intros cname instance0 c store. rewrite dict_get_set.
    destruct (decide (name = cname)) as [<-|Hne]; [|by apply Hnodes].
    intros [= <-]. apply Hinstance. }
  split.
  - eexists _, conns. unfold registered_world. simpl.
    rewrite lookup_insert_eq. split_and!; [done..|]. simpl.
    intros cname instance0 c store Hnode Hc Haware Hheld.
    by apply (Hall cname instance0 c store).
  - intros p' cname instance0 c. unfold registered_world. simpl.
    rewrite lookup_insert_eq. intros [= <-]. simpl. intros Hnode Hc Haware.
    by apply (Hall cname instance0 c 1%positive).
Qed.

Lemma add_component_keeps w name instance doc_store :
  symmetric_binding w self ∧ graph_bound w self →
  keeps_binding self (AddComponent name instance doc_store) w = true →
  symmetric_binding (add_component self name instance doc_store w).2 self ∧
  graph_bound (add_component self name instance doc_store w).2 self.
Proof.
  intros Hinv Hkeep. simpl in Hkeep.
  destruct (decide ((add_component self name instance doc_store w).2 = w)) as [->|Hmut];
    [done|].
  rewrite (bool_decide_false _ Hmut) in Hkeep. simpl in Hkeep.
  apply andb_true_iff in Hkeep as [Hok Hfresh].
  destruct Hinv as [(p & conns & Hp & Hconns & Hbound) Hfull].
  destruct (comps w !! instance) as [c|] eqn:Hc; cycle 1.
  { exfalso. apply Hmut. unfold add_component, bind, read_comp. by rewrite Hc. }
  unfold holds_no_store in Hfresh. rewrite Hc in Hfresh.
  assert (∀ cname instance0 c0 store,
    dict_get (graph p) cname = Some instance0 →
    comps w !! instance0 = Some c0 → store_aware c0 = true →
    (document_store c0 = Some store →
     ∃ rn, dict_get conns cname = Some rn ∧
           dict_get (_document_stores p) rn = Some store ∧
           _document_store_name c0 = Some rn) ∧
    is_Some (document_store c0)) as Hnodes.
  { intros cname instance0 c0 store Hnode Hc0 Haware. split; [|by eapply Hfull].
    intros Hheld. by eapply Hbound. }
  assert (∀ w0 c0,
    pipes w0 !! self = Some p → comps w0 !! instance = Some c0 →
    is_ok (canals_add_component self name instance w0).1 = true →
    dict_in name (graph p) = false ∧
    canals_add_component self name instance w0
    = (Ok (), registered_world w0 self p name instance)) as Hcanals.
  { intros w0 c0 Hp0 Hc0. rewrite (canals_add_component_run self instance name p w0 c0) by done.
    destruct (dict_in name (graph p)); [done|].
    by destruct (canals_component c0). }
  revert Hok Hmut. rewrite (add_component_unfold w self instance name c Hc).
  destruct (store_aware c) eqn:Haware; cycle 1.
  { destruct (truthy doc_store); [done|]. intros Hok _.
    destruct (Hcanals w c Hp Hc Hok) as [Hnew ->]. simpl.
    apply (registered_keeps w p conns); try done.
    intros c0 store Hc0 Haware0. congruence. }
  simpl in Hfresh. apply bool_decide_eq_true in Hfresh.
  rewrite (bind_document_store_run w self instance name p c Hp Hc doc_store conns false)
    by (by rewrite ?Hfresh).
  rewrite andb_false_r, andb_true_r.
  destruct (truthy doc_store); [|done]. simpl.
  destruct doc_store as [ds|]; [|done].
  destruct (dict_get (_document_stores p) ds) as [store|] eqn:Hstore; [|done].
  intros Hok _.
  set (c' := {| store_aware := store_aware c; canals_component := canals_component c;
                document_store := Some store; _document_store_name := Some ds |}).
  assert (comps (bound_world w p name instance c ds store conns) !! instance = Some c')
    as Hc' by apply lookup_insert_eq.
  destruct (Hcanals (bound_world w p name instance c ds store conns) c' Hp Hc' Hok)
    as [Hnew ->]. simpl.
  apply (registered_keeps _ p (dict_set conns name ds)); try done.
  { apply lookup_insert_eq. }
  - intros c0 store0. rewrite Hc'. intros [= <-] _. simpl. split; [|done].
    intros [= <-]. exists ds. by rewrite dict_get_set_eq.
  - intros cname instance0 c0 store0 Hnode. unfold bound_world. simpl.
    destruct (decide (instance0 = instance)) as [->|Hother].
    { exfalso. destruct (Hfull p cname instance c Hp Hnode Hc Haware) as [? Hheld].
      congruence. }
    rewrite lookup_insert_ne by done. intros Hc0 Haware0.
    destruct (Hnodes cname instance0 c0 store0 Hnode Hc0 Haware0) as [Hsym Hheld].
    split; [|done]. intros (rn & Hconn & Hrest)%Hsym. exists rn. split; [|done].
    rewrite dict_get_set_ne; [done|].
    intros <-. apply dict_in_false in Hnew. congruence.
Qed.

Lemma run_op_keeps w o :
  symmetric_binding w self ∧ graph_bound w self →
  keeps_binding self o w = true →
  symmetric_binding (run_op self o w).2 self ∧ graph_bound (run_op self o w).2 self.
Proof.
  destruct o; [apply add_document_store_keeps | apply add_component_keeps].
Qed.

Lemma run_ops_keeps os w :
  symmetric_binding w self ∧ graph_bound w self →
  admissible self os w = true →
  symmetric_binding (run_ops self os w) self ∧ graph_bound (run_ops self os w) self.
Proof.
  revert w. induction os as [|o os IH]; intros w Hinv Hadm; simpl in *; [done|].
  apply andb_true_iff in Hadm as [Hkeep Hadm].
  apply IH; [|done]. by apply run_op_keeps.
Qed.

(** C8 (amended). On a new pipeline, a script of [add_document_store] and
    [add_component] calls leaves the symmetric binding in place when no
    [add_document_store] call that returns replaces, by another instance, the
    instance registered under a name that a bound component is connected to,
    and every [add_component] call leaves the heap as it found it, or returns
    and was given an instance that held no store. *)
Theorem symmetric_binding_preserved (w0 w : World) (os : list op) :
  Pipeline_init w0 = (Ok self, w) →
  admissible self os w = true →
  symmetric_binding (run_ops self os w) self.
Proof.
  intros Hinit Hadm.
  by apply run_ops_keeps; [eapply Pipeline_init_binding|].
Qed.
End symmetric_binding.

(** C8, as stated, fails: [add_document_store] overwrites the entry of a name
    a component is bound to, after which the component holds the old instance
    and the store table has the new one. *)
Lemma add_document_store_overwrite_breaks_binding :
  Pipeline_init no_pipeline_world = (Ok 1%positive, new_pipeline_world) ∧
  symmetric_binding new_pipeline_world 1%positive ∧
  ¬ symmetric_binding (run_ops 1%positive overwrite_script new_pipeline_world) 1%positive.
Proof.
  split; [vm_compute; reflexivity|]. split.
  - eexists _, []. split; [vm_compute; reflexivity|]. split; [vm_compute; reflexivity|].
    intros ???? Hnode. vm_compute in Hnode. discriminate Hnode.
  - intros (p & conns & Hp & Hconns & Hbound).
    vm_compute in Hp. injection Hp as <-.
    vm_compute in Hconns. injection Hconns as <-.
    destruct (Hbound "retriever" 1%positive
                {| store_aware := true; canals_component := true;
                   document_store := Some 1%positive;
                   _document_store_name := Some "store" |} 1%positive)
      as (rn & Hrn & Hstore & _); [vm_compute; reflexivity..|].
    vm_compute in Hrn. injection Hrn as <-.
    vm_compute in Hstore. discriminate Hstore.
Qed.

(** The binding is also broken by an [add_component] call that binds a store
    and then fails in the delegated registration. *)
Lemma failed_registration_breaks_binding :
  ¬ symmetric_binding (run_ops 1%positive failed_registration_script new_pipeline_world)
      1%positive.
Proof.
  intros (p & conns & Hp & Hconns & Hbound).
  vm_compute in Hp. injection Hp as <-.
  vm_compute in Hconns. injection Hconns as <-.
  destruct (Hbound "retriever" 1%positive
              {| store_aware := true; canals_component := true;
                 document_store := Some 1%positive;
                 _document_store_name := Some "store" |} 1%positive)
    as (rn & Hrn & Hstore & _); [vm_compute; reflexivity..|].
  vm_compute in Hrn. injection Hrn as <-.
  vm_compute in Hstore. discriminate Hstore.
Qed.

(** It is broken when a component that already holds a store is registered:
    with the empty string registered as a store name, [add_component] with
    that name passes every test and registers the component, which has no
    entry in the connections table of the pipeline. Both calls return. *)
Lemma reused_instance_breaks_binding :
  symmetric_binding shared_component_world 2%positive ∧
  ¬ symmetric_binding (run_ops 2%positive reuse_script shared_component_world) 2%positive.
Proof.
  split.
  - eexists _, []. split; [vm_compute; reflexivity|]. split; [vm_compute; reflexivity|].
    intros ???? Hnode. vm_compute in Hnode. discriminate Hnode.
  - intros (p & conns & Hp & Hconns & Hbound).
    vm_compute in Hp. injection Hp as <-.
    vm_compute in Hconns. injection Hconns as <-.
    destruct (Hbound "retriever" 1%positive
                {| store_aware := true; canals_component := true;
                   document_store := Some 1%positive;
                   _document_store_name := Some "store" |} 1%positive)
      as (rn & Hrn & _); [vm_compute; reflexivity..|].
    vm_compute in Hrn. discriminate Hrn.
Qed.

(** It is broken by a store that is false in a boolean context: a component
    that holds such a store passes for unbound and is bound anew, and the
    node it was registered under first keeps the connection to the first
    store. Every call returns. *)
Lemma false_store_breaks_binding :
  ¬ symmetric_binding (run_ops 1%positive rebinding_script empty_store_world) 1%positive.
Proof.
  intros (p & conns & Hp & Hconns & Hbound).
  vm_compute in Hp. injection Hp as <-.
  vm_compute in Hconns. injection Hconns as <-.
  destruct (Hbound "x" 1%positive
              {| store_aware := true; canals_component := true;
                 document_store := Some 2%positive;
                 _document_store_name := Some "b" |} 2%positive)
    as (rn & Hrn & Hstore & _); [vm_compute; reflexivity..|].
  vm_compute in Hrn. injection Hrn as <-.
  vm_compute in Hstore. discriminate Hstore.
Qed.

Lemma symmetric_binding_preserved_witness :
  Pipeline_init no_pipeline_world = (Ok 1%positive, new_pipeline_world) ∧
  admissible 1%positive sound_script new_pipeline_world = true ∧
  symmetric_binding (run_ops 1%positive sound_script new_pipeline_world) 1%positive.
Proof.
  assert (Pipeline_init no_pipeline_world = (Ok 1%positive, new_pipeline_world)) as Hinit
    by (vm_compute; reflexivity).
  assert (admissible 1%positive sound_script new_pipeline_world = true) as Hadm
    by (vm_compute; reflexivity).
  split; [exact Hinit|]. split; [exact Hadm|].
  exact (symmetric_binding_preserved 1%positive no_pipeline_world new_pipeline_world
           sound_script Hinit Hadm).
Defined.

(** ** The collision loop of marshal_pipelines *)

Lemma string_app_neutral (s t : string) : s = s +:+ t → t = "".
Proof.
  induction s as [|a s IH]; simpl.
  - done.
  - intros [= H]. auto.
Qed.

Lemma candidate_inj store_name : Inj (=) (=) (candidate store_name).
Proof.
  intros [|a] [|b]; simpl; intros H.
  - done.
  - by apply string_app_neutral in H.
  - symmetry in H. by apply string_app_neutral in H.
  - apply (inj (String.app store_name)), (inj (String.app "_")) in H.
    by apply (inj pretty) in H as ->.
Qed.

Lemma candidates_bound {V} store_name (ms : list (string * V)) k :
  (∀ j, j < k → dict_in (candidate store_name j) ms = true) → k ≤ length ms.
Proof.
  intros Hk.
  assert (candidate store_name <$> seq 0 k ⊆+ ms.*1) as Hsub.
  { apply NoDup_submseteq.
    - apply NoDup_fmap_2; [apply candidate_inj|apply NoDup_seq].
    - intros x (j & -> & Hj)%list_elem_of_fmap. apply elem_of_seq in Hj.
      apply dict_get_keys, dict_in_true, Hk. lia. }
  apply submseteq_length in Hsub. by rewrite !length_fmap, length_seq in Hsub.
Qed.

Lemma unique_name_loop_returns fuel store_name k ms w :
  (∀ j, j < k → dict_in (candidate store_name j) ms = true) →
  length ms ≤ fuel + k →
  ∃ n, unique_name_loop fuel store_name (candidate store_name k) k ms w
       = (Ok (candidate store_name n), w) ∧
       dict_in (candidate store_name n) ms = false ∧
       ∀ j, j < n → dict_in (candidate store_name j) ms = true.
Proof.
  revert k. induction fuel as [|fuel IH]; intros k Hk Hfuel.
  - simpl. destruct (dict_in (candidate store_name k) ms) eqn:Hin.
    + assert (S k ≤ length ms); [|lia].
      apply (candidates_bound store_name). intros j Hj.
      destruct (decide (j = k)) as [->|]; [done|]. apply Hk. lia.
    + by exists k.
  - simpl. destruct (dict_in (candidate store_name k) ms) eqn:Hin.
    + apply (IH (S k)); [|lia]. intros j Hj.
      destruct (decide (j = k)) as [->|]; [done|]. apply Hk. lia.
    + by exists k.
Qed.

(** The loop always returns: the name it returns is not a key of
    [marshalled_stores], and it is the local name or the local name suffixed
    with [_n] for the least [n] that gives an unused name. *)
Lemma unique_name_returns store_name ms w :
  ∃ n, unique_name store_name ms w = (Ok (candidate store_name n), w) ∧
       dict_in (candidate store_name n) ms = false ∧
       ∀ j, j < n → dict_in (candidate store_name j) ms = true.
Proof.
  apply (unique_name_loop_returns (length ms) store_name 0); [|lia].
  intros j Hj. lia.
Qed.

(** ** Reasoning about computations *)

Section wp.
Context {A B : Type}.
Implicit Types (Q : A → World → Prop) (R : exn → World → Prop).

Lemma wp_bind (m : M A) (k : A → M B) (Q : B → World → Prop) R w :
  wp m (λ a w', wp (k a) Q R w') R w → wp (bind m k) Q R w.
Proof. unfold wp, bind. by destruct (m w) as [[a|e] w']. Qed.

Lemma wp_ret (a : A) Q R w : Q a w → wp (ret a) Q R w.
Proof. done. Qed.

Lemma wp_raise e Q R w : R e w → wp (raise e) Q R w.
Proof. done. Qed.

Lemma wp_mono (m : M A) Q Q' R R' w :
  wp m Q R w → (∀ a w', Q a w' → Q' a w') → (∀ e w', R e w' → R' e w') →
  wp m Q' R' w.
Proof. unfold wp. destruct (m w) as [[a|e] w']; auto. Qed.

Lemma wp_reads (m : M A) Q R w :
  reads m → (∀ a, Q a w) → (∀ e, R e w) → wp m Q R w.
Proof.
  intros Hm HQ HR. unfold wp. specialize (Hm w).
  destruct (m w) as [[a|e] w']; simpl in Hm; subst; auto.
Qed.

Lemma wp_run (m : M A) Q R w r w' :
  wp m Q R w → m w = (r, w') →
  match r with Ok a => Q a w' | Raise e => R e w' end.
Proof. unfold wp. intros H Hrun. by rewrite Hrun in H. Qed.

Lemma reads_ret (a : A) : reads (ret a).
Proof. done. Qed.

Lemma reads_raise e : reads (raise e : M A).
Proof. done. Qed.

Lemma reads_bind (m : M A) (k : A → M B) :
  reads m → (∀ a, reads (k a)) → reads (bind m k).
Proof.
  intros Hm Hk w. unfold bind. specialize (Hm w).
  destruct (m w) as [[a|e] w']; simpl in *; subst; [apply Hk|done].
Qed.

Lemma reads_lift (r : result A) : reads (lift r).
Proof. done. Qed.
End wp.

Lemma reads_getitem {V} (d : list (string * V)) k : reads (getitem d k).
Proof. intros w. unfold getitem. by destruct (dict_get d k). Qed.

Lemma reads_raise_if c e : reads (raise_if c e).
Proof. intros w. by destruct c. Qed.

Lemma reads_read_store l : reads (read_store l).
Proof. intros w. unfold read_store. by destruct (stores w !! l). Qed.

Lemma reads_read_comp l : reads (read_comp l).
Proof. intros w. unfold read_comp. by destruct (comps w !! l). Qed.

Lemma reads_read_dict l : reads (read_dict l).
Proof. intros w. unfold read_dict. by destruct (dicts w !! l). Qed.

Lemma reads_read_pipe l : reads (read_pipe l).
Proof. intros w. unfold read_pipe. by destruct (pipes w !! l). Qed.

Lemma reads_fold_m {A S} (xs : list A) (body : A → S → M S) acc :
  (∀ x acc, reads (body x acc)) → reads (fold_m xs body acc).
Proof.
  intros Hbody. revert acc. induction xs as [|x xs IH]; intros acc; simpl.
  - apply reads_ret.
  - apply reads_bind; auto.
Qed.

Lemma wp_fold_m {A S} (xs : list A) (body : A → S → M S) (I : S → World → Prop) R acc w :
  (∀ x acc w, x ∈ xs → I acc w → wp (body x acc) I R w) →
  I acc w → wp (fold_m xs body acc) I R w.
Proof.
  revert acc w. induction xs as [|x xs IH]; intros acc w Hbody HI; simpl.
  - by apply wp_ret.
  - apply wp_bind. eapply wp_mono; [apply Hbody; [left|done]| |done].
    intros acc' w' HI'. apply IH; [|done].
    intros. apply Hbody; [by right|done].
Qed.

Lemma wp_for_each {A} (xs : list A) (body : A → M unit) (I : World → Prop) R w :
  (∀ x w, x ∈ xs → I w → wp (body x) (λ _, I) R w) →
  I w → wp (for_each xs body) (λ _, I) R w.
Proof.
  revert w. induction xs as [|x xs IH]; intros w Hbody HI; simpl.
  - by apply wp_ret.
  - apply wp_bind. eapply wp_mono; [apply Hbody; [left|done]| |done].
    intros ? w' HI'. apply IH; [|done].
    intros. apply Hbody; [by right|done].
Qed.

Create HintDb reads.
Global Hint Resolve reads_ret reads_raise reads_getitem reads_raise_if reads_read_store
  reads_read_comp reads_read_dict reads_read_pipe reads_lift : reads.

(** Steps over a computation that only reads the heap, when the postcondition
    in hand does not depend on what is read. *)
Ltac wp_skip := apply wp_bind, wp_reads; [auto with reads| |done].

(** ** marshal_pipelines leaves the live objects alone *)

Lemma frame_refl w : frame w w.
Proof. by repeat split. Qed.

Lemma frame_trans w1 w2 w3 : frame w1 w2 → frame w2 w3 → frame w1 w3.
Proof.
  intros (?&?&?&?) (?&?&?&?). repeat split; try congruence. by etrans.
Qed.

Lemma frame_alloc_dict w0 w d :
  frame w0 w →
  wp (alloc_dict d) (λ l w', frame w0 w' ∧ dicts w0 !! l = None ∧ dicts w' !! l = Some d)
    (λ _, frame w0) w.
Proof.
  intros (Hs & Hc & Hp & Hd). unfold wp, alloc_dict. simpl.
  assert (dicts w !! fresh (dom (dicts w)) = None) as Hfresh.
  { apply not_elem_of_dom, is_fresh. }
  split_and!.
  - repeat split; simpl; try done. etrans; [done|]. by apply insert_subseteq.
  - eapply lookup_weaken_None; done.
  - apply lookup_insert_eq.
Qed.

Lemma frame_write_dict w0 w l d :
  frame w0 w → dicts w0 !! l = None →
  wp (write_dict l d) (λ _, frame w0) (λ _, frame w0) w.
Proof.
  intros (Hs & Hc & Hp & Hd) Hl. unfold wp, write_dict. simpl.
  repeat split; simpl; try done. by apply insert_subseteq_r.
Qed.

Lemma reads_any_same_hash marshalled_store values :
  reads (any_same_hash marshalled_store values).
Proof.
  induction values as [|s values IH]; simpl; [apply reads_ret|].
  apply reads_bind; [auto with reads|]. intros a.
  apply reads_bind; [auto with reads|]. intros b.
  destruct (bool_decide (a = b)); auto with reads.
Qed.

Lemma reads_unique_name_loop fuel store_name unique_store_name i marshalled_stores :
  reads (unique_name_loop fuel store_name unique_store_name i marshalled_stores).
Proof.
  revert unique_store_name i. induction fuel as [|fuel IH]; intros u i; simpl.
  - destruct (dict_in u marshalled_stores); auto with reads.
  - destruct (dict_in u marshalled_stores); auto with reads.
Qed.

Lemma frame_rename_connections w0 w sc store_name unique_store_name :
  frame w0 w → dicts w0 !! sc = None →
  wp (rename_connections sc store_name unique_store_name) (λ _, frame w0) (λ _, frame w0) w.
Proof.
  intros Hw Hsc. unfold rename_connections. apply wp_bind.
  apply wp_reads; [auto with reads| |done]. intros items.
  apply wp_for_each; [|done]. intros item w1 _ Hw1.
  destruct (bool_decide (item.2 = store_name)); [|by apply wp_ret].
  wp_skip. intros d.
  by apply frame_write_dict.
Qed.

Lemma frame_marshal_store w0 w sc item marshalled_stores :
  frame w0 w → dicts w0 !! sc = None →
  wp (marshal_store sc item marshalled_stores) (λ _, frame w0) (λ _, frame w0) w.
Proof.
  intros Hw Hsc. unfold marshal_store. apply wp_bind.
  apply wp_reads; [auto with reads| |done]. intros s.
  apply wp_bind, wp_reads; [apply reads_any_same_hash| |done]. intros [|]; [by apply wp_ret|].
  wp_skip. intros _.
  apply wp_bind, wp_reads; [apply reads_unique_name_loop| |done]. intros u.
  apply wp_bind.
  eapply (wp_mono _ (λ _, frame w0) _ (λ _, frame w0)); [| |done].
  - destruct (bool_decide (u ≠ item.1)); [by apply frame_rename_connections|by apply wp_ret].
  - intros ? w1 Hw1. by apply wp_ret.
Qed.

Lemma frame_marshal_pipeline w0 w pipelines item acc :
  frame w0 w →
  wp (marshal_pipeline pipelines item acc) (λ _, frame w0) (λ _, frame w0) w.
Proof.
  intros Hw. unfold marshal_pipeline.
  wp_skip. intros pl.
  wp_skip. intros p0.
  wp_skip. intros conns.
  apply wp_bind. eapply wp_mono; [by apply frame_alloc_dict| |done].
  intros sc w1 (Hw1 & Hsc & _).
  wp_skip. intros p.
  apply wp_bind.
  eapply wp_mono; [apply (wp_fold_m _ _ (λ _, frame w0) (λ _, frame w0))| |done].
  - intros. by apply frame_marshal_store.
  - done.
  - intros ms w2 Hw2. wp_skip.
    intros section. by apply wp_ret.
Qed.

Lemma reads_marshal_canals_pipelines pipelines : reads (marshal_canals_pipelines pipelines).
Proof.
  apply reads_fold_m. intros item acc. unfold marshal_canals_pipeline.
  apply reads_bind; [auto with reads|]. intros p.
  apply reads_bind; [|auto with reads].
  apply reads_fold_m. intros c cs. unfold marshal_canals_component.
  apply reads_bind; auto with reads.
Qed.

Lemma frame_marshal_pipelines pipelines w :
  wp (marshal_pipelines pipelines) (λ _, frame w) (λ _, frame w) w.
Proof.
  unfold marshal_pipelines.
  apply wp_bind, wp_reads; [apply reads_marshal_canals_pipelines| |intros; apply frame_refl].
  intros canals. apply wp_bind.
  eapply wp_mono; [apply (wp_fold_m _ _ (λ _, frame w) (λ _, frame w))| |done].
  - intros. by apply frame_marshal_pipeline.
  - apply frame_refl.
  - intros r w1 Hw1. by apply wp_ret.
Qed.

(** *** Exact weakest preconditions of the heap accesses *)

Lemma wp_getitem {V} (d : list (string * V)) k Q R w :
  match dict_get d k with Some v => Q v w | None => R (KeyError k) w end →
  wp (getitem d k) Q R w.
Proof. unfold wp, getitem. by destruct (dict_get d k). Qed.

Lemma wp_read_store l Q R w :
  match stores w !! l with Some s => Q s w | None => R (DanglingReference l) w end →
  wp (read_store l) Q R w.
Proof. unfold wp, read_store. by destruct (stores w !! l). Qed.

Lemma wp_read_comp l Q R w :
  match comps w !! l with Some c => Q c w | None => R (DanglingReference l) w end →
  wp (read_comp l) Q R w.
Proof. unfold wp, read_comp. by destruct (comps w !! l). Qed.

Lemma wp_read_dict l Q R w :
  match dicts w !! l with Some d => Q d w | None => R (DanglingReference l) w end →
  wp (read_dict l) Q R w.
Proof. unfold wp, read_dict. by destruct (dicts w !! l). Qed.

Lemma wp_read_pipe l Q R w :
  match pipes w !! l with Some p => Q p w | None => R (DanglingReference l) w end →
  wp (read_pipe l) Q R w.
Proof. unfold wp, read_pipe. by destruct (pipes w !! l). Qed.

Lemma wp_run_ok {A} (m : M A) a w' Q R w : m w = (Ok a, w') → Q a w' → wp m Q R w.
Proof. unfold wp. by intros ->. Qed.

Lemma wp_run_raise {A} (m : M A) e w' Q R w :
  m w = (Raise e, w') → R e w' → wp m Q R w.
Proof. unfold wp. by intros ->. Qed.

Lemma wp_and {A} (m : M A) Q1 Q2 R1 R2 w :
  wp m Q1 R1 w → wp m Q2 R2 w →
  wp m (λ a w', Q1 a w' ∧ Q2 a w') (λ e w', R1 e w' ∧ R2 e w') w.
Proof. unfold wp. by destruct (m w) as [[a|e] w']. Qed.

Lemma wp_fold_m_prefix {A S} (xs : list A) (body : A → S → M S)
    (I : list A → S → World → Prop) R acc w :
  (∀ pre x post acc w, xs = (pre ++ x :: post)%list → I pre acc w →
     wp (body x acc) (I (pre ++ [x])%list) R w) →
  I [] acc w → wp (fold_m xs body acc) (I xs) R w.
Proof.
  intros Hbody. cut (∀ pre post acc w, xs = (pre ++ post)%list → I pre acc w →
                       wp (fold_m post body acc) (I xs) R w).
  { intros H. by apply (H [] xs). }
  intros pre post. revert pre. induction post as [|x post IH]; intros pre acc0 w0 Hxs HI.
  - simpl. apply wp_ret. by rewrite Hxs, app_nil_r.
  - simpl. apply wp_bind. eapply wp_mono; [by eapply Hbody| |done].
    intros acc' w' HI'. apply (IH (pre ++ [x])%list); [|done]. by rewrite <-app_assoc.
Qed.

(** ** What marshal_pipelines returns *)

Lemma hashless_nil : hashless [].
Proof. intros d Hd. by apply elem_of_nil in Hd. Qed.

(** As soon as [marshalled_stores] has an entry, the duplicate test raises
    [KeyError]: the entry was stored without its hash. *)
Lemma any_same_hash_run marshalled_store d values w :
  dict_get d "hash" = None →
  ∃ e, any_same_hash marshalled_store (d :: values) w = (Raise e, w).
Proof.
  intros Hd. simpl. unfold bind, getitem.
  destruct (dict_get marshalled_store "hash"); simpl; [|by eexists].
  rewrite Hd. by eexists.
Qed.

Lemma unique_name_nil store_name w : unique_name store_name [] w = (Ok store_name, w).
Proof. done. Qed.

Lemma marshal_store_spec sc item marshalled_stores w :
  hashless marshalled_stores →
  wp (marshal_store sc item marshalled_stores)
    (λ r w', w' = w ∧ marshalled_stores = [] ∧ hashless r ∧ length r = 1)
    (λ _ w', w' = w) w.
Proof.
  intros Hms. unfold marshal_store.
  apply wp_bind, wp_read_store. destruct (stores w !! item.2) as [s|]; [|done].
  apply wp_bind. destruct marshalled_stores as [|[n d] ms].
  - simpl. apply wp_ret. apply wp_bind, wp_getitem. simpl.
    apply wp_bind. eapply wp_run_ok; [apply unique_name_nil|].
    rewrite bool_decide_false by (by intros H; apply H).
    apply wp_bind, wp_ret, wp_ret. split_and!; try done.
    intros d. simpl. intros ->%list_elem_of_singleton. done.
  - destruct (any_same_hash_run (to_dict s) d (dict_values ms) w) as [e He].
    { apply Hms. simpl. left. }
    by eapply wp_run_raise; [exact He|].
Qed.

Lemma marshal_stores_spec sc table marshalled_stores w :
  hashless marshalled_stores → (length marshalled_stores ≤ 1)%nat →
  wp (fold_m table (marshal_store sc) marshalled_stores)
    (λ r w', w' = w ∧ hashless r ∧ (length r ≤ 1)%nat ∧
             length r = (length marshalled_stores + length table)%nat)
    (λ _ w', w' = w) w.
Proof.
  intros Hms Hlen.
  apply (wp_fold_m_prefix _ _
    (λ pre r w', w' = w ∧ hashless r ∧ (length r ≤ 1)%nat ∧
                 length r = (length marshalled_stores + length pre)%nat)).
  - intros pre item post acc w1 _ (-> & Hacc & _ & Hcount).
    eapply wp_mono; [by apply marshal_store_spec| |done].
    intros r w' (-> & -> & Hr & Hlen'). split_and!; [done..|lia|].
    rewrite length_app. simpl in *. lia.
  - split_and!; [done..|]. simpl. lia.
Qed.

Lemma marshal_pipeline_spec pipelines item acc w :
  hashless acc.2 → (length acc.2 ≤ 1)%nat →
  wp (marshal_pipeline pipelines item acc)
    (λ r w', hashless r.2 ∧ (length r.2 ≤ 1)%nat ∧
       ∃ pl p0 conns sc section,
         dict_get pipelines item.1 = Some pl ∧
         pipes w !! pl = Some p0 ∧
         dicts w !! _document_stores_connections p0 = Some conns ∧
         dicts w !! sc = None ∧
         w' = with_dict w sc conns ∧
         dict_get acc.1 item.1 = Some section ∧
         r.1 = dict_set acc.1 item.1
                 {| pd_components := pd_components section;
                    store_connections := Some sc |} ∧
         ∃ p, pipes w !! item.2 = Some p ∧ (length (_document_stores p) ≤ 1)%nat)
    (λ _ _, True) w.
Proof.
  intros Hms Hlen. unfold marshal_pipeline.
  apply wp_bind, wp_getitem. destruct (dict_get pipelines item.1) as [pl|]; [|done].
  apply wp_bind, wp_read_pipe. destruct (pipes w !! pl) as [p0|] eqn:Hp0; [|done].
  apply wp_bind, wp_read_dict.
  destruct (dicts w !! _document_stores_connections p0) as [conns|] eqn:Hconns; [|done].
  set (sc := fresh (dom (dicts w))).
  assert (dicts w !! sc = None) as Hsc by apply not_elem_of_dom, is_fresh.
  apply wp_bind. apply (wp_run_ok _ sc (with_dict w sc conns)); [done|].
  apply wp_bind, wp_read_pipe. simpl.
  destruct (pipes w !! item.2) as [p|] eqn:Hp; [|done].
  apply wp_bind. eapply wp_mono; [by apply marshal_stores_spec| |done].
  intros ms w' (-> & Hms' & Hlen' & Hcount).
  apply wp_bind, wp_getitem. destruct (dict_get acc.1 item.1) as [section|] eqn:Hsec; [|done].
  apply wp_ret. simpl. split_and!; [done..|].
  exists pl, p0, conns, sc, section. split_and!; try done.
  exists p. split; [done|]. lia.
Qed.

Lemma marshal_canals_pipelines_sections pipelines w :
  wp (marshal_canals_pipelines pipelines)
    (λ d w', w' = w ∧ ∀ n, is_Some (dict_get (doc_pipelines d) n) → n ∈ pipelines.*1)
    (λ _ w', w' = w) w.
Proof.
  unfold marshal_canals_pipelines.
  apply (wp_fold_m _ _
    (λ d w', w' = w ∧ ∀ n, is_Some (dict_get (doc_pipelines d) n) → n ∈ pipelines.*1)).
  - intros item acc w1 Hitem [-> Hacc]. unfold marshal_canals_pipeline.
    apply wp_bind, wp_read_pipe. destruct (pipes w !! item.2) as [p|]; [|done].
    apply wp_bind.
    apply wp_reads; [|intros cs|done].
    { apply reads_fold_m. intros. unfold marshal_canals_component.
      apply reads_bind; auto with reads. }
    apply wp_ret. split; [done|]. simpl. intros n. rewrite dict_get_set.
    destruct (decide (item.1 = n)) as [<-|]; [|by auto].
    intros _. apply list_elem_of_fmap. by exists item.
  - split; [done|]. simpl. by intros n [??].
Qed.

Lemma marshalled_step w pipelines pre item post acc w1 :
  pipelines = (pre ++ item :: post)%list →
  marshalled w pipelines pre acc w1 →
  wp (marshal_pipeline pipelines item acc)
    (marshalled w pipelines (pre ++ [item])%list) (λ _ _, True) w1.
Proof.
  intros Hsplit (Hframe & Hms & Hlen & Hkeys & Hdone & Hone & Hsecs).
  eapply wp_mono; [by apply marshal_pipeline_spec| |done].
  intros r w' (Hms' & Hlen' & pl & p0 & conns0 & sc & section &
               Hpl & Hp0 & Hconns0 & Hsc & -> & Hsection & Hr & p1 & Hp1 & Hlen1).
  destruct Hframe as (Hst & Hco & Hpi & Hdi).
  assert (∀ n, n ∈ ((pre ++ [item])%list).*1 ↔ n ∈ pre.*1 ∨ n = item.1) as Hpre.
  { intros n. rewrite fmap_app, elem_of_app. simpl.
    by rewrite list_elem_of_singleton. }
  split_and!; try done.
  - repeat split; simpl; try done. etrans; [done|]. by apply insert_subseteq.
  - intros n. rewrite Hr, dict_get_set.
    destruct (decide (item.1 = n)) as [<-|]; [|by auto].
    intros _. rewrite Hsplit, fmap_app, elem_of_app. right. simpl. left.
  - intros n [Hn| ->]%Hpre; rewrite Hr, dict_get_set.
    + destruct (decide (item.1 = n)); [done|auto].
    + by rewrite decide_True.
  - intros x p [Hx| ->%list_elem_of_singleton]%elem_of_app Hp; [by eauto|].
    rewrite Hpi, Hp in Hp1. by injection Hp1 as <-.
  - intros n pd. rewrite Hr, dict_get_set.
    destruct (decide (item.1 = n)) as [<-|Hne].
    + intros [= <-] _. exists sc. simpl. rewrite lookup_insert_eq.
      split_and!; [done| |done|].
      * eapply lookup_weaken_None; done.
      * intros pl' p conns Hpl' Hp Hconns.
        rewrite Hpl in Hpl'. injection Hpl' as <-.
        rewrite Hpi, Hp in Hp0. injection Hp0 as <-.
        eapply lookup_weaken in Hconns; [|done]. congruence.
    + intros Hpd [Hn|?]%Hpre; [|done].
      destruct (Hsecs n pd Hpd Hn) as (sc' & Hsc' & Hnew & Halloc & Hcopy).
      exists sc'. simpl.
      assert (sc ≠ sc') as Hdiff.
      { intros <-. rewrite Hsc in Halloc. by destruct Halloc. }
      rewrite lookup_insert_ne by done. split_and!; try done.
Qed.

Lemma marshal_pipelines_spec pipelines w :
  wp (marshal_pipelines pipelines)
    (λ doc w', ∃ table,
       doc_stores doc = Some table ∧
       marshalled w pipelines pipelines (doc_pipelines doc, table) w')
    (λ _ _, True) w.
Proof.
  unfold marshal_pipelines. apply wp_bind.
  eapply wp_mono; [apply marshal_canals_pipelines_sections| |done].
  intros canals w1 [-> Hkeys]. apply wp_bind.
  eapply wp_mono;
    [apply (wp_fold_m_prefix _ _ (marshalled w pipelines) (λ _ _, True))| |done].
  - intros pre item post acc w1 Hsplit Hinv. by eapply marshalled_step.
  - split_and!; simpl.
    + apply frame_refl.
    + apply hashless_nil.
    + lia.
    + done.
    + intros n Hn. by apply elem_of_nil in Hn.
    + intros x p Hx. by apply elem_of_nil in Hx.
    + intros n pd _ Hn. by apply elem_of_nil in Hn.
  - intros [secs ms] w1 Hinv. apply wp_ret. by exists ms.
Qed.

(** Every run of [marshal_pipelines] that returns has gone through the
    duplicate test at most once: the table of stores of the document has at
    most one entry. *)
Lemma marshal_pipelines_at_most_one_store pipelines w doc w' :
  marshal_pipelines pipelines w = (Ok doc, w') →
  ∃ table, doc_stores doc = Some table ∧ (length table ≤ 1)%nat.
Proof.
  intros Hrun.
  destruct (wp_run _ _ _ _ _ _ (marshal_pipelines_spec pipelines w) Hrun)
    as (table & Htable & _ & _ & Hlen & _).
  by exists table.
Qed.

(** C1. Two pipelines hold stores with equal content hashes:
    [marshal_pipelines] returns no document. The first store is entered in
    [marshalled_stores] without its ["hash"] key, and the duplicate test for
    the second store reads [s["hash"]] of that entry and raises [KeyError]. *)
Theorem marshal_pipelines_equal_hashes_raises :
  (marshal_pipelines two_pipelines equal_hashes_world).1 = Raise (KeyError "hash").
Proof. vm_compute. reflexivity. Qed.

(** C2. Two pipelines register stores with different content hashes under one
    local name: [marshal_pipelines] returns no document, for the same
    [KeyError]; the collision loop and the renaming are not reached. *)
Theorem marshal_pipelines_name_collision_raises :
  (marshal_pipelines two_pipelines name_collision_world).1 = Raise (KeyError "hash").
Proof. vm_compute. reflexivity. Qed.

(** C9. [marshal_pipelines] does not mutate the live objects, whether it
    returns or raises: the stores, the components (so their store pointers)
    and the pipelines (so their store tables) are the same objects with the
    same content, and every dictionary object that existed before the call,
    the connections tables among them, has the content it had. The
    connections table of each section of the returned document is a
    dictionary object that did not exist before the call. *)
Theorem marshal_pipelines_does_not_mutate (pipelines : list (string * loc)) (w : World) :
  stores (marshal_pipelines pipelines w).2 = stores w ∧
  comps (marshal_pipelines pipelines w).2 = comps w ∧
  pipes (marshal_pipelines pipelines w).2 = pipes w ∧
  (∀ l d, dicts w !! l = Some d → dicts (marshal_pipelines pipelines w).2 !! l = Some d) ∧
  (∀ doc n pd,
     (marshal_pipelines pipelines w).1 = Ok doc →
     dict_get (doc_pipelines doc) n = Some pd →
     ∃ sc, store_connections pd = Some sc ∧
           dicts w !! sc = None ∧
           is_Some (dicts (marshal_pipelines pipelines w).2 !! sc)).
Proof.
  pose proof (frame_marshal_pipelines pipelines w) as Hframe.
  pose proof (marshal_pipelines_spec pipelines w) as Hspec.
  unfold wp in Hframe, Hspec.
  destruct (marshal_pipelines pipelines w) as [[doc|e] w']; simpl.
  - destruct Hframe as (Hs & Hc & Hp & Hd).
    split_and!; try done.
    + intros l d Hl. by eapply lookup_weaken.
    + intros doc' n pd [= <-] Hpd.
      destruct Hspec as (table & _ & _ & _ & _ & Hkeys & Hdone & _ & Hsecs).
      simpl in *.
      destruct (Hsecs n pd Hpd) as (sc & Hsc & Hnew & Halloc & _).
      { apply Hkeys. by rewrite Hpd. }
      by exists sc.
  - destruct Hframe as (Hs & Hc & Hp & Hd).
    split_and!; try done.
    intros l d Hl. by eapply lookup_weaken.
Qed.

Lemma marshal_pipelines_does_not_mutate_witness :
  is_ok (marshal_pipelines one_pipeline shared_store_world).1 = true ∧
  dicts shared_store_world !! 1%positive = Some [("A", "store"); ("B", "store")] ∧
  dicts (marshal_pipelines one_pipeline shared_store_world).2 !! 1%positive
  = Some [("A", "store"); ("B", "store")] ∧
  pipes (marshal_pipelines one_pipeline shared_store_world).2 = pipes shared_store_world.
Proof.
  split; [vm_compute; reflexivity|]. split; [vm_compute; reflexivity|].
  pose proof (marshal_pipelines_does_not_mutate one_pipeline shared_store_world)
    as (_ & _ & Hpipes & Hdicts & _).
  split; [|exact Hpipes].
  apply Hdicts. vm_compute; reflexivity.
Defined.

(** ** unmarshal_pipelines *)

Lemma bind_ok_inv {A B} (m : M A) (k : A → M B) w b w' :
  bind m k w = (Ok b, w') → ∃ a w1, m w = (Ok a, w1) ∧ k a w1 = (Ok b, w').
Proof. unfold bind. destruct (m w) as [[a|e] w1]; [eauto|done]. Qed.

Lemma dict_get_snoc {V} (d : list (string * V)) k v k' :
  dict_get (d ++ [(k, v)]) k'
  = match dict_get d k' with
    | Some v' => Some v'
    | None => if decide (k' = k) then Some v else None
    end.
Proof.
  induction d as [|[k0 v0] d IH]; simpl; [done|].
  by destruct (decide (k' = k0)).
Qed.

Lemma length_dict_set {V} (d : list (string * V)) k v :
  length (dict_set d k v) ≤ S (length d).
Proof.
  induction d as [|[k0 v0] d IH]; simpl; [lia|].
  destruct (decide (k = k0)); simpl; lia.
Qed.

Section unmarshal_facts.
Variable registry : list (string * (StoreData → result DocumentStore)).

Lemma unmarshal_store_spec item acc w :
  wp (unmarshal_store registry item acc)
    (λ r w', ∃ l s, stores w !! l = None ∧ w' = with_store w l s ∧
                    r = dict_set acc item.1 l)
    (λ _ w', w' = w) w.
Proof.
  unfold unmarshal_store.
  apply wp_bind, wp_getitem. destruct (dict_get item.2 "type") as [ty|]; [|done].
  apply wp_bind.
  apply (wp_mono _ (λ _ w', w' = w) _ (λ _ w', w' = w)); [| |done].
  { destruct ty; [done| |done].
    apply wp_getitem. by destruct (dict_get registry s). }
  intros cls ? ->. apply wp_bind.
  unfold wp at 1, lift. destruct (cls item.2) as [s|e]; [|done].
  apply wp_bind.
  apply (wp_run_ok _ (fresh (dom (stores w))) (with_store w (fresh (dom (stores w))) s));
    [done|].
  apply wp_ret. eexists _, s. split_and!; [|done..].
  apply not_elem_of_dom, is_fresh.
Qed.

Lemma unmarshal_stores_spec table w :
  wp (unmarshal_stores registry table) (stores_rebuilt w table) (λ _ _, True) w.
Proof.
  unfold unmarshal_stores.
  apply (wp_fold_m_prefix _ _ (stores_rebuilt w)).
  - intros pre item post acc w1 _
      (Hc & Hd & Hp & Hs & Hkeys & Hinj & Hnew & Hlen).
    eapply wp_mono; [apply unmarshal_store_spec| |done].
    intros r w' (l & s & Hl & -> & ->). unfold stores_rebuilt. simpl.
    split_and!; try done.
    + etrans; [done|]. by apply insert_subseteq.
    + intros n. destruct item as [k v]. simpl.
      rewrite dict_get_set, dict_get_snoc.
      destruct (decide (k = n)) as [->|Hne].
      * rewrite decide_True by done.
        split; intros _; [by destruct (dict_get pre n)|done].
      * rewrite decide_False by done. rewrite Hkeys.
        destruct (dict_get pre n); [done|]. split; by intros [??].
    + intros n1 n2 l'. rewrite !dict_get_set.
      destruct (decide (item.1 = n1)) as [<-|]; destruct (decide (item.1 = n2)) as [<-|];
        try done.
      * intros [= <-] [_ Hin]%Hnew. rewrite Hl in Hin. by destruct Hin.
      * intros [_ Hin]%Hnew [= <-]. rewrite Hl in Hin. by destruct Hin.
      * apply Hinj.
    + intros n l'. rewrite dict_get_set.
      destruct (decide (item.1 = n)) as [<-|].
      * intros [= <-]. rewrite lookup_insert_eq. split; [|done].
        by eapply lookup_weaken_None.
      * intros [Hn Hin]%Hnew. split; [done|].
        destruct (decide (l = l')) as [<-|]; [by rewrite lookup_insert_eq|].
        by rewrite lookup_insert_ne.
    + rewrite length_app. simpl. pose proof (length_dict_set acc item.1 l). lia.
  - unfold stores_rebuilt. simpl. split_and!; done.
Qed.

Lemma unmarshal_canals_components_spec data w :
  wp (_unmarshal_canals_components data)
    (components_rebuilt w (doc_components data)) (λ _ _, False) w.
Proof.
  unfold _unmarshal_canals_components.
  apply (wp_fold_m_prefix _ _ (components_rebuilt w)).
  - intros pre item post acc w1 _ (Hs & Hd & Hp & Hkeys & Halloc).
    unfold unmarshal_canals_component. apply wp_bind.
    eapply wp_run_ok; [reflexivity|]. apply wp_ret.
    unfold components_rebuilt. simpl. split_and!; try done.
    + intros n. destruct item as [k v]. simpl.
      rewrite dict_get_set, dict_get_snoc.
      destruct (decide (k = n)) as [->|Hne].
      * rewrite decide_True by done.
        split; intros _; [by destruct (dict_get pre n)|done].
      * rewrite decide_False by done. rewrite Hkeys.
        destruct (dict_get pre n); [done|]. split; by intros [??].
    + intros n l. rewrite dict_get_set.
      destruct (decide (item.1 = n)) as [<-|].
      * intros [= <-]. by rewrite lookup_insert_eq.
      * intros Hin%Halloc.
        destruct (decide (fresh (dom (comps w1)) = l)) as [<-|];
          [by rewrite lookup_insert_eq|by rewrite lookup_insert_ne].
  - unfold components_rebuilt. simpl. split_and!; done.
Qed.
End unmarshal_facts.

(** *** The loop that reconnects the stores *)

Section reconnect.
Variables (stores_ components : list (string * loc)).

Lemma reconnected_refl w : reconnected stores_ w w.
Proof. repeat split; try done. intros l c Hc. exists c. auto. Qed.

Lemma reconnected_trans w1 w2 w3 :
  reconnected stores_ w1 w2 → reconnected stores_ w2 w3 → reconnected stores_ w1 w3.
Proof.
  intros (?&?&?&H12) (?&?&?&H23). repeat split; try congruence.
  intros l c (c' & Hc' & Hor)%H12. apply H23 in Hc' as (c'' & Hc'' & Hor').
  exists c''. split; [done|]. destruct Hor' as [->|]; auto.
Qed.

Lemma allocated_stable w w' :
  reconnected stores_ w w' → allocated components w → allocated components w'.
Proof.
  intros (_&_&_&Hcomps) Halloc n l [c Hc]%Halloc.
  apply Hcomps in Hc as (c' & -> & _). done.
Qed.

Lemma bound_to_stable w w' item :
  single_valued stores_ → reconnected stores_ w w' →
  bound_to stores_ components w item → bound_to stores_ components w' item.
Proof.
  intros Hsv (_&_&_&Hcomps) (instance & store & c & Hi & Hs & Hc & Hheld).
  apply Hcomps in Hc as (c' & Hc' & Hor).
  exists instance, store, c'. split_and!; try done.
  destruct Hor as [->|(n & store' & Hn & Hheld')]; [done|].
  by rewrite Hheld', (Hsv _ _ _ _ Hn Hs).
Qed.

Lemma reconnect_spec item w :
  allocated components w →
  wp (reconnect stores_ components item)
    (λ _ w', reconnected stores_ w w' ∧ bound_to stores_ components w' item)
    (λ e w', w' = w ∧ dangling_error stores_ components e item) w.
Proof.
  intros Halloc. unfold reconnect, dangling_error.
  apply wp_bind, wp_getitem.
  destruct (dict_get stores_ item.2) as [store|] eqn:Hstore; [|auto].
  apply wp_bind, wp_getitem.
  destruct (dict_get components item.1) as [comp|] eqn:Hcomp; [|auto].
  destruct (Halloc _ _ Hcomp) as [c Hc].
  apply wp_bind, wp_read_comp. rewrite Hc.
  eapply wp_run_ok; [reflexivity|]. split.
  - repeat split; simpl; try done. intros l c0 Hc0.
    destruct (decide (comp = l)) as [<-|Hne].
    + rewrite lookup_insert_eq. eexists. split; [done|]. right.
      by exists item.2, store.
    + rewrite lookup_insert_ne by done. eauto.
  - unfold bound_to. eexists comp, store, _. simpl. rewrite lookup_insert_eq.
    split_and!; try done.
Qed.

Lemma reconnect_items_spec items w :
  allocated components w →
  wp (for_each items (reconnect stores_ components))
    (λ _ w', reconnected stores_ w w' ∧
             (∀ item, item ∈ items → resolved stores_ components item) ∧
             (single_valued stores_ →
            ∀ item, item ∈ items → bound_to stores_ components w' item))
    (λ e w', ∃ item, item ∈ items ∧ dangling_error stores_ components e item) w.
Proof.
  revert w. induction items as [|item items IH]; intros w Halloc; simpl.
  - apply wp_ret. split_and!; [apply reconnected_refl|..];
      intros; by match goal with H : _ ∈ [] |- _ => apply elem_of_nil in H end.
  - apply wp_bind. eapply wp_mono; [by apply reconnect_spec| |].
    + intros ? w1 [Hw1 Hitem].
      eapply wp_mono; [apply IH; by eapply allocated_stable| |].
      * intros ? w2 (Hw2 & Hres & Hbound). split_and!.
        -- by eapply reconnected_trans.
        -- intros x [->|Hx]%elem_of_cons; [|auto].
           destruct Hitem as (i & s & c & Hi & Hs & _). split; by eexists.
        -- intros Hsv x [->|Hx]%elem_of_cons; [|auto].
           by eapply bound_to_stable.
      * intros e w2 (x & Hx & Herr). exists x. split; [by right|done].
    + intros e w1 [-> Herr]. exists item. split; [left|done].
Qed.

Lemma reconnect_stores_spec pd w :
  allocated components w →
  wp (reconnect_stores stores_ components pd)
    (λ _ w', reconnected stores_ w w' ∧ section_resolved stores_ components w pd ∧
             (single_valued stores_ → section_bound stores_ components w w' pd))
    (λ e w', section_error stores_ components w e pd) w.
Proof.
  intros Halloc. unfold reconnect_stores, section_error, section_resolved, section_bound.
  apply wp_bind. destruct (store_connections pd) as [sc|]; [|done].
  apply wp_ret, wp_bind, wp_read_dict.
  destruct (dicts w !! sc) as [conns|] eqn:Hconns; [|done].
  eapply wp_mono; [by apply reconnect_items_spec| |done].
  intros ? w' (Hw' & Hres & Hbound). split_and!; [done|by eauto|].
  intros Hsv sc' conns' item [= <-] Hconns'.
  rewrite Hconns in Hconns'. injection Hconns' as <-. by apply Hbound.
Qed.

Lemma reconnect_all_spec pds w :
  allocated components w →
  wp (for_each pds (reconnect_stores stores_ components))
    (λ _ w', reconnected stores_ w w' ∧
             (∀ pd, pd ∈ pds → section_resolved stores_ components w pd) ∧
             (single_valued stores_ →
              ∀ pd, pd ∈ pds → section_bound stores_ components w w' pd))
    (λ e w', ∃ pd, pd ∈ pds ∧ section_error stores_ components w e pd) w.
Proof.
  revert w. induction pds as [|pd pds IH]; intros w Halloc; simpl.
  - apply wp_ret. split_and!; [apply reconnected_refl|..];
      intros; by match goal with H : _ ∈ [] |- _ => apply elem_of_nil in H end.
  - apply wp_bind.
    eapply wp_mono; [by apply reconnect_stores_spec| |].
    + intros ? w2 (Hw2 & Hres & Hbound).
      assert (dicts w2 = dicts w) as Hd by apply Hw2.
      eapply wp_mono; [apply IH; by eapply allocated_stable| |].
      * intros ? w3 (Hw3 & Hres' & Hbound'). split_and!.
        -- by eapply reconnected_trans.
        -- intros x [->|Hx]%elem_of_cons; [done|].
           specialize (Hres' x Hx). unfold section_resolved in *. by rewrite <-Hd.
        -- intros Hsv x [->|Hx]%elem_of_cons.
           ++ intros sc conns item Hsc Hconns Hitem.
              eapply bound_to_stable; [done|exact Hw3|]. by eapply Hbound.
           ++ intros sc conns item Hsc Hconns Hitem.
              eapply (Hbound' Hsv x Hx); [done| |done]. by rewrite Hd.
      * intros e w3 (x & Hx & Herr). exists x. split; [by right|].
        unfold section_error in *. by rewrite <-Hd.
    + intros e w2 Herr. exists pd. split; [left|done].
Qed.
End reconnect.

(** *** The assembly of the pipelines leaves stores and components alone *)

Lemma assembled_refl w : assembled w w.
Proof. by repeat split. Qed.

Lemma canals_add_component_assembled w0 self name instance w :
  assembled w0 w →
  wp (canals_add_component self name instance) (λ _, assembled w0) (λ _, assembled w0) w.
Proof.
  intros Hw. unfold canals_add_component.
  wp_skip. intros p.
  wp_skip. intros _.
  wp_skip. intros c.
  wp_skip. intros _.
  by eapply wp_run_ok; [reflexivity|].
Qed.

Lemma Pipeline_init_assembled w0 w :
  assembled w0 w → wp Pipeline_init (λ _, assembled w0) (λ _, assembled w0) w.
Proof.
  intros (Hs & Hc & Hd). unfold wp, Pipeline_init, bind, alloc_dict, alloc_pipe. simpl.
  repeat split; simpl; try done. etrans; [done|].
  apply insert_subseteq, not_elem_of_dom, is_fresh.
Qed.

Lemma unmarshal_canals_pipelines_assembled data components w :
  wp (_unmarshal_canals_pipelines data components) (λ _, assembled w) (λ _, assembled w) w.
Proof.
  unfold _unmarshal_canals_pipelines.
  apply (wp_fold_m _ _ (λ _, assembled w)); [|apply assembled_refl].
  intros item acc w1 _ Hw1. unfold unmarshal_canals_pipeline.
  apply wp_bind. eapply wp_mono; [by apply Pipeline_init_assembled| |done].
  intros pl w2 Hw2. apply wp_bind.
  eapply wp_mono; [apply (wp_for_each _ _ (assembled w) (λ _, assembled w))| |done].
  - intros name w3 _ Hw3.
    wp_skip. intros c.
    by apply canals_add_component_assembled.
  - done.
  - intros ? w3 Hw3. by apply wp_ret.
Qed.

Section unmarshal_claims.
Variable registry : list (string * (StoreData → result DocumentStore)).

(** The run of [unmarshal_pipelines], stage by stage. *)
Lemma unmarshal_pipelines_run data w :
  unmarshal_pipelines registry data w
  = match doc_stores data with
    | None => (Raise (KeyError "stores"), w)
    | Some table =>
        match unmarshal_stores registry table w with
        | (Raise e, wa) => (Raise e, wa)
        | (Ok stores_, wa) =>
            match _unmarshal_canals_components data wa with
            | (Raise e, wb) => (Raise e, wb)
            | (Ok components, wb) =>
                match for_each (dict_values (doc_pipelines data))
                        (reconnect_stores stores_ components) wb with
                | (Raise e, wc) => (Raise e, wc)
                | (Ok _, wc) => _unmarshal_canals_pipelines data components wc
                end
            end
        end
    end.
Proof.
  unfold unmarshal_pipelines, bind. destruct (doc_stores data) as [table|]; [|done].
  simpl. destruct (unmarshal_stores registry table w) as [[stores_|e] wa]; [|done].
  destruct (_unmarshal_canals_components data wa) as [[components|e] wb]; [|done].
  by destruct (for_each _ _ wb) as [[[]|e] wc].
Qed.

(** C5. A document with a connection that names a store absent from the
    table of stores, or a component absent from the table of components:
    [unmarshal_pipelines] raises and returns no pipelines. When the stores
    have been rebuilt and every section has its connections table, the
    exception is the [KeyError] of a connection whose store or component is
    missing. *)
Theorem unmarshal_pipelines_dangling_binding (data : Document) (w : World)
    (pd : PipelineData) (sc : loc) (conns : list (string * string))
    (cname sname : string) :
  pd ∈ dict_values (doc_pipelines data) →
  store_connections pd = Some sc →
  dicts w !! sc = Some conns →
  (cname, sname) ∈ conns →
  (∀ table, doc_stores data = Some table → dict_get table sname = None) ∨
  dict_get (doc_components data) cname = None →
  ∃ e w',
    unmarshal_pipelines registry data w = (Raise e, w') ∧
    ∀ table,
      doc_stores data = Some table →
      is_ok (unmarshal_stores registry table w).1 = true →
      (∀ pd', pd' ∈ dict_values (doc_pipelines data) →
         ∃ sc' conns', store_connections pd' = Some sc' ∧ dicts w !! sc' = Some conns') →
      ∃ pd' sc' conns' cname' sname',
        pd' ∈ dict_values (doc_pipelines data) ∧
        store_connections pd' = Some sc' ∧
        dicts w !! sc' = Some conns' ∧
        (cname', sname') ∈ conns' ∧
        (e = KeyError sname' ∧ dict_get table sname' = None ∨
         e = KeyError cname' ∧ dict_get (doc_components data) cname' = None).
Proof.
  intros Hpd Hsc Hconns Hitem Hdangling. rewrite unmarshal_pipelines_run.
  destruct (doc_stores data) as [table|]; [|by eexists _, _].
  pose proof (unmarshal_stores_spec registry table w) as Hstores. unfold wp in Hstores.
  destruct (unmarshal_stores registry table w) as [[stores_|e] wa] eqn:Hrun; cycle 1.
  { eexists _, _. split; [done|]. intros ? [= <-]. by rewrite Hrun. }
  destruct Hstores as (_ & Hda & _ & _ & Hskeys & _).
  pose proof (unmarshal_canals_components_spec data wa) as Hcomps. unfold wp in Hcomps.
  destruct (_unmarshal_canals_components data wa) as [[components|e] wb]; [|done].
  destruct Hcomps as (_ & Hdb & _ & Hckeys & Halloc).
  pose proof (reconnect_all_spec stores_ components
                (dict_values (doc_pipelines data)) wb Halloc) as Hloop.
  unfold wp in Hloop.
  assert (dicts wb = dicts w) as Hd by congruence.
  destruct (for_each _ _ wb) as [[[]|e] wc].
  - exfalso. destruct Hloop as (_ & Hres & _).
    destruct (Hres pd Hpd) as (sc' & conns' & Hsc' & Hconns' & Hall).
    rewrite Hsc in Hsc'. injection Hsc' as <-.
    rewrite Hd, Hconns in Hconns'. injection Hconns' as <-.
    destruct (Hall _ Hitem) as [Hs Hc]. simpl in *.
    destruct Hdangling as [Hnone|Hnone].
    + apply Hskeys in Hs. rewrite (Hnone table eq_refl) in Hs. by destruct Hs.
    + apply Hckeys in Hc. rewrite Hnone in Hc. by destruct Hc.
  - eexists _, _. split; [done|].
    intros table' [= <-] _ Hsections.
    destruct Hloop as (pd' & Hpd' & Herr).
    destruct (Hsections pd' Hpd') as (sc' & conns' & Hsc' & Hconns').
    unfold section_error in Herr. rewrite Hsc', Hd, Hconns' in Herr.
    destruct Herr as ([cname' sname'] & Hitem' & Herr).
    exists pd', sc', conns', cname', sname'. split_and!; try done.
    destruct Herr as [[-> Hnone]|[-> Hnone]]; simpl in *; [left|right]; split; try done.
    + destruct (dict_get table sname') eqn:Ht; [|done].
      assert (is_Some (dict_get stores_ sname')) as [? Hs]; [|congruence].
      apply Hskeys. by rewrite Ht.
    + destruct (dict_get (doc_components data) cname') eqn:Ht; [|done].
      assert (is_Some (dict_get components cname')) as [? Hs]; [|congruence].
      apply Hckeys. by rewrite Ht.
Qed.

End unmarshal_claims.

Lemma unmarshal_pipelines_dangling_binding_witness :
  dicts dangling_world !! 1%positive = Some [("A", "missing")] ∧
  ∃ e w',
    unmarshal_pipelines memory_registry dangling_document dangling_world = (Raise e, w').
Proof.
  split; [vm_compute; reflexivity|].
  destruct (unmarshal_pipelines_dangling_binding memory_registry dangling_document
              dangling_world dangling_section 1%positive [("A", "missing")] "A" "missing")
    as (e & w' & Hrun & _).
  - left.
  - reflexivity.
  - vm_compute; reflexivity.
  - left.
  - left. intros table [= <-]. reflexivity.
  - by exists e, w'.
Defined.

(** * Further properties of the code *)

(** ** The store table of a pipeline *)

Section dict_keys_facts.
Context {K V : Type} `{!EqDecision K}.
Implicit Types (d : list (K * V)) (k : K) (v : V).

Lemma dict_keys_set d k v :
  dict_keys (dict_set d k v)
  = if dict_in k d then dict_keys d else (dict_keys d ++ [k])%list.
Proof.
  unfold dict_keys, dict_in. induction d as [|[k' v'] d IH]; csimpl; [done|].
  destruct (decide (k = k')) as [->|Hne]; csimpl; [done|].
  rewrite IH. by destruct (dict_get d k).
Qed.

Lemma dict_keys_set_NoDup d k v : NoDup (dict_keys d) → NoDup (dict_keys (dict_set d k v)).
Proof.
  intros Hd. rewrite dict_keys_set. destruct (dict_in k d) eqn:Hin; [done|].
  apply NoDup_app. split_and!; [done| |apply NoDup_singleton].
  intros x Hx ->%list_elem_of_singleton.
  apply dict_in_false, dict_get_None_keys in Hin. done.
Qed.
End dict_keys_facts.

(** X1. [add_document_store] refuses an object that the [@document_store]
    decorator has not marked: it raises [NotADocumentStoreError] with the
    class name in the message, and the store table is not touched (no object
    is). *)
Theorem add_document_store_rejects_undecorated (w : World) (self : loc) (name : string)
    (store : loc) (s : DocumentStore) :
  stores w !! store = Some s →
  haystack_document_store s = false →
  add_document_store self name store w
  = (Raise (NotADocumentStoreError
              ("'" +:+ store_type s +:+ "' is not decorated with @document_store, "
               +:+ "so it can't be added to the pipeline with Pipeline.add_document_store().")),
     w).
Proof.
  intros Hs Hmark. unfold add_document_store, bind, read_store, raise_if.
  by rewrite Hs, Hmark.
Qed.

Lemma add_document_store_rejects_undecorated_witness :
  stores plain_object_world !! 2%positive = Some plain_object ∧
  (add_document_store 1%positive "store" 2%positive plain_object_world).2 = plain_object_world ∧
  is_ok (add_document_store 1%positive "store" 2%positive plain_object_world).1 = false.
Proof.
  split; [vm_compute; reflexivity|].
  rewrite (add_document_store_rejects_undecorated plain_object_world 1%positive "store"
             2%positive plain_object).
  - split; reflexivity.
  - vm_compute; reflexivity.
  - reflexivity.
Defined.

Lemma add_document_store_run w self name store s p :
  stores w !! store = Some s →
  haystack_document_store s = true →
  pipes w !! self = Some p →
  add_document_store self name store w
  = (Ok (), {| stores := stores w; comps := comps w; dicts := dicts w;
               pipes := <[self := {| _document_stores_connections :=
                                        _document_stores_connections p;
                                      _document_stores :=
                                        dict_set (_document_stores p) name store;
                                      graph := graph p |}]> (pipes w) |}).
Proof.
  intros Hs Hmark Hp. unfold add_document_store, bind, read_store, raise_if, read_pipe.
  rewrite Hs, Hmark. simpl. by rewrite Hp.
Qed.

(** X2. After [add_document_store(name, store)] has returned,
    [get_document_store(name)] returns that very instance, also when the name
    was registered before with another instance; the lookup of every other
    name gives what it gave before. *)
Theorem get_document_store_after_add (w : World) (self : loc) (name : string)
    (store : loc) (s : DocumentStore) (p : Pipeline) :
  stores w !! store = Some s →
  haystack_document_store s = true →
  pipes w !! self = Some p →
  ∃ w',
    add_document_store self name store w = (Ok (), w') ∧
    get_document_store self name w' = (Ok store, w') ∧
    ∀ name', name' ≠ name →
      (get_document_store self name' w').1 = (get_document_store self name' w).1.
Proof.
  intros Hs Hmark Hp. eexists. split; [by eapply add_document_store_run|].
  unfold get_document_store, bind, read_pipe. simpl.
  rewrite lookup_insert_eq, Hp. simpl. rewrite dict_get_set_eq. split; [done|].
  intros name' Hne. rewrite dict_get_set_ne by done.
  by destruct (dict_get (_document_stores p) name').
Qed.

Lemma get_document_store_after_add_witness :
  ∃ w',
    add_document_store 1%positive "store" 2%positive two_retrievers_world = (Ok (), w') ∧
    get_document_store 1%positive "store" w' = (Ok 2%positive, w') ∧
    ∀ name', name' ≠ "store" →
      (get_document_store 1%positive name' w').1
      = (get_document_store 1%positive name' two_retrievers_world).1.
Proof.
  apply (get_document_store_after_add two_retrievers_world 1%positive "store" 2%positive
           (memory_store 2)
           {| _document_stores_connections := 1%positive;
              _document_stores := [("store", 1%positive); ("other", 2%positive)];
              graph := [("retriever", 1%positive)] |}).
  - vm_compute; reflexivity.
  - reflexivity.
  - vm_compute; reflexivity.
Defined.

(** X3. A pipeline that [Pipeline.__init__] has just built has no document
    store: [list_document_stores] returns the empty list and
    [get_document_store] raises [NoSuchDocumentStoreError] for every name. Its
    connections table is a new, empty dictionary object, shared with no
    pipeline that existed before, and the pipelines and dictionaries that
    existed are not touched. *)
Theorem Pipeline_init_no_stores (w : World) :
  ∃ self w' p,
    Pipeline_init w = (Ok self, w') ∧
    pipes w !! self = None ∧
    pipes w' !! self = Some p ∧
    graph p = [] ∧
    dicts w !! _document_stores_connections p = None ∧
    dicts w' !! _document_stores_connections p = Some [] ∧
    list_document_stores self w' = (Ok [], w') ∧
    (∀ name,
       get_document_store self name w'
       = (Raise (NoSuchDocumentStoreError
                   ("No DocumentStore named '" +:+ name +:+ "' was added to this pipeline.")),
          w')) ∧
    pipes w ⊆ pipes w' ∧ dicts w ⊆ dicts w'.
Proof.
  eexists _, _, _. split; [reflexivity|]. simpl.
  assert (pipes w !! fresh (dom (pipes w)) = None) as Hp
    by apply not_elem_of_dom, is_fresh.
  assert (dicts w !! fresh (dom (dicts w)) = None) as Hd
    by apply not_elem_of_dom, is_fresh.
  split; [done|]. split; [apply lookup_insert_eq|]. simpl.
  split; [done|]. split; [done|]. split; [apply lookup_insert_eq|].
  unfold list_document_stores, get_document_store, bind, read_pipe. simpl.
  rewrite lookup_insert_eq. simpl.
  split_and!; [done|done|by apply insert_subseteq|by apply insert_subseteq].
Qed.

(** X4. [list_document_stores] gives the names in the order of their first
    registration: a successful [add_document_store] of a new name appends it
    to the list, and registering a name again leaves the list as it was. *)
Theorem list_document_stores_after_add (w : World) (self : loc) (name : string)
    (store : loc) (s : DocumentStore) (names : list string) :
  stores w !! store = Some s →
  haystack_document_store s = true →
  list_document_stores self w = (Ok names, w) →
  ∃ w',
    add_document_store self name store w = (Ok (), w') ∧
    list_document_stores self w'
    = (Ok (if bool_decide (name ∈ names) then names else (names ++ [name])%list), w').
Proof.
  intros Hs Hmark Hlist. unfold list_document_stores, bind, read_pipe in Hlist.
  destruct (pipes w !! self) as [p|] eqn:Hp; [|done]. injection Hlist as <-.
  eexists. split; [by eapply add_document_store_run|].
  unfold list_document_stores, bind, read_pipe. simpl. rewrite lookup_insert_eq. simpl.
  rewrite dict_keys_set. unfold ret. do 2 f_equal.
  destruct (dict_in name (_document_stores p)) eqn:Hin.
  - rewrite bool_decide_true; [done|]. by apply dict_get_keys, dict_in_true.
  - rewrite bool_decide_false; [done|]. by apply dict_get_None_keys, dict_in_false.
Qed.

Lemma list_document_stores_after_add_witness :
  ∃ w',
    add_document_store 1%positive "third" 2%positive two_retrievers_world = (Ok (), w') ∧
    list_document_stores 1%positive w' = (Ok ["store"; "other"; "third"], w').
Proof.
  apply (list_document_stores_after_add two_retrievers_world 1%positive "third" 2%positive
           (memory_store 2) ["store"; "other"]).
  - vm_compute; reflexivity.
  - reflexivity.
  - vm_compute; reflexivity.
Defined.

(** ** add_component: the other outcomes *)

Section add_component_outcomes.
Variables (w : World) (self instance : loc) (name : string).
Variables (p : Pipeline) (c : Component).
Hypothesis Hself : pipes w !! self = Some p.
Hypothesis Hinstance : comps w !! instance = Some c.

(** X5. A store-aware component that holds no store, added with no
    [document_store] name (or with the empty name): the call raises the
    [ValueError] "needs a DocumentStore" and changes no object. *)
Theorem add_component_needs_store (doc_store : option string) :
  store_aware c = true →
  document_store c = None →
  truthy doc_store = false →
  add_component self name instance doc_store w
  = (Raise (ValueError (needs_store_msg name)), w).
Proof using Hinstance.
  intros Haware Hnone Hfalsy. rewrite (add_component_unfold w self instance name c Hinstance), Haware.
  unfold bind_document_store, bind, read_comp, raise_if.
  rewrite Hinstance, Hfalsy, Hnone. reflexivity.
Qed.

(** X6. A store-aware component that holds no store, added with the name of
    a store that the pipeline does not have: the call raises
    [NoSuchDocumentStoreError] and changes no object; in particular the
    component stays unbound. *)
Theorem add_component_unknown_store (ds : string) :
  store_aware c = true →
  document_store c = None →
  ds ≠ "" →
  dict_get (_document_stores p) ds = None →
  add_component self name instance (Some ds) w
  = (Raise (NoSuchDocumentStoreError (not_found_msg ds)), w).
Proof using Hself Hinstance.
  intros Haware Hnone Hds Hmissing. rewrite (add_component_unfold w self instance name c Hinstance), Haware.
  unfold bind_document_store, bind, read_comp, raise_if, read_pipe.
  rewrite Hinstance, Hnone. simpl.
  rewrite (bool_decide_false (ds = "")) by done. simpl.
  by rewrite Hself, Hmissing.
Qed.

(** X7. A store-aware component that holds no store, added under a new
    component name with the name of a registered store: the call returns,
    the connections table maps the component name to the store name, the
    component holds the very instance registered under that name and
    remembers the name, and the graph has the component under its name. The
    store table, the stores and the other components are as before. *)
Theorem add_component_binds (ds : string) (store : loc) (conns : list (string * string)) :
  store_aware c = true →
  document_store c = None →
  ds ≠ "" →
  dict_get (_document_stores p) ds = Some store →
  dicts w !! _document_stores_connections p = Some conns →
  dict_in name (graph p) = false →
  canals_component c = true →
  ∃ w',
    add_component self name instance (Some ds) w = (Ok (), w') ∧
    dicts w' !! _document_stores_connections p = Some (dict_set conns name ds) ∧
    comps w' !! instance
    = Some {| store_aware := true; canals_component := true;
              document_store := Some store; _document_store_name := Some ds |} ∧
    pipes w' !! self
    = Some {| _document_stores_connections := _document_stores_connections p;
              _document_stores := _document_stores p;
              graph := dict_set (graph p) name instance |} ∧
    stores w' = stores w ∧
    (∀ l, l ≠ instance → comps w' !! l = comps w !! l).
Proof using Hself Hinstance.
  intros Haware Hnone Hds Hstore Hconns Hnew Hcomp.
  rewrite (add_component_unfold w self instance name c Hinstance), Haware.
  rewrite (bind_document_store_run w self instance name p c Hself Hinstance _ conns false
             Hconns) by (by rewrite Hnone).
  simpl. rewrite (bool_decide_false (ds = "")) by done.
  rewrite Hstore. simpl.
  erewrite (canals_add_component_run self instance name p);
    [|exact Hself|unfold bound_world; simpl; apply lookup_insert_eq].
  rewrite Hnew. simpl. rewrite Hcomp.
  eexists. split; [reflexivity|]. unfold registered_world, bound_world. simpl.
  rewrite !lookup_insert_eq, Haware, Hcomp. split_and!; try done.
  intros l Hl. by rewrite lookup_insert_ne.
Qed.
End add_component_outcomes.

Lemma add_component_needs_store_witness :
  add_component 1%positive "reader" 2%positive None two_retrievers_world
  = (Raise (ValueError (needs_store_msg "reader")), two_retrievers_world).
Proof.
  refine (add_component_needs_store two_retrievers_world 1%positive 2%positive "reader"
            retriever _ None _ _ _).
  - vm_compute; reflexivity.
  - reflexivity.
  - reflexivity.
  - reflexivity.
Defined.

Lemma add_component_unknown_store_witness :
  add_component 1%positive "reader" 2%positive (Some "missing") two_retrievers_world
  = (Raise (NoSuchDocumentStoreError (not_found_msg "missing")), two_retrievers_world).
Proof.
  refine (add_component_unknown_store two_retrievers_world 1%positive 2%positive "reader"
            {| _document_stores_connections := 1%positive;
               _document_stores := [("store", 1%positive); ("other", 2%positive)];
               graph := [("retriever", 1%positive)] |}
            retriever _ _ "missing" _ _ _ _).
  - vm_compute; reflexivity.
  - vm_compute; reflexivity.
  - reflexivity.
  - reflexivity.
  - discriminate.
  - reflexivity.
Defined.

Lemma add_component_binds_witness :
  ∃ w',
    add_component 1%positive "reader" 2%positive (Some "other") two_retrievers_world
    = (Ok (), w') ∧
    dicts w' !! 1%positive = Some [("retriever", "store"); ("reader", "other")] ∧
    comps w' !! 2%positive
    = Some {| store_aware := true; canals_component := true;
              document_store := Some 2%positive; _document_store_name := Some "other" |}.
Proof.
  destruct (add_component_binds two_retrievers_world 1%positive 2%positive "reader"
              {| _document_stores_connections := 1%positive;
                 _document_stores := [("store", 1%positive); ("other", 2%positive)];
                 graph := [("retriever", 1%positive)] |}
              retriever) with (ds := "other") (store := 2%positive)
              (conns := [("retriever", "store")])
    as (w' & Hrun & Hconns & Hcomp & _).
  - vm_compute; reflexivity.
  - vm_compute; reflexivity.
  - reflexivity.
  - reflexivity.
  - discriminate.
  - reflexivity.
  - vm_compute; reflexivity.
  - reflexivity.
  - reflexivity.
  - exists w'. split; [exact Hrun|]. split; [exact Hconns|exact Hcomp].
Defined.

(** ** What the two methods leave alone *)

Lemma same_store_tables_refl w : same_store_tables w w.
Proof. done. Qed.

Lemma canals_add_component_same_store_tables w0 self name instance w :
  same_store_tables w0 w →
  wp (canals_add_component self name instance)
    (λ _, same_store_tables w0) (λ _, same_store_tables w0) w.
Proof.
  intros Hw. unfold canals_add_component.
  apply wp_bind, wp_read_pipe. destruct (pipes w !! self) as [p|] eqn:Hself; [|done].
  wp_skip. intros _. wp_skip. intros c. wp_skip. intros _.
  eapply wp_run_ok; [reflexivity|]. destruct Hw as [Hs Hp].
  split; [done|]. simpl. intros l. rewrite <- !(proj1 (Hp l)), <- !(proj2 (Hp l)).
  destruct (decide (self = l)) as [<-|Hne].
  - by rewrite lookup_insert_eq, Hself.
  - by rewrite lookup_insert_ne.
Qed.

Lemma reads_truth_of_store o : reads (truth_of_store o).
Proof.
  destruct o as [l|]; [|apply reads_ret].
  apply reads_bind; [apply reads_read_store|]. intros s. apply reads_ret.
Qed.

Lemma reads_already_connected self name doc_store c :
  reads (if truthy doc_store then
           held <- truth_of_store (document_store c) ;;
           if held : bool then
             p <- read_pipe self ;;
             conns <- read_dict (_document_stores_connections p) ;;
             conn <- getitem conns name ;;
             raise (ValueError (already_connected_msg name conn))
           else ret ()
         else ret ()).
Proof.
  destruct (truthy doc_store); [|apply reads_ret].
  apply reads_bind; [apply reads_truth_of_store|]. intros [|]; [|apply reads_ret].
  apply reads_bind; [auto with reads|]. intros p.
  apply reads_bind; [auto with reads|]. intros conns.
  apply reads_bind; auto with reads.
Qed.

Lemma reads_needs_store name doc_store c :
  reads (if negb (truthy doc_store) then
           held <- truth_of_store (document_store c) ;;
           raise_if (negb held) (ValueError (needs_store_msg name))
         else ret ()).
Proof.
  destruct (negb (truthy doc_store)); [|apply reads_ret].
  apply reads_bind; [apply reads_truth_of_store|]. intros held. auto with reads.
Qed.

Lemma bind_document_store_same_store_tables w0 self name instance doc_store w :
  same_store_tables w0 w →
  wp (bind_document_store self name instance doc_store)
    (λ _, same_store_tables w0) (λ _, same_store_tables w0) w.
Proof.
  intros Hw. unfold bind_document_store.
  wp_skip. intros c.
  apply wp_bind, wp_reads; [apply reads_already_connected| |done]. intros _.
  apply wp_bind, wp_reads; [apply reads_needs_store| |done]. intros _.
  wp_skip. intros p.
  destruct doc_store as [ds|]; [|done].
  destruct (dict_get (_document_stores p) ds) as [store|]; [|done].
  apply wp_bind, wp_reads; [apply reads_truth_of_store| |done]. intros held.
  destruct (negb held); [|done].
  wp_skip. intros conns.
  apply wp_bind. eapply wp_run_ok; [reflexivity|].
  wp_skip. intros c1.
  apply wp_bind. eapply wp_run_ok; [reflexivity|].
  wp_skip. intros c2.
  by eapply wp_run_ok; [reflexivity|].
Qed.

Lemma add_component_wp_same_store_tables w0 self name instance doc_store w :
  same_store_tables w0 w →
  wp (add_component self name instance doc_store)
    (λ _, same_store_tables w0) (λ _, same_store_tables w0) w.
Proof.
  intros Hw. unfold add_component. wp_skip. intros c.
  apply wp_bind.
  eapply (wp_mono _ (λ _, same_store_tables w0) _ (λ _, same_store_tables w0)); [| |done].
  - destruct (store_aware c).
    + by apply bind_document_store_same_store_tables.
    + by apply wp_reads; [auto with reads|..].
  - intros ? w1 Hw1. by apply canals_add_component_same_store_tables.
Qed.

(** X8. [add_component] never changes which stores a pipeline has: whatever
    the arguments, and whether the call returns or raises, every store
    object is as before and every pipeline keeps its store table and its
    connections dictionary object. So [get_document_store] and
    [list_document_stores] answer after the call, on any pipeline, what they
    answered before. *)
Theorem add_component_same_store_tables (w : World) (self : loc) (name : string)
    (instance : loc) (doc_store : option string) :
  same_store_tables w (add_component self name instance doc_store w).2 ∧
  (∀ l n, (get_document_store l n (add_component self name instance doc_store w).2).1
          = (get_document_store l n w).1) ∧
  (∀ l, (list_document_stores l (add_component self name instance doc_store w).2).1
        = (list_document_stores l w).1).
Proof.
  pose proof (add_component_wp_same_store_tables w self name instance doc_store w
                (same_store_tables_refl w)) as Hwp.
  assert (same_store_tables w (add_component self name instance doc_store w).2) as Hsame.
  { unfold wp in Hwp. by destruct (add_component _ _ _ _ w) as [[[]|e] w']. }
  split; [done|]. destruct Hsame as [_ Hpipes].
  split.
  - intros l n. specialize (Hpipes l) as [Ht _].
    unfold get_document_store, bind, read_pipe.
    destruct (pipes (add_component self name instance doc_store w).2 !! l) as [p1|],
      (pipes w !! l) as [p0|]; simplify_eq/=; [|done].
    rewrite Ht. by destruct (dict_get (_document_stores p0) n).
  - intros l. specialize (Hpipes l) as [Ht _].
    unfold list_document_stores, bind, read_pipe.
    destruct (pipes (add_component self name instance doc_store w).2 !! l) as [p1|],
      (pipes w !! l) as [p0|]; simplify_eq/=; [|done].
    by rewrite Ht.
Qed.

(** X9. [add_document_store] touches nothing but the store table of its own
    pipeline: whether it returns or raises, the stores, the components and
    the connection dictionaries are as before, every other pipeline is as
    before, and the pipeline keeps its graph and its connections dictionary
    object. In particular a component bound earlier under the name keeps the
    instance it was given. *)
Theorem add_document_store_same_components (w : World) (self : loc) (name : string)
    (store : loc) :
  same_components w (add_document_store self name store w).2 self.
Proof.
  unfold add_document_store, bind, read_store, raise_if, read_pipe.
  destruct (stores w !! store) as [s|]; [|done].
  destruct (haystack_document_store s); simpl; [|done].
  destruct (pipes w !! self) as [p|] eqn:Hself; [|done].
  unfold same_components. simpl. split_and!; try done.
  - intros l Hne. by rewrite lookup_insert_ne.
  - by rewrite lookup_insert_eq, Hself.
  - by rewrite lookup_insert_eq, Hself.
Qed.

(** ** An invariant of the two methods *)

Lemma add_document_store_registered w self name store :
  connections_registered w self →
  connections_registered (add_document_store self name store w).2 self.
Proof.
  intros (p & conns & Hself & Hconns & Hreg).
  unfold add_document_store, bind, read_store, raise_if, read_pipe.
  destruct (stores w !! store) as [s|]; [|by exists p, conns].
  destruct (haystack_document_store s); simpl; [|by exists p, conns].
  rewrite Hself. unfold connections_registered. simpl.
  eexists _, conns. rewrite lookup_insert_eq. simpl.
  split_and!; [done..|]. intros n rn Hn. simpl.
  rewrite dict_get_set. destruct (decide (name = rn)); [done|]. by eapply Hreg.
Qed.

Lemma canals_add_component_registered self name instance w :
  connections_registered w self →
  wp (canals_add_component self name instance)
    (λ _ w', connections_registered w' self) (λ _ w', connections_registered w' self) w.
Proof.
  intros Hw. unfold canals_add_component.
  apply wp_bind, wp_read_pipe. destruct (pipes w !! self) as [p|] eqn:Hself; [|done].
  wp_skip. intros _. wp_skip. intros c. wp_skip. intros _.
  eapply wp_run_ok; [reflexivity|].
  destruct Hw as (p' & conns & ? & Hconns & Hreg). simplify_eq.
  unfold connections_registered. simpl.
  eexists _, conns. by rewrite lookup_insert_eq.
Qed.

Lemma bind_document_store_registered self name instance doc_store w :
  connections_registered w self →
  wp (bind_document_store self name instance doc_store)
    (λ _ w', connections_registered w' self) (λ _ w', connections_registered w' self) w.
Proof.
  intros Hw. unfold bind_document_store.
  wp_skip. intros c.
  apply wp_bind, wp_reads; [apply reads_already_connected| |done]. intros _.
  apply wp_bind, wp_reads; [apply reads_needs_store| |done]. intros _.
  apply wp_bind, wp_read_pipe. destruct (pipes w !! self) as [p|] eqn:Hself; [|done].
  destruct doc_store as [ds|]; [|done].
  destruct (dict_get (_document_stores p) ds) as [store|] eqn:Hds; [|done].
  apply wp_bind, wp_reads; [apply reads_truth_of_store| |done]. intros held.
  destruct (negb held); [|done].
  apply wp_bind, wp_read_dict.
  destruct (dicts w !! _document_stores_connections p) as [conns|] eqn:Hconns; [|done].
  apply wp_bind. eapply wp_run_ok; [reflexivity|].
  assert (connections_registered
            (write_dict (_document_stores_connections p) (dict_set conns name ds) w).2 self) as Hw'.
  { exists p, (dict_set conns name ds). simpl. rewrite lookup_insert_eq.
    split_and!; [done..|]. intros n rn. rewrite dict_get_set.
    destruct (decide (name = n)); [by intros [= <-]; rewrite Hds|].
    destruct Hw as (p' & conns' & ? & ? & Hreg). simplify_eq. apply Hreg. }
  wp_skip. intros c1.
  apply wp_bind. eapply wp_run_ok; [reflexivity|].
  assert (∀ c', connections_registered
            (write_comp instance c' (write_dict (_document_stores_connections p)
               (dict_set conns name ds) w).2).2 self) as Hw'' by done.
  apply wp_bind, wp_reads; [auto with reads| |intros; apply Hw''].
  intros c2. by eapply wp_run_ok; [reflexivity|].
Qed.

Lemma add_component_registered self name instance doc_store w :
  connections_registered w self →
  connections_registered (add_component self name instance doc_store w).2 self.
Proof.
  intros Hw.
  assert (wp (add_component self name instance doc_store)
            (λ _ w', connections_registered w' self)
            (λ _ w', connections_registered w' self) w) as Hwp.
  { unfold add_component. wp_skip. intros c. apply wp_bind.
    eapply (wp_mono _ (λ _ w', connections_registered w' self) _
              (λ _ w', connections_registered w' self)); [| |done].
    - destruct (store_aware c).
      + by apply bind_document_store_registered.
      + by apply wp_reads; [auto with reads|..].
    - intros ? w1 Hw1. by apply canals_add_component_registered. }
  unfold wp in Hwp. by destruct (add_component _ _ _ _ w) as [[[]|e] w'].
Qed.

Lemma Pipeline_init_registered w :
  ∃ self w', Pipeline_init w = (Ok self, w') ∧ connections_registered w' self.
Proof.
  eexists _, _. split; [reflexivity|]. eexists _, []. simpl.
  split_and!; [apply lookup_insert_eq|simpl; apply lookup_insert_eq|done].
Qed.

(** X10. Every connection names a registered store, and no sequence of calls
    breaks it: if each name that the connections table of a pipeline
    records is a key of its store table, then the same holds after any
    script of [add_document_store] and [add_component] calls on the
    pipeline, whatever their arguments and whether they return or raise (a
    call that raises is caught and the script goes on). So looking up the
    store of a recorded connection with [get_document_store] never raises. *)
Theorem connections_registered_preserved (w : World) (self : loc) (os : list op) :
  connections_registered w self →
  connections_registered (run_ops self os w) self ∧
  ∀ p conns name rn,
    pipes (run_ops self os w) !! self = Some p →
    dicts (run_ops self os w) !! _document_stores_connections p = Some conns →
    dict_get conns name = Some rn →
    ∃ store, get_document_store self rn (run_ops self os w)
             = (Ok store, run_ops self os w).
Proof.
  intros Hw.
  assert (connections_registered (run_ops self os w) self) as Hfinal.
  { revert w Hw. induction os as [|o os IH]; intros w Hw; [done|].
    simpl. apply IH. destruct o; simpl.
    - by apply add_document_store_registered.
    - by apply add_component_registered. }
  split; [done|]. intros p conns name rn Hp Hconns Hrn.
  destruct Hfinal as (p' & conns' & Hp' & Hconns' & Hreg).
  assert (p' = p) as -> by congruence. assert (conns' = conns) as -> by congruence.
  destruct (Hreg name rn Hrn) as [store Hstore]. exists store.
  unfold get_document_store, bind, read_pipe. rewrite Hp. simpl. by rewrite Hstore.
Qed.

Lemma connections_registered_preserved_witness :
  connections_registered new_pipeline_world 1%positive ∧
  connections_registered (run_ops 1%positive mixed_script new_pipeline_world) 1%positive.
Proof.
  assert (connections_registered new_pipeline_world 1%positive) as Hnew.
  { eexists _, []. split_and!; [reflexivity..|]. intros ? ? [=]. }
  split; [exact Hnew|].
  exact (proj1 (connections_registered_preserved new_pipeline_world 1%positive
                  mixed_script Hnew)).
Defined.

(** ** The loops of marshal_pipelines *)

(** X11. The collision loop always terminates, with the first unused name: on
    every table [marshalled_stores] it returns, without touching the heap,
    the first of [store_name], [store_name_0], [store_name_1], ... that is
    not a key of the table. It goes round at most once per key of the
    table, and it returns [store_name] itself when that name is unused. *)
Theorem unique_name_least_unused (store_name : string)
    (marshalled_stores : list (string * StoreData)) (w : World) :
  ∃ n, unique_name store_name marshalled_stores w = (Ok (candidate store_name n), w) ∧
       dict_in (candidate store_name n) marshalled_stores = false ∧
       (∀ j, j < n → dict_in (candidate store_name j) marshalled_stores = true) ∧
       n ≤ length marshalled_stores ∧
       (dict_in store_name marshalled_stores = false → n = 0).
Proof.
  destruct (unique_name_loop_returns (length marshalled_stores) store_name 0
              marshalled_stores w) as (n & Hrun & Hfree & Hused); [intros; lia|lia|].
  exists n. split_and!; try done.
  - by apply (candidates_bound store_name).
  - intros Hname. destruct n as [|n]; [done|].
    specialize (Hused 0 ltac:(lia)). simpl in Hused. congruence.
Qed.

Section rename_connections_facts.
Variables (sc : loc) (store_name unique_store_name : string).

Lemma dict_set_middle {V} (pre post : list (string * V)) k v v' :
  k ∉ pre.*1 →
  dict_set (pre ++ (k, v) :: post)%list k v' = (pre ++ (k, v') :: post)%list.
Proof.
  induction pre as [|[k0 v0] pre IH]; csimpl; intros Hk.
  - by rewrite decide_True.
  - rewrite decide_False by (intros ->; apply Hk; left).
    f_equal. apply IH. intros Hin. apply Hk. by right.
Qed.

Lemma renamed_keys conns : (renamed store_name unique_store_name conns).*1 = conns.*1.
Proof. unfold renamed. rewrite <- list_fmap_compose. by apply list_fmap_ext. Qed.

Lemma with_dict_id w l d : dicts w !! l = Some d → with_dict w l d = w.
Proof. intros Hl. destruct w. unfold with_dict. simpl in *. by rewrite insert_id. Qed.

Lemma rename_loop_run pre post w :
  dicts w !! sc = Some (renamed store_name unique_store_name pre ++ post)%list →
  NoDup ((pre ++ post)%list).*1 →
  for_each post (λ item : string * string,
    if bool_decide (item.2 = store_name) then
      d <- read_dict sc ;;
      write_dict sc (dict_set d item.1 unique_store_name)
    else ret ()) w
  = (Ok (), with_dict w sc (renamed store_name unique_store_name (pre ++ post)%list)).
Proof.
  revert pre w. induction post as [|[k v] post IH]; intros pre w Hsc Hnodup.
  - simpl. rewrite app_nil_r in *. by rewrite with_dict_id.
  - cbn [for_each]. unfold bind at 1. simpl.
    assert (renamed store_name unique_store_name (pre ++ (k, v) :: post)%list
            = renamed store_name unique_store_name ((pre ++ [(k, v)]) ++ post)%list) as Heq.
    { by rewrite <- app_assoc. }
    destruct (bool_decide (v = store_name)) eqn:Hv.
    + unfold bind at 1, read_dict. rewrite Hsc. simpl.
      rewrite dict_set_middle; cycle 1.
      { rewrite renamed_keys. rewrite fmap_app in Hnodup.
        apply NoDup_app in Hnodup as (_ & Hdisj & _). intros Hk. apply (Hdisj k Hk).
        simpl. left. }
      rewrite (IH (pre ++ [(k, v)])%list).
      * rewrite Heq. unfold with_dict. simpl. by rewrite insert_insert_eq.
      * simpl. rewrite lookup_insert_eq. f_equal. unfold renamed.
        rewrite fmap_app, <- app_assoc. simpl. by rewrite Hv.
      * by rewrite <- app_assoc.
    + unfold ret at 1. rewrite (IH (pre ++ [(k, v)])%list).
      * by rewrite Heq.
      * rewrite Hsc. f_equal. unfold renamed.
        rewrite fmap_app, <- app_assoc. simpl. by rewrite Hv.
      * by rewrite <- app_assoc.
Qed.
End rename_connections_facts.

(** X12. The renaming loop rewrites the copy of the connections table in
    place: every connection whose store is [store_name] names
    [unique_store_name] afterwards, the other connections, the keys and
    their order are as before, and nothing else in the heap changes. The
    loop never raises. *)
Theorem rename_connections_renames (w : World) (sc : loc)
    (store_name unique_store_name : string) (conns : list (string * string)) :
  dicts w !! sc = Some conns →
  NoDup (dict_keys conns) →
  rename_connections sc store_name unique_store_name w
  = (Ok (), with_dict w sc (renamed store_name unique_store_name conns)).
Proof.
  intros Hsc Hnodup. unfold rename_connections, bind at 1, read_dict. rewrite Hsc.
  by apply (rename_loop_run sc store_name unique_store_name []).
Qed.

Lemma rename_connections_renames_witness :
  dicts (rename_connections 1%positive "store" "store_0" rename_world).2 !! 1%positive
  = Some [("A", "store_0"); ("B", "other"); ("C", "store_0")].
Proof.
  rewrite (rename_connections_renames rename_world 1%positive "store" "store_0"
             [("A", "store"); ("B", "other"); ("C", "store")]).
  - reflexivity.
  - reflexivity.
  - unfold dict_keys. simpl. apply (bool_decide_unpack _). reflexivity.
Defined.

(** ** When marshal_pipelines returns *)

Lemma marshal_pipeline_count pipelines item acc w :
  hashless acc.2 → length acc.2 ≤ 1 →
  wp (marshal_pipeline pipelines item acc)
    (λ r w', hashless r.2 ∧ length r.2 ≤ 1 ∧ pipes w' = pipes w ∧
             length r.2 = length acc.2 + store_count w [item])
    (λ _ _, True) w.
Proof.
  intros Hms Hlen. unfold marshal_pipeline.
  apply wp_bind, wp_getitem. destruct (dict_get pipelines item.1) as [pl|]; [|done].
  apply wp_bind, wp_read_pipe. destruct (pipes w !! pl) as [p0|]; [|done].
  apply wp_bind, wp_read_dict.
  destruct (dicts w !! _document_stores_connections p0) as [conns|]; [|done].
  apply wp_bind. eapply wp_run_ok; [reflexivity|].
  apply wp_bind, wp_read_pipe. simpl.
  destruct (pipes w !! item.2) as [p|] eqn:Hp; [|done].
  apply wp_bind. eapply wp_mono; [by apply marshal_stores_spec| |done].
  intros ms w' (-> & Hms' & Hlen' & Hcount).
  apply wp_bind, wp_getitem. destruct (dict_get acc.1 item.1) as [section|]; [|done].
  apply wp_ret. simpl. split_and!; [done..|].
  unfold store_count. simpl. lia.
Qed.

Lemma marshal_pipelines_count pipelines w :
  wp (marshal_pipelines pipelines)
    (λ doc w', ∃ table, doc_stores doc = Some table ∧
                        length table = store_count w pipelines ∧ length table ≤ 1)
    (λ _ _, True) w.
Proof.
  unfold marshal_pipelines. apply wp_bind.
  eapply wp_mono; [apply marshal_canals_pipelines_sections| |done].
  intros canals w1 [-> _]. apply wp_bind.
  eapply wp_mono;
    [apply (wp_fold_m_prefix _ _
       (λ pre acc w1, pipes w1 = pipes w ∧ hashless acc.2 ∧ length acc.2 ≤ 1 ∧
                      length acc.2 = store_count w pre) (λ _ _, True))| |done].
  - intros pre item post acc w1 _ (Hpipes & Hms & Hlen & Hcount).
    eapply wp_mono; [by apply marshal_pipeline_count| |done].
    intros r w' (Hms' & Hlen' & Hpipes' & Hcount'). split_and!; [congruence|done..|].
    unfold store_count in *. rewrite sum_list_with_app, Hcount', Hcount.
    simpl. by rewrite Hpipes.
  - split_and!; [done|apply hashless_nil|simpl; lia|done].
  - intros [secs ms] w1 (_ & _ & Hlen & Hcount). apply wp_ret. by exists ms.
Qed.

(** X13. [marshal_pipelines] raises whenever the pipelines register two
    stores or more between them, counting every entry of every store table:
    two different stores, one store in two pipelines or under two names all
    make it raise. When it does return, the table of stores of the document
    has one entry per registration, so at most one. *)
Theorem marshal_pipelines_two_stores_raise (pipelines : list (string * loc)) (w : World) :
  (2 ≤ store_count w pipelines → is_ok (marshal_pipelines pipelines w).1 = false) ∧
  (∀ doc, (marshal_pipelines pipelines w).1 = Ok doc →
     ∃ table, doc_stores doc = Some table ∧ length table = store_count w pipelines).
Proof.
  pose proof (marshal_pipelines_count pipelines w) as Hwp. unfold wp in Hwp.
  destruct (marshal_pipelines pipelines w) as [[doc|e] w']; simpl.
  - destruct Hwp as (table & Htable & Hcount & Hlen). split; [lia|].
    intros ? [= <-]. by exists table.
  - done.
Qed.

Lemma marshal_pipelines_two_stores_raise_witness :
  store_count name_collision_world two_pipelines = 2 ∧
  is_ok (marshal_pipelines two_pipelines name_collision_world).1 = false.
Proof.
  assert (store_count name_collision_world two_pipelines = 2) as Hcount
    by (vm_compute; reflexivity).
  split; [exact Hcount|].
  apply (proj1 (marshal_pipelines_two_stores_raise two_pipelines name_collision_world)).
  rewrite Hcount. lia.
Defined.

(** X14. In every document that [marshal_pipelines] returns, the section of
    each pipeline carries a copy of the pipeline's connections table as it
    stands: a dictionary object other than the live table, with the same
    connections, none of them renamed. *)
Theorem marshal_pipelines_copies_connections (pipelines : list (string * loc))
    (w : World) (doc : Document) (w' : World) (n : string) (pl : loc) (p : Pipeline)
    (conns : list (string * string)) :
  marshal_pipelines pipelines w = (Ok doc, w') →
  dict_get pipelines n = Some pl →
  pipes w !! pl = Some p →
  dicts w !! _document_stores_connections p = Some conns →
  ∃ pd sc,
    dict_get (doc_pipelines doc) n = Some pd ∧
    store_connections pd = Some sc ∧
    sc ≠ _document_stores_connections p ∧
    dicts w' !! sc = Some conns ∧
    dicts w' !! _document_stores_connections p = Some conns.
Proof.
  intros Hrun Hpl Hp Hconns.
  destruct (wp_run _ _ _ _ _ _ (marshal_pipelines_spec pipelines w) Hrun)
    as (table & _ & Hframe & _ & _ & _ & Hdone & _ & Hsecs). simpl in *.
  assert (n ∈ pipelines.*1) as Hn by (apply dict_get_keys; by rewrite Hpl).
  destruct (Hdone n Hn) as [pd Hpd].
  destruct (Hsecs n pd Hpd Hn) as (sc & Hsc & Hnew & _ & Hcopy).
  exists pd, sc. split_and!; [done..| | |].
  - intros ->. congruence.
  - by eapply Hcopy.
  - destruct Hframe as (_ & _ & _ & Hdicts). by eapply lookup_weaken.
Qed.

Lemma marshal_pipelines_copies_connections_witness :
  ∃ pd sc,
    dict_get (doc_pipelines round_trip_document) "p" = Some pd ∧
    store_connections pd = Some sc ∧
    sc ≠ 1%positive ∧
    dicts round_trip_marshalled.2 !! sc = Some [("A", "store"); ("B", "store")] ∧
    dicts round_trip_marshalled.2 !! 1%positive = Some [("A", "store"); ("B", "store")].
Proof.
  assert (marshal_pipelines one_pipeline shared_store_world
          = (Ok round_trip_document, round_trip_marshalled.2)) as Hrun
    by (vm_compute; reflexivity).
  assert (pipes shared_store_world !! 1%positive
          = Some {| _document_stores_connections := 1%positive;
                    _document_stores := [("store", 1%positive)];
                    graph := [("A", 1%positive); ("B", 2%positive)] |}) as Hp
    by (vm_compute; reflexivity).
  refine (marshal_pipelines_copies_connections one_pipeline shared_store_world
            round_trip_document round_trip_marshalled.2 "p" 1%positive _
            [("A", "store"); ("B", "store")] Hrun _ Hp _); reflexivity.
Defined.

(** ** A pipeline with one store *)

Lemma marshal_canals_components_run g acc w :
  (∀ item : string * loc, item ∈ g → is_Some (comps w !! item.2)) →
  ∃ cs, fold_m g marshal_canals_component acc w = (Ok cs, w).
Proof.
  revert acc. induction g as [|item g IH]; intros acc Hg; simpl.
  - by eexists.
  - destruct (Hg item) as [c Hc]; [left|].
    unfold bind at 1, marshal_canals_component at 1, bind at 1, read_comp. rewrite Hc.
    simpl. apply IH. intros item' Hitem'. apply Hg. by right.
Qed.

(** X15. A single pipeline with one store is marshalled: when the pipeline,
    its connections table, its store and the components of its graph are
    in the heap, [marshal_pipelines] returns a document whose table of
    stores has one entry, the serialized store without its ["hash"] key
    under the name the pipeline gives it, and whose section for the pipeline
    carries a copy of the connections table. *)
Theorem marshal_pipelines_single_store (w : World) (name : string) (pl : loc)
    (p : Pipeline) (conns : list (string * string)) (store_name : string)
    (store : loc) (s : DocumentStore) :
  pipes w !! pl = Some p →
  dicts w !! _document_stores_connections p = Some conns →
  _document_stores p = [(store_name, store)] →
  stores w !! store = Some s →
  (∀ item : string * loc, item ∈ graph p → is_Some (comps w !! item.2)) →
  ∃ doc w' pd sc,
    marshal_pipelines [(name, pl)] w = (Ok doc, w') ∧
    doc_stores doc = Some [(store_name, dict_del (to_dict s) "hash")] ∧
    doc_pipelines doc = [(name, pd)] ∧
    store_connections pd = Some sc ∧
    dicts w' !! sc = Some conns.
Proof.
  intros Hp Hconns Htable Hs Hgraph.
  assert (wp (marshal_pipelines [(name, pl)])
            (λ doc w', ∃ pd sc,
               doc_stores doc = Some [(store_name, dict_del (to_dict s) "hash")] ∧
               doc_pipelines doc = [(name, pd)] ∧
               store_connections pd = Some sc ∧
               dicts w' !! sc = Some conns)
            (λ _ _, False) w) as Hwp.
  { unfold marshal_pipelines, marshal_canals_pipelines. cbn [fold_m].
    apply wp_bind, wp_bind. unfold marshal_canals_pipeline.
    apply wp_bind, wp_read_pipe. simpl. rewrite Hp.
    destruct (marshal_canals_components_run (graph p) [] w Hgraph) as [cs Hcs].
    apply wp_bind. eapply wp_run_ok; [exact Hcs|]. apply wp_ret, wp_ret. simpl.
    apply wp_bind, wp_bind. unfold marshal_pipeline. simpl.
    apply wp_bind, wp_getitem. simpl. rewrite decide_True by done.
    apply wp_bind, wp_read_pipe. rewrite Hp.
    apply wp_bind, wp_read_dict. rewrite Hconns.
    apply wp_bind. eapply wp_run_ok; [reflexivity|].
    apply wp_bind, wp_read_pipe. simpl. rewrite Hp, Htable. cbn [fold_m].
    apply wp_bind, wp_bind. unfold marshal_store.
    apply wp_bind, wp_read_store. simpl. rewrite Hs.
    apply wp_bind, wp_ret. apply wp_bind, wp_getitem. simpl.
    apply wp_bind. eapply wp_run_ok; [apply unique_name_nil|].
    rewrite bool_decide_false by (by intros H; apply H).
    apply wp_bind, wp_ret, wp_ret, wp_ret.
    apply wp_bind, wp_getitem. simpl. rewrite decide_True by done.
    apply wp_ret, wp_ret, wp_ret. simpl. rewrite decide_True by done.
    eexists _, _. split_and!; [done..|]. apply lookup_insert_eq. }
  unfold wp in Hwp.
  destruct (marshal_pipelines [(name, pl)] w) as [[doc|e] w']; [|done].
  destruct Hwp as (pd & sc & H). by exists doc, w', pd, sc.
Qed.

Lemma marshal_pipelines_single_store_witness :
  ∃ doc w' pd sc,
    marshal_pipelines one_pipeline shared_store_world = (Ok doc, w') ∧
    doc_stores doc
    = Some [("store", dict_del (to_dict (memory_store 1)) "hash")] ∧
    doc_pipelines doc = [("p", pd)] ∧
    store_connections pd = Some sc ∧
    dicts w' !! sc = Some [("A", "store"); ("B", "store")].
Proof.
  assert (pipes shared_store_world !! 1%positive
          = Some {| _document_stores_connections := 1%positive;
                    _document_stores := [("store", 1%positive)];
                    graph := [("A", 1%positive); ("B", 2%positive)] |}) as Hp
    by (vm_compute; reflexivity).
  assert (dicts shared_store_world !! 1%positive
          = Some [("A", "store"); ("B", "store")]) as Hconns
    by (vm_compute; reflexivity).
  assert (stores shared_store_world !! 1%positive = Some (memory_store 1)) as Hs
    by (vm_compute; reflexivity).
  assert (is_Some (comps shared_store_world !! 1%positive)) as Hc1
    by (eexists; vm_compute; reflexivity).
  assert (is_Some (comps shared_store_world !! 2%positive)) as Hc2
    by (eexists; vm_compute; reflexivity).
  refine (marshal_pipelines_single_store shared_store_world "p" 1%positive _
            [("A", "store"); ("B", "store")] "store" 1%positive (memory_store 1)
            Hp Hconns eq_refl Hs _).
  cbn [graph]. intros item Hitem.
  apply elem_of_cons in Hitem as [->|Hitem]; [exact Hc1|].
  apply elem_of_cons in Hitem as [->|Hitem]; [exact Hc2|].
  apply elem_of_nil in Hitem. destruct Hitem.
Defined.

(** ** The stores that unmarshal_pipelines rebuilds *)

Lemma dict_set_fresh {V} (d : list (string * V)) k v :
  k ∉ d.*1 → dict_set d k v = (d ++ [(k, v)])%list.
Proof.
  induction d as [|[k0 v0] d IH]; csimpl; intros Hk; [done|].
  rewrite decide_False by (intros ->; apply Hk; left).
  f_equal. apply IH. intros Hin. apply Hk. by right.
Qed.

Section unmarshal_stores_facts.
Variable registry : list (string * (StoreData → result DocumentStore)).

Lemma unmarshal_store_run item acc w :
  wp (unmarshal_store registry item acc)
    (λ r w', ∃ t cls s l,
       dict_get item.2 "type" = Some (VStr t) ∧ dict_get registry t = Some cls ∧
       cls item.2 = Ok s ∧ stores w !! l = None ∧
       w' = with_store w l s ∧ r = dict_set acc item.1 l)
    (λ _ w', w' = w) w.
Proof.
  unfold unmarshal_store.
  apply wp_bind, wp_getitem. destruct (dict_get item.2 "type") as [ty|]; [|done].
  apply wp_bind. destruct ty as [z|t|ps]; [done| |done].
  apply wp_getitem. destruct (dict_get registry t) as [cls|] eqn:Hcls; [|done].
  apply wp_bind. unfold wp at 1, lift. destruct (cls item.2) as [s|e] eqn:Hs; [|done].
  apply wp_bind.
  apply (wp_run_ok _ (fresh (dom (stores w))) (with_store w (fresh (dom (stores w))) s));
    [done|].
  apply wp_ret. eexists t, cls, s, _. split_and!; [done..| |done|done].
  apply not_elem_of_dom, is_fresh.
Qed.

Lemma unmarshal_stores_registered table w :
  wp (unmarshal_stores registry table)
    (λ _ w', (comps w' = comps w ∧ dicts w' = dicts w ∧ pipes w' = pipes w) ∧
       ∀ item : string * StoreData, item ∈ table →
         ∃ t cls s, dict_get item.2 "type" = Some (VStr t) ∧
                    dict_get registry t = Some cls ∧ cls item.2 = Ok s)
    (λ _ w', comps w' = comps w ∧ dicts w' = dicts w ∧ pipes w' = pipes w) w.
Proof.
  unfold unmarshal_stores.
  apply (wp_fold_m_prefix _ _
    (λ pre _ w', (comps w' = comps w ∧ dicts w' = dicts w ∧ pipes w' = pipes w) ∧
       ∀ item : string * StoreData, item ∈ pre →
         ∃ t cls s, dict_get item.2 "type" = Some (VStr t) ∧
                    dict_get registry t = Some cls ∧ cls item.2 = Ok s)).
  - intros pre item post acc w1 _ [Hframe Hpre].
    eapply wp_mono; [apply unmarshal_store_run| |by intros ? ? ->].
    intros r w' (t & cls & s & l & Hty & Hcls & Hs & _ & -> & _). split; [done|].
    intros item' [Hin| ->%list_elem_of_singleton]%elem_of_app; [by apply Hpre|].
    by exists t, cls, s.
  - split; [done|]. intros item Hitem. by apply elem_of_nil in Hitem.
Qed.

Lemma unmarshal_stores_content table w :
  NoDup table.*1 →
  wp (unmarshal_stores registry table)
    (λ stores_ w', stores_.*1 = table.*1 ∧
       ∀ item : string * StoreData, item ∈ table →
         ∃ t cls s l,
           dict_get item.2 "type" = Some (VStr t) ∧ dict_get registry t = Some cls ∧
           cls item.2 = Ok s ∧ dict_get stores_ item.1 = Some l ∧
           stores w !! l = None ∧ stores w' !! l = Some s)
    (λ _ _, True) w.
Proof.
  intros Hnodup. unfold unmarshal_stores.
  eapply wp_mono;
    [apply (wp_fold_m_prefix _ _
       (λ pre stores_ w', stores w ⊆ stores w' ∧ stores_.*1 = pre.*1 ∧
          ∀ item : string * StoreData, item ∈ pre →
            ∃ t cls s l,
              dict_get item.2 "type" = Some (VStr t) ∧ dict_get registry t = Some cls ∧
              cls item.2 = Ok s ∧ dict_get stores_ item.1 = Some l ∧
              stores w !! l = None ∧ stores w' !! l = Some s) (λ _ _, True))| |done].
  - intros pre item post acc w1 Hsplit (Hsub & Hkeys & Hpre).
    assert (item.1 ∉ pre.*1) as Hnew.
    { rewrite Hsplit, fmap_app in Hnodup.
      apply NoDup_app in Hnodup as (_ & Hdisj & _). intros Hin. apply (Hdisj _ Hin).
      simpl. left. }
    eapply wp_mono; [apply unmarshal_store_run| |done].
    intros r w' (t & cls & s & l & Hty & Hcls & Hs & Hl & -> & ->).
    rewrite dict_set_fresh by (by rewrite Hkeys). split_and!.
    + simpl. etrans; [done|]. by apply insert_subseteq.
    + by rewrite !fmap_app, Hkeys.
    + intros item' [Hin| ->%list_elem_of_singleton]%elem_of_app.
      * destruct (Hpre item' Hin) as (t' & cls' & s' & l' & ? & ? & ? & Hget & ? & Hl').
        exists t', cls', s', l'. split_and!; [done..| |done|].
        -- rewrite dict_get_snoc. by rewrite Hget.
        -- simpl. rewrite lookup_insert_ne; [done|]. intros <-. congruence.
      * exists t, cls, s, l. split_and!; [done..| | |].
        -- rewrite dict_get_snoc.
           destruct (dict_get acc item.1) eqn:Hget; [|by rewrite decide_True].
           exfalso. apply Hnew. rewrite <- Hkeys. apply dict_get_keys. by rewrite Hget.
        -- by eapply lookup_weaken_None.
        -- simpl. apply lookup_insert_eq.
  - split_and!; [done..|]. intros item Hitem. by apply elem_of_nil in Hitem.
  - intros stores_ w' (_ & Hkeys & Hall). done.
Qed.

(** X16. The loop over [data["stores"]] rebuilds every store from its own
    entry: when it returns, the table it has built has the names of the
    document's table in the same order, and under each name a new store
    object that is what [from_dict] of the class registered under the entry's
    type tag returns for that entry. *)
Theorem unmarshal_stores_rebuilds (table : list (string * StoreData)) (w : World)
    (stores_ : list (string * loc)) (w' : World) :
  NoDup (dict_keys table) →
  unmarshal_stores registry table w = (Ok stores_, w') →
  dict_keys stores_ = dict_keys table ∧
  ∀ n sd, dict_get table n = Some sd →
    ∃ t cls s l,
      dict_get sd "type" = Some (VStr t) ∧ dict_get registry t = Some cls ∧
      cls sd = Ok s ∧ dict_get stores_ n = Some l ∧
      stores w !! l = None ∧ stores w' !! l = Some s.
Proof.
  intros Hnodup Hrun.
  destruct (wp_run _ _ _ _ _ _ (unmarshal_stores_content table w Hnodup) Hrun)
    as [Hkeys Hall].
  split; [done|]. intros n sd Hn.
  by apply (Hall (n, sd)), dict_get_Some_elem.
Qed.

(** X17. A store whose type tag has no class in the registry makes
    [unmarshal_pipelines] raise, and this before anything else is built: no
    component and no pipeline has been created or changed when the exception
    leaves the function. The same holds for an entry without a type tag. *)
Theorem unmarshal_pipelines_unregistered_type (data : Document) (w : World)
    (table : list (string * StoreData)) (n : string) (sd : StoreData) :
  doc_stores data = Some table →
  (n, sd) ∈ table →
  (∀ t, dict_get sd "type" = Some (VStr t) → dict_get registry t = None) →
  ∃ e w',
    unmarshal_pipelines registry data w = (Raise e, w') ∧
    comps w' = comps w ∧ pipes w' = pipes w ∧ dicts w' = dicts w.
Proof.
  intros Htable Hin Htype. rewrite unmarshal_pipelines_run, Htable.
  pose proof (unmarshal_stores_registered table w) as Hwp. unfold wp in Hwp.
  destruct (unmarshal_stores registry table w) as [[stores_|e] wa].
  - destruct Hwp as [_ Hall].
    destruct (Hall _ Hin) as (t & cls & s & Hty & Hcls & _). simpl in *.
    rewrite (Htype t Hty) in Hcls. done.
  - exists e, wa. by destruct Hwp as (? & ? & ?).
Qed.
End unmarshal_stores_facts.

Lemma unmarshal_stores_rebuilds_witness :
  NoDup (dict_keys two_stores_table) ∧
  ∃ stores_ w',
    unmarshal_stores memory_registry two_stores_table empty_world = (Ok stores_, w') ∧
    dict_keys stores_ = dict_keys two_stores_table ∧
    ∀ n sd, dict_get two_stores_table n = Some sd →
      ∃ t cls s l,
        dict_get sd "type" = Some (VStr t) ∧ dict_get memory_registry t = Some cls ∧
        cls sd = Ok s ∧ dict_get stores_ n = Some l ∧
        stores empty_world !! l = None ∧ stores w' !! l = Some s.
Proof.
  assert (unmarshal_stores memory_registry two_stores_table empty_world
          = (Ok [("first", 1%positive); ("second", 2%positive)], two_stores_rebuilt.2))
    as Hrun by (vm_compute; reflexivity).
  assert (NoDup (dict_keys two_stores_table)) as Hnodup.
  { apply (bool_decide_unpack _). vm_compute. reflexivity. }
  split; [exact Hnodup|]. eexists _, _. split; [exact Hrun|].
  exact (unmarshal_stores_rebuilds memory_registry two_stores_table empty_world _ _
           Hnodup Hrun).
Defined.

Lemma unmarshal_pipelines_unregistered_type_witness :
  ∃ e w',
    unmarshal_pipelines memory_registry unknown_type_document empty_world = (Raise e, w') ∧
    comps w' = comps empty_world ∧ pipes w' = pipes empty_world ∧
    dicts w' = dicts empty_world.
Proof.
  refine (unmarshal_pipelines_unregistered_type memory_registry unknown_type_document
            empty_world _ "store"
            [("type", VStr "FAISSDocumentStore"); ("init_parameters", VParams [])]
            eq_refl _ _).
  - left.
  - intros t [= <-]. reflexivity.
Defined.

(** ** unmarshal_pipelines builds new objects only *)

Lemma extends_refl w : extends w w.
Proof. by repeat split. Qed.

Section unmarshal_frame.
Variable registry : list (string * (StoreData → result DocumentStore)).
Variable w : World.

Lemma unmarshal_stores_extends table w1 :
  extends w w1 →
  wp (unmarshal_stores registry table) (λ _, extends w) (λ _, extends w) w1.
Proof.
  intros Hw1. unfold unmarshal_stores.
  apply (wp_fold_m _ _ (λ _, extends w)); [|done].
  intros item acc w2 _ Hw2.
  eapply wp_mono; [apply unmarshal_store_spec| |by intros ? ? ->].
  intros r w' (l & s & Hl & -> & _). destruct Hw2 as (Hs & Hc & Hd & Hp).
  repeat split; simpl; try done. etrans; [done|]. by apply insert_subseteq.
Qed.

Lemma unmarshal_canals_components_extends data w1 :
  extends w w1 →
  wp (_unmarshal_canals_components data)
    (λ components w', extends w w' ∧
       ∀ n l, dict_get components n = Some l → comps w !! l = None)
    (λ _, extends w) w1.
Proof.
  intros Hw1. unfold _unmarshal_canals_components.
  apply (wp_fold_m _ _
    (λ components w', extends w w' ∧
       ∀ n l, dict_get components n = Some l → comps w !! l = None)); [|done].
  intros item acc w2 _ [(Hs & Hc & Hd & Hp) Hnew].
  unfold unmarshal_canals_component. apply wp_bind.
  eapply wp_run_ok; [reflexivity|]. apply wp_ret.
  assert (comps w2 !! fresh (dom (comps w2)) = None) as Hfresh
    by apply not_elem_of_dom, is_fresh.
  split.
  - repeat split; simpl; try done. etrans; [done|]. by apply insert_subseteq.
  - intros n l. rewrite dict_get_set. destruct (decide (item.1 = n)); [|by eauto].
    intros [= <-]. by eapply lookup_weaken_None.
Qed.

Lemma reconnect_extends stores_ components item w1 :
  (∀ n l, dict_get components n = Some l → comps w !! l = None) →
  extends w w1 →
  wp (reconnect stores_ components item) (λ _, extends w) (λ _, extends w) w1.
Proof.
  intros Hnew Hw1. unfold reconnect.
  wp_skip. intros store.
  apply wp_bind, wp_getitem.
  destruct (dict_get components item.1) as [comp|] eqn:Hcomp; [|done].
  wp_skip. intros c.
  eapply wp_run_ok; [reflexivity|]. destruct Hw1 as (Hs & Hc & Hd & Hp).
  repeat split; simpl; try done.
  apply insert_subseteq_r; [|done]. by eapply Hnew.
Qed.

Lemma reconnect_all_extends stores_ components pds w1 :
  (∀ n l, dict_get components n = Some l → comps w !! l = None) →
  extends w w1 →
  wp (for_each pds (reconnect_stores stores_ components))
    (λ _, extends w) (λ _, extends w) w1.
Proof.
  intros Hnew Hw1. apply (wp_for_each _ _ (extends w)); [|done].
  intros pd w2 _ Hw2. unfold reconnect_stores.
  apply wp_bind. destruct (store_connections pd) as [sc|]; [|done].
  apply wp_ret. wp_skip. intros items.
  apply (wp_for_each _ _ (extends w)); [|done].
  intros item w3 _ Hw3. by apply reconnect_extends.
Qed.

Lemma canals_add_component_extends self name instance w1 :
  pipes w !! self = None →
  extends w w1 →
  wp (canals_add_component self name instance) (λ _, extends w) (λ _, extends w) w1.
Proof.
  intros Hself Hw1. unfold canals_add_component.
  wp_skip. intros p. wp_skip. intros _. wp_skip. intros c. wp_skip. intros _.
  eapply wp_run_ok; [reflexivity|]. destruct Hw1 as (Hs & Hc & Hd & Hp).
  repeat split; simpl; try done. by apply insert_subseteq_r.
Qed.

Lemma Pipeline_init_extends w1 :
  extends w w1 →
  wp Pipeline_init (λ pl w', extends w w' ∧ pipes w !! pl = None) (λ _, extends w) w1.
Proof.
  intros (Hs & Hc & Hd & Hp). unfold wp, Pipeline_init, bind, alloc_dict, alloc_pipe.
  simpl.
  assert (pipes w1 !! fresh (dom (pipes w1)) = None) as Hfresh
    by apply not_elem_of_dom, is_fresh.
  split; [|by eapply lookup_weaken_None].
  repeat split; simpl; try done.
  - etrans; [done|]. apply insert_subseteq, not_elem_of_dom, is_fresh.
  - etrans; [done|]. by apply insert_subseteq.
Qed.

Lemma unmarshal_canals_pipelines_extends data components w1 :
  extends w w1 →
  wp (_unmarshal_canals_pipelines data components) (λ _, extends w) (λ _, extends w) w1.
Proof.
  intros Hw1. unfold _unmarshal_canals_pipelines.
  apply (wp_fold_m _ _ (λ _, extends w)); [|done].
  intros item acc w2 _ Hw2. unfold unmarshal_canals_pipeline.
  apply wp_bind. eapply wp_mono; [by apply Pipeline_init_extends| |done].
  intros pl w3 [Hw3 Hpl]. apply wp_bind.
  eapply wp_mono; [apply (wp_for_each _ _ (extends w) (λ _, extends w))| |done].
  - intros name w4 _ Hw4. wp_skip. intros c.
    by apply canals_add_component_extends.
  - done.
  - intros ? w4 Hw4. by apply wp_ret.
Qed.

(** X18. [unmarshal_pipelines] builds new objects and leaves the live ones
    alone: whether it returns or raises, every store, component, dictionary
    and pipeline that existed before the call exists after it with the
    content it had. The store pointers that the reconnection loop assigns go
    to components that the call itself has built. *)
Theorem unmarshal_pipelines_extends (data : Document) :
  extends w (unmarshal_pipelines registry data w).2.
Proof.
  assert (wp (unmarshal_pipelines registry data) (λ _, extends w) (λ _, extends w) w)
    as Hwp.
  { unfold unmarshal_pipelines. apply wp_bind.
    destruct (doc_stores data) as [table|]; [|apply extends_refl].
    apply wp_ret, wp_bind.
    eapply wp_mono; [apply unmarshal_stores_extends, extends_refl| |done].
    intros stores_ wa Hwa. apply wp_bind.
    eapply wp_mono; [by apply unmarshal_canals_components_extends| |done].
    intros components wb [Hwb Hnew]. apply wp_bind.
    eapply wp_mono; [by apply reconnect_all_extends| |done].
    intros ? wc Hwc. by apply unmarshal_canals_pipelines_extends. }
  unfold wp in Hwp. by destruct (unmarshal_pipelines registry data w) as [[r|e] w'].
Qed.
End unmarshal_frame.

(** ** unmarshal_pipelines on a document that can be loaded *)

Lemma wp_for_each_prefix {A} (xs : list A) (body : A → M unit)
    (I : list A → World → Prop) R w :
  (∀ pre x post w, xs = (pre ++ x :: post)%list → I pre w →
     wp (body x) (λ _, I (pre ++ [x])%list) R w) →
  I [] w → wp (for_each xs body) (λ _, I xs) R w.
Proof.
  intros Hbody. cut (∀ pre post w, xs = (pre ++ post)%list → I pre w →
                       wp (for_each post body) (λ _, I xs) R w).
  { intros H. by apply (H [] xs). }
  intros pre post. revert pre. induction post as [|x post IH]; intros pre w0 Hxs HI.
  - simpl. apply wp_ret. by rewrite Hxs, app_nil_r.
  - simpl. apply wp_bind. eapply wp_mono; [by eapply Hbody| |done].
    intros ? w' HI'. apply (IH (pre ++ [x])%list); [|done]. by rewrite <-app_assoc.
Qed.

Section loading.
Variable registry : list (string * (StoreData → result DocumentStore)).

Lemma unmarshal_store_returns item acc w :
  loadable registry item.2 = true →
  wp (unmarshal_store registry item acc) (λ _ _, True) (λ _ _, False) w.
Proof.
  unfold loadable, unmarshal_store, wp, bind, getitem, lift.
  destruct (dict_get item.2 "type") as [[z|t|ps]|]; try done.
  simpl. destruct (dict_get registry t) as [cls|] eqn:Hcls; [|done]. simpl.
  by destruct (cls item.2).
Qed.

Lemma unmarshal_stores_loads table w :
  NoDup table.*1 →
  Forall (λ item : string * StoreData, loadable registry item.2 = true) table →
  ∃ stores_ wa,
    unmarshal_stores registry table w = (Ok stores_, wa) ∧
    comps wa = comps w ∧ dicts wa = dicts w ∧ pipes wa = pipes w ∧
    stores w ⊆ stores wa ∧
    stores_.*1 = table.*1 ∧
    (∀ n1 n2 l, dict_get stores_ n1 = Some l → dict_get stores_ n2 = Some l → n1 = n2) ∧
    (∀ item : string * StoreData, item ∈ table →
       ∃ t cls s l,
         dict_get item.2 "type" = Some (VStr t) ∧ dict_get registry t = Some cls ∧
         cls item.2 = Ok s ∧ dict_get stores_ item.1 = Some l ∧
         stores w !! l = None ∧ stores wa !! l = Some s).
Proof.
  intros Hnodup Hload.
  assert (wp (unmarshal_stores registry table) (λ _ _, True) (λ _ _, False) w) as Hok.
  { unfold unmarshal_stores. apply (wp_fold_m _ _ (λ _ _, True)); [|done].
    intros item acc w1 Hitem _. apply unmarshal_store_returns.
    by apply (proj1 (Forall_forall _ _) Hload). }
  pose proof (unmarshal_stores_spec registry table w) as Hspec.
  pose proof (unmarshal_stores_content registry table w Hnodup) as Hcontent.
  unfold wp in Hok, Hspec, Hcontent.
  destruct (unmarshal_stores registry table w) as [[stores_|e] wa]; [|done].
  destruct Hspec as (Hc & Hd & Hp & Hs & _ & Hinj & _).
  destruct Hcontent as [Hkeys Hall].
  by exists stores_, wa.
Qed.

Lemma unmarshal_canals_components_loads data wa :
  ∃ components wb,
    _unmarshal_canals_components data wa = (Ok components, wb) ∧
    stores wb = stores wa ∧ dicts wb = dicts wa ∧ pipes wb = pipes wa ∧
    comps wa ⊆ comps wb ∧
    (∀ n, is_Some (dict_get components n) ↔ is_Some (dict_get (doc_components data) n)) ∧
    (∀ n1 n2 l, dict_get components n1 = Some l → dict_get components n2 = Some l →
                n1 = n2) ∧
    (∀ n l, dict_get components n = Some l →
       comps wa !! l = None ∧
       ∃ c, comps wb !! l = Some c ∧ canals_component c = true).
Proof.
  assert (wp (_unmarshal_canals_components data)
            (λ components wb,
               comps wa ⊆ comps wb ∧
               (∀ n1 n2 l, dict_get components n1 = Some l →
                           dict_get components n2 = Some l → n1 = n2) ∧
               (∀ n l, dict_get components n = Some l →
                  comps wa !! l = None ∧
                  ∃ c, comps wb !! l = Some c ∧ canals_component c = true))
            (λ _ _, False) wa) as Hnew.
  { unfold _unmarshal_canals_components.
    apply (wp_fold_m _ _
      (λ components wb,
         comps wa ⊆ comps wb ∧
         (∀ n1 n2 l, dict_get components n1 = Some l →
                     dict_get components n2 = Some l → n1 = n2) ∧
         (∀ n l, dict_get components n = Some l →
            comps wa !! l = None ∧
            ∃ c, comps wb !! l = Some c ∧ canals_component c = true))); [|done].
    intros item acc w1 _ (Hsub & Hinj & Halloc).
    unfold unmarshal_canals_component. apply wp_bind.
    eapply wp_run_ok; [reflexivity|]. apply wp_ret. simpl.
    set (l0 := fresh (dom (comps w1))).
    assert (comps w1 !! l0 = None) as Hfresh by apply not_elem_of_dom, is_fresh.
    assert (∀ n l, dict_get acc n = Some l → l ≠ l0) as Hold.
    { intros n l Hn ->. destruct (Halloc n l0 Hn) as (_ & c & Hc & _). congruence. }
    split_and!.
    - etrans; [done|]. by apply insert_subseteq.
    - intros n1 n2 l. rewrite !dict_get_set.
      destruct (decide (item.1 = n1)) as [<-|], (decide (item.1 = n2)) as [<-|];
        try done.
      + intros [= <-] Hn2. by destruct (Hold _ _ Hn2).
      + intros Hn1 [= <-]. by destruct (Hold _ _ Hn1).
      + apply Hinj.
    - intros n l. rewrite dict_get_set.
      destruct (decide (item.1 = n)) as [<-|].
      + intros [= <-]. split; [by eapply lookup_weaken_None|].
        eexists. by rewrite lookup_insert_eq.
      + intros Hn. destruct (Halloc n l Hn) as (Hnone & c & Hc & Hcanals).
        split; [done|]. exists c. split; [|done].
        rewrite lookup_insert_ne; [done|]. intros <-. by apply (Hold n l0). }
  pose proof (unmarshal_canals_components_spec data wa) as Hspec.
  unfold wp in Hnew, Hspec.
  destruct (_unmarshal_canals_components data wa) as [[components|e] wb]; [|done].
  destruct Hspec as (Hs & Hd & Hp & Hkeys & _).
  destruct Hnew as (Hsub & Hinj & Halloc).
  by exists components, wb.
Qed.
End loading.

Section reconnecting.
Variables (stores_ components : list (string * loc)).
Variables (w0 : World) (pds : list PipelineData) (every : list (string * string)).

Hypothesis Hevery : every = flat_map (λ pd, default [] (connections_of w0 pd)) pds.
Hypothesis Hinj :
  ∀ n1 n2 l, dict_get components n1 = Some l → dict_get components n2 = Some l → n1 = n2.
Hypothesis Hresolved :
  ∀ item : string * string, item ∈ every →
    is_Some (dict_get stores_ item.2) ∧ is_Some (dict_get components item.1).
Hypothesis Hconsistent :
  ∀ item : string * string, item ∈ every → dict_get every item.1 = Some item.2.
Hypothesis Hsections : ∀ pd, pd ∈ pds → is_Some (connections_of w0 pd).

Lemma reconnect_step done item w :
  (∀ item', item' ∈ done → item' ∈ every) → item ∈ every →
  reconnected_to stores_ components w0 done w →
  wp (reconnect stores_ components item)
    (λ _, reconnected_to stores_ components w0 (done ++ [item])%list) (λ _ _, False) w.
Proof using Hinj Hresolved Hconsistent.
  intros Hdone Hitem (Hs & Hd & Hp & Hother & Halloc & Hbound). unfold reconnect.
  destruct (Hresolved item Hitem) as [[store Hstore] [comp Hcomp]].
  apply wp_bind, wp_getitem. rewrite Hstore.
  apply wp_bind, wp_getitem. rewrite Hcomp.
  destruct (Halloc _ _ Hcomp) as (c & Hc & Hcanals).
  apply wp_bind, wp_read_comp. rewrite Hc.
  eapply wp_run_ok; [reflexivity|]. unfold reconnected_to. simpl.
  split_and!; [done..| | |].
  - intros l Hl. rewrite lookup_insert_ne; [by apply Hother|].
    intros <-. by apply (Hl item.1).
  - intros n l Hn. destruct (decide (comp = l)) as [<-|Hne].
    + rewrite lookup_insert_eq. by eexists.
    + rewrite lookup_insert_ne by done. by eapply Halloc.
  - intros item' [Hin| ->%list_elem_of_singleton]%elem_of_app.
    + destruct (Hbound item' Hin) as (instance & store' & c' & Hi & Hs' & Hc' & Hheld).
      destruct (decide (comp = instance)) as [<-|Hne].
      * assert (item'.1 = item.1) as Hname by (by eapply Hinj).
        assert (item'.2 = item.2) as Hsname.
        { pose proof (Hconsistent item' (Hdone _ Hin)) as H1.
          pose proof (Hconsistent item Hitem) as H2. congruence. }
        unfold bound_to. eexists comp, store, _. simpl. rewrite lookup_insert_eq.
        split_and!; [done|congruence|done|done].
      * exists instance, store', c'. simpl. by rewrite lookup_insert_ne.
    + unfold bound_to. eexists comp, store, _. simpl. rewrite lookup_insert_eq.
      by split_and!.
Qed.

Lemma reconnect_all_loads :
  (∀ n l, dict_get components n = Some l →
     ∃ c, comps w0 !! l = Some c ∧ canals_component c = true) →
  wp (for_each pds (reconnect_stores stores_ components))
    (λ _, reconnected_to stores_ components w0 every) (λ _ _, False) w0.
Proof using Hevery Hinj Hresolved Hconsistent Hsections.
  intros Halloc.
  set (conns_of := λ pd, default [] (connections_of w0 pd)) in *.
  rewrite Hevery.
  apply (wp_for_each_prefix _ _
    (λ pre, reconnected_to stores_ components w0 (flat_map conns_of pre))).
  - intros pre pd post w Hsplit Hpre.
    assert (∀ item, item ∈ flat_map conns_of pre → item ∈ every) as Hdone.
    { intros item. rewrite Hevery, Hsplit, flat_map_app, elem_of_app. auto. }
    assert (∀ item, item ∈ conns_of pd → item ∈ every) as Hpd.
    { intros item Hin. rewrite Hevery, Hsplit, flat_map_app, elem_of_app.
      right. simpl. apply elem_of_app. by left. }
    destruct (Hsections pd) as [conns Hconns].
    { rewrite Hsplit, elem_of_app. right. left. }
    assert (conns_of pd = conns) as Hconns_of by (unfold conns_of; by rewrite Hconns).
    rewrite Hconns_of in Hpd.
    unfold connections_of in Hconns. unfold reconnect_stores.
    destruct (store_connections pd) as [sc|]; [|done].
    apply wp_bind, wp_ret, wp_bind, wp_read_dict.
    destruct Hpre as (Hs & Hd & Hp & Hrest). rewrite Hd, Hconns.
    eapply wp_mono;
      [apply (wp_for_each_prefix _ _
         (λ pre', reconnected_to stores_ components w0
                    (flat_map conns_of pre ++ pre')%list) (λ _ _, False))
      | |done].
    + intros pre' item post' w' Hsplit' Hpre'. rewrite app_assoc.
      apply reconnect_step; [|apply Hpd; rewrite Hsplit', elem_of_app; right; left|done].
      intros item' [Hin|Hin]%elem_of_app; [by apply Hdone|].
      apply Hpd. rewrite Hsplit', elem_of_app. by left.
    + by rewrite app_nil_r.
    + intros ? w' Hw'. rewrite flat_map_app. simpl. by rewrite app_nil_r, Hconns_of.
  - unfold reconnected_to. simpl. split_and!; [done..|].
    intros item Hitem. by apply elem_of_nil in Hitem.
Qed.
End reconnecting.

Section assembling.
Variable components : list (string * loc).

Lemma rebuilt_graph_snoc names name l :
  dict_get components name = Some l →
  rebuilt_graph components (names ++ [name])
  = (rebuilt_graph components names ++ [(name, l)])%list.
Proof. intros Hl. unfold rebuilt_graph. rewrite omap_app. simpl. by rewrite Hl. Qed.

Lemma rebuilt_graph_keys_sub names name :
  name ∈ (rebuilt_graph components names).*1 → name ∈ names.
Proof.
  unfold rebuilt_graph. induction names as [|n names IH]; csimpl; [done|].
  destruct (dict_get components n) as [l|]; csimpl.
  - intros [->|Hin]%elem_of_cons; [left|right; auto].
  - intros Hin. right. auto.
Qed.

Lemma rebuilt_graph_keys names :
  (∀ name, name ∈ names → is_Some (dict_get components name)) →
  dict_keys (rebuilt_graph components names) = names.
Proof.
  unfold rebuilt_graph, dict_keys. induction names as [|n names IH]; intros Hnames; [done|].
  csimpl. destruct (Hnames n) as [l Hl]; [left|]. rewrite Hl. csimpl.
  f_equal. apply IH. intros name Hin. apply Hnames. by right.
Qed.

Lemma rebuilt_graph_get names name :
  name ∈ names → is_Some (dict_get components name) →
  dict_get (rebuilt_graph components names) name = dict_get components name.
Proof.
  unfold rebuilt_graph. intros Hin [l Hl].
  induction names as [|n names IH]; [by apply elem_of_nil in Hin|].
  csimpl. destruct (decide (name = n)) as [<-|Hne].
  - rewrite Hl. simpl. by rewrite decide_True.
  - apply elem_of_cons in Hin as [?|Hin]; [done|].
    destruct (dict_get components n); simpl; [rewrite decide_False by done|]; auto.
Qed.

Lemma assemble_nodes names pl w p0 :
  NoDup names →
  (∀ name, name ∈ names → is_Some (dict_get components name)) →
  (∀ n l, dict_get components n = Some l →
     ∃ c, comps w !! l = Some c ∧ canals_component c = true) →
  pipes w !! pl = Some p0 → graph p0 = [] →
  wp (for_each names (λ name,
        c <- getitem components name ;; canals_add_component pl name c))
    (λ _ w', stores w' = stores w ∧ comps w' = comps w ∧ dicts w' = dicts w ∧
             (∀ l, l ≠ pl → pipes w' !! l = pipes w !! l) ∧
             ∃ p', pipes w' !! pl = Some p' ∧
                   graph p' = rebuilt_graph components names)
    (λ _ _, False) w.
Proof.
  intros Hnodup Hnames Halloc Hpl Hempty.
  apply (wp_for_each_prefix _ _
    (λ pre w', stores w' = stores w ∧ comps w' = comps w ∧ dicts w' = dicts w ∧
               (∀ l, l ≠ pl → pipes w' !! l = pipes w !! l) ∧
               ∃ p', pipes w' !! pl = Some p' ∧
                     graph p' = rebuilt_graph components pre)).
  - intros pre name post w' Hsplit (Hs & Hc & Hd & Hother & p' & Hp' & Hgraph).
    destruct (Hnames name) as [l Hl]; [rewrite Hsplit, elem_of_app; right; left|].
    apply wp_bind, wp_getitem. rewrite Hl.
    destruct (Halloc _ _ Hl) as (c & Hcomp & Hcanals).
    assert (name ∉ pre) as Hnew.
    { rewrite Hsplit in Hnodup. apply NoDup_app in Hnodup as (_ & Hdisj & _).
      intros Hin. apply (Hdisj _ Hin). left. }
    assert (dict_in name (graph p') = false) as Hnode.
    { apply dict_in_false, dict_get_None_keys. rewrite Hgraph.
      intros Hin. by apply Hnew, rebuilt_graph_keys_sub. }
    eapply wp_run_ok.
    { rewrite (canals_add_component_run pl l name p' w' c) by congruence.
      by rewrite Hnode, Hcanals. }
    unfold registered_world. simpl. split_and!; [done..| |].
    + intros l0 Hl0. rewrite lookup_insert_ne by done. by apply Hother.
    + eexists. rewrite lookup_insert_eq. split; [done|]. simpl.
      rewrite dict_set_fresh, Hgraph, (rebuilt_graph_snoc pre name l); [done..|].
      apply dict_get_None_keys. by apply dict_in_false.
  - split_and!; [done..|]. exists p0. by rewrite Hempty.
Qed.

Lemma unmarshal_canals_pipelines_loads (sections : list (string * PipelineData)) w :
  NoDup sections.*1 →
  (∀ item : string * PipelineData, item ∈ sections →
     NoDup (pd_components item.2) ∧
     ∀ name, name ∈ pd_components item.2 → is_Some (dict_get components name)) →
  (∀ n l, dict_get components n = Some l →
     ∃ c, comps w !! l = Some c ∧ canals_component c = true) →
  wp (fold_m sections (unmarshal_canals_pipeline components) [])
    (λ result w',
       stores w' = stores w ∧ comps w' = comps w ∧
       dicts w ⊆ dicts w' ∧ pipes w ⊆ pipes w' ∧
       result.*1 = sections.*1 ∧
       ∀ item : string * PipelineData, item ∈ sections →
         ∃ pl p', dict_get result item.1 = Some pl ∧
                  pipes w !! pl = None ∧ pipes w' !! pl = Some p' ∧
                  graph p' = rebuilt_graph components (pd_components item.2))
    (λ _ _, False) w.
Proof.
  intros Hnodup Hsections Halloc.
  apply (wp_fold_m_prefix _ _
    (λ pre result w',
       stores w' = stores w ∧ comps w' = comps w ∧
       dicts w ⊆ dicts w' ∧ pipes w ⊆ pipes w' ∧
       result.*1 = pre.*1 ∧
       ∀ item : string * PipelineData, item ∈ pre →
         ∃ pl p', dict_get result item.1 = Some pl ∧
                  pipes w !! pl = None ∧ pipes w' !! pl = Some p' ∧
                  graph p' = rebuilt_graph components (pd_components item.2))).
  - intros pre item post acc w1 Hsplit (Hs & Hc & Hd & Hp & Hkeys & Hpre).
    destruct (Hsections item) as [Hnames Hres];
      [rewrite Hsplit, elem_of_app; right; left|].
    assert (item.1 ∉ pre.*1) as Hnew.
    { rewrite Hsplit, fmap_app in Hnodup. apply NoDup_app in Hnodup as (_ & Hdisj & _).
      intros Hin. apply (Hdisj _ Hin). simpl. left. }
    unfold unmarshal_canals_pipeline, Pipeline_init. apply wp_bind, wp_bind.
    eapply wp_run_ok; [reflexivity|].
    eapply wp_run_ok; [reflexivity|].
    set (d := fresh (dom (dicts w1))). set (pl := fresh (dom (pipes w1))).
    assert (dicts w1 !! d = None) as Hd_new by apply not_elem_of_dom, is_fresh.
    assert (pipes w1 !! pl = None) as Hpl_new by apply not_elem_of_dom, is_fresh.
    apply wp_bind.
    eapply wp_mono;
      [apply (assemble_nodes _ pl _
                {| _document_stores_connections := d; _document_stores := [];
                   graph := [] |} Hnames Hres)| |done].
    + simpl. intros n l Hn. rewrite Hc. by apply (Halloc n).
    + simpl. apply lookup_insert_eq.
    + done.
    + simpl. intros ? w2 (Hs2 & Hc2 & Hd2 & Hother & p2 & Hp2 & Hgraph).
      apply wp_ret. rewrite dict_set_fresh by (by rewrite Hkeys).
      split_and!; [congruence|congruence| | | |].
      * rewrite Hd2. etrans; [done|]. by apply insert_subseteq.
      * apply map_subseteq_spec. intros l p0 Hl.
        assert (pipes w1 !! l = Some p0) as Hl1 by (by eapply lookup_weaken).
        assert (l ≠ pl) as Hne by (intros ->; congruence).
        rewrite Hother by done. by rewrite lookup_insert_ne.
      * by rewrite !fmap_app, Hkeys.
      * intros item' [Hin| ->%list_elem_of_singleton]%elem_of_app.
        -- destruct (Hpre item' Hin) as (pl0 & p0 & Hget & Hnone & Hsome & Hg).
           exists pl0, p0. split_and!; [|done| |done].
           ++ rewrite dict_get_snoc. by rewrite Hget.
           ++ assert (pl0 ≠ pl) as Hne by (intros ->; congruence).
              rewrite Hother by done. by rewrite lookup_insert_ne.
        -- exists pl, p2. split_and!; [|by eapply lookup_weaken_None|done|done].
           rewrite dict_get_snoc.
           destruct (dict_get acc item.1) eqn:Hget; [|by rewrite decide_True].
           exfalso. apply Hnew. rewrite <- Hkeys. apply dict_get_keys. by rewrite Hget.
  - split_and!; [done..|]. intros item Hitem. by apply elem_of_nil in Hitem.
Qed.
End assembling.

Lemma dict_get_is_Some {V} (d : list (string * V)) k : k ∈ d.*1 → is_Some (dict_get d k).
Proof.
  intros Hk. destruct (dict_get d k) eqn:Hget; [done|].
  by apply dict_get_None_keys in Hget.
Qed.

Lemma connections_of_dicts w1 w2 pd :
  dicts w1 = dicts w2 → connections_of w1 pd = connections_of w2 pd.
Proof. unfold connections_of. by intros ->. Qed.

Lemma all_connections_elem w data pd conns item :
  pd ∈ dict_values (doc_pipelines data) → connections_of w pd = Some conns →
  item ∈ conns → item ∈ all_connections w data.
Proof.
  intros Hpd Hconns Hitem. unfold all_connections.
  apply list_elem_of_In, in_flat_map. exists pd. split; [by apply list_elem_of_In|].
  apply list_elem_of_In. by rewrite Hconns.
Qed.

Section loading_pipelines.
Variable registry : list (string * (StoreData → result DocumentStore)).

(** [unmarshal_pipelines] on a document that can be loaded. *)
Lemma unmarshal_pipelines_loads data table w :
  doc_stores data = Some table →
  well_formed_document registry data table w →
  ∃ result w' stores_ components,
    unmarshal_pipelines registry data w = (Ok result, w') ∧
    dict_keys stores_ = dict_keys table ∧
    (∀ n1 n2 l, dict_get stores_ n1 = Some l → dict_get stores_ n2 = Some l → n1 = n2) ∧
    (∀ n sd, dict_get table n = Some sd →
       ∃ t cls s l,
         dict_get sd "type" = Some (VStr t) ∧ dict_get registry t = Some cls ∧
         cls sd = Ok s ∧ dict_get stores_ n = Some l ∧
         stores w !! l = None ∧ stores w' !! l = Some s) ∧
    dict_keys result = dict_keys (doc_pipelines data) ∧
    (∀ n pd, dict_get (doc_pipelines data) n = Some pd →
       ∃ pl p,
         dict_get result n = Some pl ∧ pipes w !! pl = None ∧ pipes w' !! pl = Some p ∧
         dict_keys (graph p) = pd_components pd ∧
         ∀ cname, cname ∈ pd_components pd →
           dict_get (graph p) cname = dict_get components cname) ∧
    (∀ cname sname, (cname, sname) ∈ all_connections w data →
       ∃ instance store c,
         dict_get components cname = Some instance ∧
         dict_get stores_ sname = Some store ∧
         comps w !! instance = None ∧
         comps w' !! instance = Some c ∧
         document_store c = Some store).
Proof.
  intros Htable (Hnd_table & Hload & Hnd_secs & Hsecs & Hconns).
  rewrite Forall_forall in Hsecs. rewrite Forall_forall in Hconns.
  rewrite unmarshal_pipelines_run, Htable.
  destruct (unmarshal_stores_loads registry table w Hnd_table Hload)
    as (stores_ & wa & -> & Hca & Hda & Hpa & Hsa & Hkeys & Hinj & Hcontent).
  destruct (unmarshal_canals_components_loads data wa)
    as (components & wb & -> & Hsb & Hdb & Hpb & Hcb & Hckeys & Hcinj & Hcalloc).
  assert (dicts wb = dicts w) as Hdw by congruence.
  assert (all_connections w data
          = flat_map (λ pd, default [] (connections_of wb pd))
              (dict_values (doc_pipelines data))) as Hevery.
  { unfold all_connections. apply flat_map_ext. intros pd.
    by rewrite (connections_of_dicts wb w). }
  pose proof (reconnect_all_loads stores_ components wb
                (dict_values (doc_pipelines data)) (all_connections w data) Hevery Hcinj)
    as Hloop.
  unfold wp in Hloop.
  destruct (for_each (dict_values (doc_pipelines data))
              (reconnect_stores stores_ components) wb) as [[[]|e] wc]; cycle 1.
  { exfalso. apply Hloop.
    - intros item Hitem. destruct (Hconns item Hitem) as (Hstore & Hcomp & _). split.
      + apply dict_get_is_Some. unfold dict_keys in Hkeys. rewrite Hkeys.
        by apply dict_get_keys, dict_in_true.
      + by apply Hckeys, dict_in_true.
    - intros item Hitem. by destruct (Hconns item Hitem) as (_ & _ & ?).
    - intros pd Hpd. rewrite (connections_of_dicts wb w) by done.
      by destruct (Hsecs pd Hpd).
    - intros n l Hn. by destruct (Hcalloc n l Hn). }
  destruct Hloop as (Hsc & Hdc & Hpc & Hother & Halloc & Hbound).
  { intros item Hitem. destruct (Hconns item Hitem) as (Hstore & Hcomp & _). split.
    - apply dict_get_is_Some. unfold dict_keys in Hkeys. rewrite Hkeys.
      by apply dict_get_keys, dict_in_true.
    - by apply Hckeys, dict_in_true. }
  { intros item Hitem. by destruct (Hconns item Hitem) as (_ & _ & ?). }
  { intros pd Hpd. rewrite (connections_of_dicts wb w) by done.
    by destruct (Hsecs pd Hpd). }
  { intros n l Hn. by destruct (Hcalloc n l Hn). }
  assert (∀ item : string * PipelineData, item ∈ doc_pipelines data →
            NoDup (pd_components item.2) ∧
            ∀ name, name ∈ pd_components item.2 → is_Some (dict_get components name))
    as Hnodes.
  { intros item Hitem.
    destruct (Hsecs item.2) as (_ & Hnd & Hnames).
    { apply list_elem_of_fmap. by exists item. }
    split; [done|]. intros name Hname. apply Hckeys, dict_in_true.
    by apply (proj1 (Forall_forall _ _) Hnames). }
  pose proof (unmarshal_canals_pipelines_loads components (doc_pipelines data) wc
                Hnd_secs Hnodes Halloc) as Hbuild.
  unfold wp in Hbuild. unfold _unmarshal_canals_pipelines.
  destruct (fold_m (doc_pipelines data) (unmarshal_canals_pipeline components) [] wc)
    as [[result|e] w']; [|done].
  destruct Hbuild as (Hs' & Hc' & Hd' & Hp' & Hrkeys & Hpipes).
  exists result, w', stores_, components. split_and!; [done..| |done| |].
  - intros n sd Hn.
    destruct (Hcontent (n, sd)) as (t & cls & s & l & ? & ? & ? & ? & ? & Hl);
      [by apply dict_get_Some_elem|].
    exists t, cls, s, l. split_and!; [done..|]. by rewrite Hs', Hsc, Hsb.
  - intros n pd Hn.
    destruct (Hpipes (n, pd)) as (pl & p & Hget & Hnone & Hsome & Hgraph);
      [by apply dict_get_Some_elem|].
    destruct (Hnodes (n, pd)) as [_ Hnames]; [by apply dict_get_Some_elem|].
    exists pl, p. split_and!; [done| |done| |].
    + by rewrite <- Hpa, <- Hpb, <- Hpc.
    + rewrite Hgraph. by apply rebuilt_graph_keys.
    + intros cname Hcname. rewrite Hgraph. apply rebuilt_graph_get; [done|].
      by apply Hnames.
  - intros cname sname Hitem.
    destruct (Hbound _ Hitem) as (instance & store & c & Hi & Hst & Hc & Hheld).
    exists instance, store, c. split_and!; [done..| | |done].
    + destruct (Hcalloc _ _ Hi) as [Hnone _]. by rewrite <- Hca.
    + by rewrite Hc'.
Qed.
End loading_pipelines.

(** *** The sections that marshal_pipelines writes *)

Lemma marshal_canals_pipelines_nodes pipelines w :
  wp (marshal_canals_pipelines pipelines)
    (λ d w', w' = w ∧
       ∀ n pd, dict_get (doc_pipelines d) n = Some pd →
         ∃ pl p, (n, pl) ∈ pipelines ∧ pipes w !! pl = Some p ∧
                 pd_components pd = dict_keys (graph p))
    (λ _ w', w' = w) w.
Proof.
  unfold marshal_canals_pipelines.
  apply (wp_fold_m _ _
    (λ d w', w' = w ∧
       ∀ n pd, dict_get (doc_pipelines d) n = Some pd →
         ∃ pl p, (n, pl) ∈ pipelines ∧ pipes w !! pl = Some p ∧
                 pd_components pd = dict_keys (graph p))).
  - intros item acc w1 Hitem [-> Hacc]. unfold marshal_canals_pipeline.
    apply wp_bind, wp_read_pipe. destruct (pipes w !! item.2) as [p|] eqn:Hp; [|done].
    apply wp_bind.
    apply wp_reads; [|intros cs|done].
    { apply reads_fold_m. intros. unfold marshal_canals_component.
      apply reads_bind; auto with reads. }
    apply wp_ret. split; [done|]. simpl. intros n pd. rewrite dict_get_set.
    destruct (decide (item.1 = n)) as [<-|]; [|by auto].
    intros [= <-]. exists item.2, p. by destruct item.
  - split; [done|]. simpl. by intros n pd [=].
Qed.

Lemma marshal_pipelines_nodes pipelines w :
  wp (marshal_pipelines pipelines)
    (λ doc _,
       ∀ n pd, dict_get (doc_pipelines doc) n = Some pd →
         ∃ pl p, (n, pl) ∈ pipelines ∧ pipes w !! pl = Some p ∧
                 pd_components pd = dict_keys (graph p))
    (λ _ _, True) w.
Proof.
  unfold marshal_pipelines. apply wp_bind.
  eapply wp_mono; [apply marshal_canals_pipelines_nodes| |done].
  intros canals w1 [-> Hnodes]. apply wp_bind.
  eapply wp_mono;
    [apply (wp_fold_m _ _
       (λ acc w', hashless acc.2 ∧ length acc.2 ≤ 1 ∧
          ∀ n pd, dict_get acc.1 n = Some pd →
            ∃ pl p, (n, pl) ∈ pipelines ∧ pipes w !! pl = Some p ∧
                    pd_components pd = dict_keys (graph p)) (λ _ _, True))| |done].
  - intros item acc w1 _ (Hms & Hlen & Hacc).
    eapply wp_mono; [by apply marshal_pipeline_spec| |done].
    intros r w' (Hms' & Hlen' & pl & p0 & conns & sc & section & _ & _ & _ & _ & _ &
                 Hsection & -> & _).
    split_and!; [done..|]. intros n pd. rewrite dict_get_set.
    destruct (decide (item.1 = n)) as [<-|]; [|by auto].
    intros [= <-]. simpl. by apply Hacc.
  - split_and!; [apply hashless_nil|simpl; lia|done].
  - intros [secs ms] w1 (_ & _ & Hsecs). by apply wp_ret.
Qed.

Section round_trip.
Variable registry : list (string * (StoreData → result DocumentStore)).

End round_trip.


